(** * GOV.UK style and content checker: a shallow embedding of
    [govuk_checker.py] and the properties of its rule evaluator.

    The development follows the layout of the script:
    - [PyStr]   Python [str] values and the methods the script calls;
    - [Re]      the fragment of Python's [re] used by the script's patterns;
    - [Bs4]     the parsed markup tree and the queries made on it;
    - [Docx]    the paragraph/run view of a word-processor document;
    - [Checker] the store of an evaluation, the patterns, the messages,
                [check_html], [check_docx] and [main];
    - [Trace]   what each rule appends, as a list;
    - [ReSem]   what the backtracking matcher finds, declaratively;
    - the properties of the evaluators, rule by rule. *)

From Stdlib Require Import String Ascii DecimalString DecimalNat.
From Stdlib Require Import List NArith ZArith Bool Arith Lia Permutation.
From Stdlib Require Import Sorted.
Import ListNotations.

Set Implicit Arguments.
Set Warnings "-register-all".

(* ------------------------------------------------------------------ *)
(** * Python strings *)

(** A Python [str] is a sequence of Unicode code points. *)
Definition pystr := list N.

(** The Unicode character database, as far as CPython consults it for the
    calls made by the script.  The tables are not part of the program: every
    general statement below is made for an arbitrary database. *)
Class Unicode : Type := {
  isspace   : N -> bool;        (* Py_UNICODE_ISSPACE: str.strip, str.split, \s *)
  isalnum   : N -> bool;        (* Py_UNICODE_ISALNUM: \w is isalnum or '_' *)
  isdecimal : N -> bool;        (* Py_UNICODE_ISDECIMAL: \d *)
  isupper   : N -> bool;        (* Py_UNICODE_ISUPPER: str.isupper on one character *)
  tolower   : N -> N;           (* _sre.unicode_tolower *)
  iscased   : N -> bool;        (* _sre.unicode_iscased *)
  casefix   : N -> list N;      (* sre_compile._ignorecase_fixes *)
  lower     : pystr -> pystr    (* str.lower *)
}.

Module PyStr.

(** A literal of the script, written as a Rocq string of ASCII characters. *)
Definition py (s : string) : pystr :=
  map N_of_ascii (list_ascii_of_string s).

Definition nl : pystr := [10%N].
(** U+2019 RIGHT SINGLE QUOTATION MARK, the apostrophe of the contraction list. *)
Definition rsquo : N := 8217%N.

Definition eqb (a b : pystr) : bool :=
  if list_eq_dec N.eq_dec a b then true else false.

(** Truth value of a string: non-empty. *)
Definition truthy (s : pystr) : bool :=
  match s with [] => false | _ :: _ => true end.

Fixpoint startswith (s p : pystr) {struct p} : bool :=
  match p, s with
  | [], _ => true
  | _ :: _, [] => false
  | a :: p', b :: s' => N.eqb a b && startswith s' p'
  end.

Definition endswith (s p : pystr) : bool :=
  startswith (rev s) (rev p).

(** [sub in s] *)
Fixpoint contains (s sub : pystr) : bool :=
  startswith s sub ||
  match s with
  | [] => false
  | _ :: s' => contains s' sub
  end.

(** [sep.join(l)] *)
Fixpoint join (sep : pystr) (l : list pystr) : pystr :=
  match l with
  | [] => []
  | [x] => x
  | x :: l' => x ++ sep ++ join sep l'
  end.

(** [str(n)] for a non-negative integer. *)
Definition str_of_nat (n : nat) : pystr :=
  py (NilEmpty.string_of_uint (Nat.to_uint n)).

Section WithUnicode.
Context {U : Unicode}.

Fixpoint lstrip (s : pystr) : pystr :=
  match s with
  | [] => []
  | c :: s' => if isspace c then lstrip s' else s
  end.

Definition rstrip (s : pystr) : pystr := rev (lstrip (rev s)).

(** [s.strip()] *)
Definition strip (s : pystr) : pystr := rstrip (lstrip s).

Definition flush (cur : pystr) : list pystr :=
  match cur with [] => [] | _ :: _ => [rev cur] end.

(** [s.split()]: the maximal runs of non-whitespace characters; [cur] is the
    run being read, reversed. *)
Fixpoint split_from (cur s : pystr) : list pystr :=
  match s with
  | [] => flush cur
  | c :: s' =>
      if isspace c then flush cur ++ split_from [] s'
      else split_from (c :: cur) s'
  end.

Definition split (s : pystr) : list pystr := split_from [] s.

End WithUnicode.

End PyStr.
Import PyStr.

(* ------------------------------------------------------------------ *)
(** * The [re] fragment *)

Module Re.

(** Character sets: [[A-Z]], [[.!?]], [[^)]], [\s], [\d]. *)
Inductive cset : Type :=
| COneOf (l : list N)
| CRange (lo hi : N)
| CSpace
| CDigit
| CNot (s : cset).

(** Compiled patterns.  A literal under [re.IGNORECASE] is [LitI]; a
    capturing or non-capturing group is its content, no caller of the script
    reads a group. Repetition is only ever applied to a character set. *)
Inductive regex : Type :=
| Eps
| Lit (c : N)
| LitI (c : N)
| Cls (s : cset)
| Rep (s : cset) (lo : nat) (hi : option nat)
| Cat (a b : regex)
| Alt (a b : regex)
| WordB
| LookBehind (s : cset).

Fixpoint lits (s : pystr) : regex :=
  match s with
  | [] => Eps
  | c :: s' => Cat (Lit c) (lits s')
  end.

Fixpoint litsI (s : pystr) : regex :=
  match s with
  | [] => Eps
  | c :: s' => Cat (LitI c) (litsI s')
  end.

(** [a|b|...] *)
Fixpoint alts (l : list regex) : regex :=
  match l with
  | [] => Cls (COneOf [])
  | [r] => r
  | r :: l' => Alt r (alts l')
  end.

Section WithUnicode.
Context {U : Unicode}.

Fixpoint cset_mem (s : cset) (c : N) : bool :=
  match s with
  | COneOf l => existsb (N.eqb c) l
  | CRange lo hi => N.leb lo c && N.leb c hi
  | CSpace => isspace c
  | CDigit => isdecimal c
  | CNot s' => negb (cset_mem s' c)
  end.

(** [\w] *)
Definition isword (c : N) : bool := isalnum c || N.eqb c 95.

Definition isword_opt (c : option N) : bool :=
  match c with Some x => isword x | None => false end.

(** A literal compiled under IGNORECASE: an uncased character is compared
    as it is, a cased one through the lower-case mapping and the table of
    extra equivalences. *)
Definition lit_ignore (c x : N) : bool :=
  if iscased c then
    let lo := tolower c in
    let y := tolower x in
    N.eqb y lo || existsb (N.eqb y) (casefix lo)
  else N.eqb x c.

(** A continuation receives the character before the current position and
    the rest of the subject, and answers with what is left after the match. *)
Definition cont := option N -> pystr -> option pystr.

Definition stop : cont := fun _ rest => Some rest.

(** Greedy [s{lo,hi}]: one more character first, fewer on failure. *)
Fixpoint rep (s : cset) (lo : nat) (hi : option nat) (k : cont)
    (prev : option N) (rest : pystr) {struct rest} : option pystr :=
  let fewer := if Nat.eqb lo 0 then k prev rest else None in
  match rest with
  | [] => fewer
  | c :: rest' =>
      let more :=
        match hi with
        | Some 0 => None
        | Some (S h) => rep s (Nat.pred lo) (Some h) k (Some c) rest'
        | None => rep s (Nat.pred lo) None k (Some c) rest'
        end in
      if cset_mem s c then
        match more with
        | Some r => Some r
        | None => fewer
        end
      else fewer
  end.

Definition one (ok : N -> bool) (k : cont) (rest : pystr) : option pystr :=
  match rest with
  | [] => None
  | c :: rest' => if ok c then k (Some c) rest' else None
  end.

(** The backtracking matcher: alternatives in order, the continuation
    decides whether a choice stands. *)
Fixpoint matches (r : regex) (k : cont) (prev : option N) (rest : pystr)
    : option pystr :=
  match r with
  | Eps => k prev rest
  | Lit c => one (N.eqb c) k rest
  | LitI c => one (lit_ignore c) k rest
  | Cls s => one (cset_mem s) k rest
  | Rep s lo hi => rep s lo hi k prev rest
  | Cat a b => matches a (matches b k) prev rest
  | Alt a b =>
      match matches a k prev rest with
      | Some r' => Some r'
      | None => matches b k prev rest
      end
  | WordB =>
      if xorb (isword_opt prev) (isword_opt (hd_error rest))
      then k prev rest else None
  | LookBehind s =>
      match prev with
      | Some p => if cset_mem s p then k prev rest else None
      | None => None
      end
  end.

(** The match starting at the current position, as the text it covers. *)
Definition match_here (r : regex) (prev : option N) (rest : pystr)
    : option pystr :=
  match matches r stop prev rest with
  | Some post => Some (firstn (length rest - length post) rest)
  | None => None
  end.

(** [re.search(r, text)]: the leftmost match, tried at every position. *)
Fixpoint search_from (r : regex) (prev : option N) (rest : pystr)
    : option pystr :=
  match match_here r prev rest with
  | Some m => Some m
  | None =>
      match rest with
      | [] => None
      | c :: rest' => search_from r (Some c) rest'
      end
  end.

Definition search (r : regex) (text : pystr) : bool :=
  match search_from r None text with Some _ => true | None => false end.

(** [re.findall(r, text)] for a pattern without groups: the matches from
    left to right, each search resuming where the previous match ended.
    [skip] counts the characters of the last match still to be passed. *)
Fixpoint findall_from (r : regex) (skip : nat) (prev : option N)
    (rest : pystr) : list pystr :=
  match skip with
  | S n =>
      match rest with
      | [] => []
      | c :: rest' => findall_from r n (Some c) rest'
      end
  | 0 =>
      match match_here r prev rest with
      | Some m =>
          m :: match rest with
               | [] => []
               | c :: rest' => findall_from r (Nat.pred (length m)) (Some c) rest'
               end
      | None =>
          match rest with
          | [] => []
          | c :: rest' => findall_from r 0 (Some c) rest'
          end
      end
  end.

Definition findall (r : regex) (text : pystr) : list pystr :=
  findall_from r 0 None text.

(** [re.split(r, text)] for a pattern without groups that consumes at least
    one character: the pieces between the matches; [cur] is the piece being
    read, reversed. *)
Fixpoint split_from (r : regex) (skip : nat) (cur : pystr)
    (prev : option N) (rest : pystr) : list pystr :=
  match skip with
  | S n =>
      match rest with
      | [] => [rev cur]
      | c :: rest' => split_from r n cur (Some c) rest'
      end
  | 0 =>
      match match_here r prev rest, rest with
      | Some (_ :: m'), c :: rest' =>
          rev cur :: split_from r (length m') [] (Some c) rest'
      | _, c :: rest' => split_from r 0 (c :: cur) (Some c) rest'
      | _, [] => [rev cur]
      end
  end.

Definition split (r : regex) (text : pystr) : list pystr :=
  split_from r 0 [] None text.

End WithUnicode.

End Re.

(* ------------------------------------------------------------------ *)
(** * The parsed markup tree *)

Module Bs4.

(** What [BeautifulSoup(f, "lxml")] hands to the script: elements with a
    name, an attribute dictionary and contents; text nodes; and the strings
    that are not text (comments, declarations). *)
Inductive node : Type :=
| NavigableString (s : pystr)
| Comment (s : pystr)
| Tag (name : pystr) (attrs : list (pystr * pystr)) (contents : list node).

(** A node followed by everything below it, in document order. *)
Fixpoint subtree (n : node) : list node :=
  n :: match n with
       | Tag _ _ cs => flat_map subtree cs
       | _ => []
       end.

(** [tag.descendants] *)
Definition descendants (n : node) : list node :=
  match n with
  | Tag _ _ cs => flat_map subtree cs
  | _ => []
  end.

Definition named (names : list pystr) (n : node) : bool :=
  match n with
  | Tag name _ _ => existsb (PyStr.eqb name) names
  | _ => false
  end.

(** [tag.find_all(names)] *)
Definition find_all (names : list pystr) (n : node) : list node :=
  filter (named names) (descendants n).

(** [tag.find(name)], read for its truth value: an element is always true. *)
Definition find (name : pystr) (n : node) : option node :=
  hd_error (find_all [name] n).

(** [tag.get(key, default)] *)
Fixpoint lookup (key : pystr) (attrs : list (pystr * pystr)) : option pystr :=
  match attrs with
  | [] => None
  | (k, v) :: attrs' => if PyStr.eqb k key then Some v else lookup key attrs'
  end.

Definition get (n : node) (key default : pystr) : pystr :=
  match n with
  | Tag _ attrs _ =>
      match lookup key attrs with Some v => v | None => default end
  | _ => default
  end.

(** Every element of a document-order listing with the nearest string before
    it: [e.find_previous(string=True)].  Comments are strings too. *)
Fixpoint with_previous (last : option pystr) (l : list node)
    : list (node * option pystr) :=
  match l with
  | [] => []
  | n :: l' =>
      (n, last) ::
      with_previous
        match n with
        | NavigableString s => Some s
        | Comment s => Some s
        | Tag _ _ _ => last
        end l'
  end.

Section WithUnicode.
Context {U : Unicode}.

(** The strings [get_text] joins: the text nodes below the element; with
    [strip=True] each one stripped and the empty ones dropped. *)
Definition all_strings (strip_each : bool) (n : node) : list pystr :=
  flat_map
    (fun d =>
       match d with
       | NavigableString s =>
           if strip_each
           then (if truthy (strip s) then [strip s] else [])
           else [s]
       | _ => []
       end)
    (descendants n).

(** [tag.get_text(separator, strip)] *)
Definition get_text (separator : pystr) (strip_each : bool) (n : node) : pystr :=
  join separator (all_strings strip_each n).

End WithUnicode.

End Bs4.

(* ------------------------------------------------------------------ *)
(** * The word-processor document *)

Module Docx.

(** A run: [bold] and [italic] are tri-state (None, True, False). *)
Record run : Type := {
  bold : option bool;
  italic : option bool;
  run_text : pystr
}.

Record paragraph : Type := {
  style_name : pystr;
  text : pystr;
  runs : list run
}.

(** [doc.paragraphs] *)
Definition document := list paragraph.

Definition flag (b : option bool) : bool :=
  match b with Some true => true | _ => false end.

End Docx.

(* ------------------------------------------------------------------ *)
(** * The checker *)

(** [set(l)] is iterated in an order Python does not specify: for strings it
    follows their hash, which is salted per interpreter process.  What is
    guaranteed is that each distinct element comes exactly once. *)
Class SetOrder : Type := {
  set_iter : list pystr -> list pystr;
  set_iter_NoDup : forall l, NoDup (set_iter l);
  set_iter_In : forall l x, In x (set_iter l) <-> In x l
}.

Module Checker.
Import Re Bs4 Docx.

Inductive exn : Type :=
| IndexError        (* string index out of range *)
| LoadError.        (* the file could not be opened or parsed *)

Inductive outcome (A : Type) : Type :=
| Val (a : A)
| Exn (e : exn).
Arguments Val {A} a.
Arguments Exn {A} e.

(** The store of one evaluation: the document, the local [text] and the
    local [findings]. *)
Record state (D : Type) : Type := {
  st_doc : D;
  st_text : pystr;
  st_findings : list pystr
}.

Definition M (D A : Type) : Type := state D -> outcome A * state D.

Definition ret {D A} (a : A) : M D A := fun s => (Val a, s).

Definition bind {D A B} (m : M D A) (f : A -> M D B) : M D B :=
  fun s =>
    match m s with
    | (Val a, s') => f a s'
    | (Exn e, s') => (Exn e, s')
    end.

Definition raise {D A} (e : exn) : M D A := fun s => (Exn e, s).

Notation "x <- m ;; k" := (bind m (fun x => k))
  (at level 61, m at next level, right associativity).
Notation "m ;; k" := (bind m (fun _ => k))
  (at level 61, right associativity).

Definition get_doc {D} : M D D := fun s => (Val (st_doc s), s).
Definition get_text_var {D} : M D pystr := fun s => (Val (st_text s), s).

(** [findings.append(msg)] *)
Definition append {D} (msg : pystr) : M D unit :=
  fun s =>
    (Val tt,
     {| st_doc := st_doc s;
        st_text := st_text s;
        st_findings := st_findings s ++ [msg] |}).

(** [if b: body] *)
Definition when {D} (b : bool) (body : M D unit) : M D unit :=
  if b then body else ret tt.

(** [for x in l: body] *)
Fixpoint for_ {D A} (l : list A) (body : A -> M D unit) : M D unit :=
  match l with
  | [] => ret tt
  | x :: l' => body x ;; for_ l' body
  end.

(** [s[0]] *)
Definition item0 {D} (s : pystr) : M D N :=
  match s with
  | [] => raise IndexError
  | c :: _ => ret c
  end.

(** ** The patterns of the script *)

Definition seq (l : list regex) : regex := fold_right Cat Eps l.

(** [\bWORD\b] under IGNORECASE *)
Definition word_re (w : pystr) : regex := seq [WordB; litsI w; WordB].

Definition contraction (stem : string) : pystr := py stem ++ [rsquo; 116%N].

Definition contractions : list pystr :=
  map contraction
    ["don"; "doesn"; "didn"; "can"; "won"; "wouldn"; "shouldn"; "couldn";
     "isn"; "aren"; "wasn"; "weren"; "haven"; "hasn"; "hadn"; "mustn";
     "mightn"; "needn"]%string.

Definition neg_contr_re : regex :=
  seq [WordB; alts (map litsI contractions); WordB].

(** [(?<=[.!?])\s+] *)
Definition sentence_re : regex :=
  seq [LookBehind (COneOf [46; 33; 63]%N); Rep CSpace 1 None].

Definition active_verbs : list pystr :=
  map py ["work"; "read"; "learn"; "report"; "check"; "view"; "explore";
          "download"; "submit"; "apply"; "contact"; "visit"]%string.

Definition active_re : regex :=
  seq [WordB; alts (map litsI active_verbs); WordB].

(** [\b[A-Z]{2,}\b] *)
Definition acronym_re : regex :=
  seq [WordB; Rep (CRange 65 90) 2 None; WordB].

(** [\bACRONYM \([^)]+\)]; the interpolated acronym consists of the letters
    A to Z and so stands for itself in the pattern. *)
Definition expansion_re (acronym : pystr) : regex :=
  seq [WordB; lits acronym; Lit 32; Lit 40; Rep (CNot (COneOf [41%N])) 1 None;
       Lit 41].

Definition months : list pystr :=
  map py ["January"; "February"; "March"; "April"; "May"; "June"; "July";
          "August"; "September"; "October"; "November"; "December"]%string.

Definition date_re : regex :=
  seq [WordB; Rep CDigit 1 (Some 2); Lit 32; alts (map lits months); Lit 32;
       Rep CDigit 4 (Some 4); WordB].

(** [\s-\s] *)
Definition hyphen_re : regex := seq [Cls CSpace; Lit 45; Cls CSpace].

(** ** The messages *)

Definition quoted (head : string) (snippet : pystr) (tail : string) : pystr :=
  py head ++ snippet ++ py tail.

Definition msg_full_stop (bp : pystr) :=
  quoted "BULLET: Does not end with a full stop: '" bp "'".
Definition msg_capital (bp : pystr) :=
  quoted "BULLET: Does not begin with a capital letter: '" bp "'".
Definition msg_lead_in := py "BULLET: List may be missing a lead-in sentence.".
Definition msg_please := py "LANGUAGE: Found instance of the word 'please'.".
Definition msg_neg_contr (nc : pystr) :=
  quoted "LANGUAGE: Found negative contraction: '" nc "'".
Definition msg_word (word : pystr) :=
  quoted "LANGUAGE: Found use of the word '" word "'.".
Definition msg_long (sentence : pystr) :=
  quoted "LANGUAGE: Long sentence (>26 words): '" sentence "'".
Definition msg_one_word (link_text : pystr) :=
  quoted "LINK: Link text is only one word: '" link_text "'".
Definition msg_not_active (link_text : pystr) :=
  quoted "LINK: Link text may not be descriptive or active: '" link_text "'".
Definition msg_no_alt := py "IMAGE: Image found without alt text.".
Definition msg_alt_not_described (alt_text : pystr) :=
  quoted "IMAGE: Alt text not described in body: '" alt_text "'".
Definition msg_empty_cell :=
  py "TABLE: Empty table cell found. Should be marked as 'no data' or 'not applicable'.".
Definition msg_format (t : pystr) :=
  quoted "FORMAT: Use of bold/italic text: '" t "'".
Definition msg_acronym (acronym : pystr) :=
  quoted "ACRONYM: '" acronym "' may not be spelled out on first use.".
Definition msg_no_date :=
  py "STYLE: No date found in GOV.UK format (e.g., '21 September 2025').".
Definition msg_hyphen := py "STYLE: Hyphen used where em dash may be appropriate.".
Definition msg_slash := py "STYLE: Slash '/' found in text.".
Definition msg_table_link := py "STYLE: Link found inside a table.".
Definition msg_title (t : pystr) :=
  quoted "STYLE: Title may not use active language: '" t "'".

(** ** The rules *)

Section Rules.
Context {U : Unicode} {O : SetOrder}.

(** [check_html], lines 19-24. *)
Definition html_bullets : M node unit :=
  soup <- get_doc ;;
  let bullet_points := map (get_text [] false) (find_all [py "li"] soup) in
  for_ bullet_points (fun bp =>
    when (negb (endswith (strip bp) (py ".")))
      (append (msg_full_stop (strip bp))) ;;
    if truthy bp then
      c <- item0 (strip bp) ;;
      when (negb (isupper c)) (append (msg_capital (strip bp)))
    else ret tt).

(** [not prev or not prev.strip().endswith(":")] *)
Definition no_lead_in (prev : option pystr) : bool :=
  match prev with
  | None => true
  | Some p => negb (truthy p) || negb (endswith (strip p) (py ":"))
  end.

(** [check_html], lines 26-29. *)
Definition html_lead_in : M node unit :=
  soup <- get_doc ;;
  let uls := filter (fun e => named [py "ul"] (fst e))
                    (with_previous None (descendants soup)) in
  for_ uls (fun ul => when (no_lead_in (snd ul)) (append msg_lead_in)).

(** [check_html], lines 31-45, and [check_docx], lines 103-117. *)
Definition language_rules {D} : M D unit :=
  text <- get_text_var ;;
  when (search (word_re (py "please")) text) (append msg_please) ;;
  let neg_contr := findall neg_contr_re text in
  for_ neg_contr (fun nc => append (msg_neg_contr nc)) ;;
  for_ [py "above"; py "below"] (fun word =>
    when (search (word_re word) text) (append (msg_word word))) ;;
  let sentences := Re.split sentence_re text in
  for_ sentences (fun sentence =>
    when (26 <? length (PyStr.split sentence))
      (append (msg_long (strip sentence)))).

(** [check_html], lines 47-52. *)
Definition html_links : M node unit :=
  soup <- get_doc ;;
  for_ (find_all [py "a"] soup) (fun a =>
    let link_text := strip (get_text [] false a) in
    when (length (PyStr.split link_text) =? 1)
      (append (msg_one_word link_text)) ;;
    when (negb (search active_re link_text))
      (append (msg_not_active link_text))).

(** [check_html], lines 54-60. *)
Definition html_images : M node unit :=
  soup <- get_doc ;;
  text <- get_text_var ;;
  let images := find_all [py "img"] soup in
  for_ images (fun img =>
    let alt_text := get img (py "alt") [] in
    when (negb (truthy alt_text)) (append msg_no_alt) ;;
    when (truthy alt_text && negb (contains text alt_text))
      (append (msg_alt_not_described alt_text))).

(** [check_html], lines 62-64. *)
Definition html_cells : M node unit :=
  soup <- get_doc ;;
  for_ (find_all [py "td"] soup) (fun td =>
    when (negb (truthy (get_text [] true td))) (append msg_empty_cell)).

(** [check_html], lines 66-67. *)
Definition html_emphasis : M node unit :=
  soup <- get_doc ;;
  for_ (find_all [py "b"; py "strong"; py "i"; py "em"] soup) (fun tag =>
    append (msg_format (get_text [] true tag))).

(** [check_html], lines 69-72, and [check_docx], lines 124-127. *)
Definition acronym_rule {D} : M D unit :=
  text <- get_text_var ;;
  let acronyms := findall acronym_re text in
  for_ (set_iter acronyms) (fun acronym =>
    when (negb (search (expansion_re acronym) text))
      (append (msg_acronym acronym))).

(** [check_html], lines 74-79, and [check_docx], lines 129-134. *)
Definition style_rules {D} : M D unit :=
  text <- get_text_var ;;
  when (negb (search date_re text)) (append msg_no_date) ;;
  when (search hyphen_re text) (append msg_hyphen) ;;
  when (contains text (py "/")) (append msg_slash).

(** [check_html], lines 80-82. *)
Definition html_table_links : M node unit :=
  soup <- get_doc ;;
  for_ (find_all [py "table"] soup) (fun table =>
    when (match find (py "a") table with Some _ => true | None => false end)
      (append msg_table_link)).

(** [check_html], lines 83-86. *)
Definition html_titles : M node unit :=
  soup <- get_doc ;;
  let titles := find_all [py "h1"; py "h2"; py "h3"] soup in
  for_ titles (fun title =>
    when (negb (search active_re (get_text [] false title)))
      (append (msg_title (get_text [] true title)))).

(** The statements of [check_html] after [text] is assigned. *)
Definition check_html_body : M node unit :=
  html_bullets ;;
  html_lead_in ;;
  language_rules ;;
  html_links ;;
  html_images ;;
  html_cells ;;
  html_emphasis ;;
  acronym_rule ;;
  style_rules ;;
  html_table_links ;;
  html_titles.

Definition start {D} (d : D) (text : pystr) : state D :=
  {| st_doc := d; st_text := text; st_findings := [] |}.

(** [return findings], or the exception that ended the evaluation. *)
Definition result {D} (r : outcome unit * state D) : outcome (list pystr) :=
  match r with
  | (Val _, s) => Val (st_findings s)
  | (Exn e, _) => Exn e
  end.

(** [check_html], lines 17-88, on the tree [soup] that lines 15-16 load. *)
Definition check_html (soup : node) : outcome (list pystr) :=
  let text := get_text nl false soup in
  result (check_html_body (start soup text)).

(** [check_docx], lines 95-101. *)
Definition docx_bullets : M document unit :=
  doc <- get_doc ;;
  for_ doc (fun para =>
    when (startswith (style_name para) (py "List"))
      (let bp := strip (Docx.text para) in
       when (negb (endswith bp (py "."))) (append (msg_full_stop bp)) ;;
       if truthy bp then
         c <- item0 bp ;;
         when (negb (isupper c)) (append (msg_capital bp))
       else ret tt)).

(** [check_docx], lines 119-122. *)
Definition docx_emphasis : M document unit :=
  doc <- get_doc ;;
  for_ doc (fun para =>
    for_ (runs para) (fun run =>
      when (flag (bold run) || flag (italic run))
        (append (msg_format (strip (run_text run)))))).

Definition check_docx_body : M document unit :=
  docx_bullets ;;
  language_rules ;;
  docx_emphasis ;;
  acronym_rule ;;
  style_rules.

(** [check_docx], lines 93-136, on the paragraphs that line 92 loads. *)
Definition check_docx (doc : document) : outcome (list pystr) :=
  let text := join nl (map Docx.text doc) in
  result (check_docx_body (start doc text)).

End Rules.

(** ** The command line *)

(** [p.rfind(c)]: the last index of [c], or -1. *)
Fixpoint rfind_from (c : N) (p : pystr) (i best : Z) : Z :=
  match p with
  | [] => best
  | x :: p' => rfind_from c p' (i + 1)%Z (if N.eqb x c then i else best)
  end.

Definition rfind (c : N) (p : pystr) : Z := rfind_from c p 0%Z (-1)%Z.

(** [p[a:b]] for [0 <= a]. *)
Definition slice (p : pystr) (a b : Z) : pystr :=
  firstn (Z.to_nat (b - a)) (skipn (Z.to_nat a) p).

(** [os.path.splitext] (posixpath): the extension starts at the last dot of
    the last path component, leading dots of the component apart. *)
Definition splitext (p : pystr) : pystr * pystr :=
  let sepIndex := rfind 47 p in
  let dotIndex := rfind 46 p in
  if (sepIndex <? dotIndex)%Z then
    let filenameIndex := (sepIndex + 1)%Z in
    if forallb (N.eqb 46) (slice p filenameIndex dotIndex)
    then (p, [])
    else (firstn (Z.to_nat dotIndex) p, skipn (Z.to_nat dotIndex) p)
  else (p, []).

(** What [main] finds outside the program: which paths name a file, and what
    the two loaders return for a path ([None]: the loader raises). *)
Record World : Type := {
  isfile : pystr -> bool;
  load_html : pystr -> option node;
  load_docx : pystr -> option document
}.

Definition msg_usage := py "Usage: python govuk_checker.py <file>".
Definition msg_not_found := py "File not found.".
Definition msg_unsupported := py "Unsupported file type. Use .htm, .html, or .docx".
Definition msg_header := nl ++ py "--- GOV.UK Style & Content Findings ---" ++ nl.
Definition msg_total (n : nat) := nl ++ py "Total findings: " ++ str_of_nat n.

Section Main.
Context {U : Unicode} {O : SetOrder}.

(** [main]: the printed values in order, and the exception that ended the
    run if there was one. *)
Definition main (w : World) (argv : list pystr) : list pystr * option exn :=
  if negb (length argv =? 2) then ([msg_usage], None)
  else
    let file_path := nth 1 argv [] in
    if negb (isfile w file_path) then ([msg_not_found], None)
    else
      let ext := lower (snd (splitext file_path)) in
      let checked :=
        if existsb (PyStr.eqb ext) [py ".htm"; py ".html"] then
          Some match load_html w file_path with
               | Some soup => check_html soup
               | None => Exn LoadError
               end
        else if PyStr.eqb ext (py ".docx") then
          Some match load_docx w file_path with
               | Some doc => check_docx doc
               | None => Exn LoadError
               end
        else None in
      match checked with
      | None => ([msg_unsupported], None)
      | Some (Exn e) => ([], Some e)
      | Some (Val findings) =>
          ([msg_header] ++ findings ++ [msg_total (length findings)], None)
      end.

End Main.

End Checker.

(* ------------------------------------------------------------------ *)
(** * A character database and two iteration orders to evaluate with *)

Module Tables.

Definition between (lo hi c : N) : bool := N.leb lo c && N.leb c hi.

Definition ascii_upper (c : N) : bool := between 65 90 c.
Definition ascii_lower (c : N) : bool := between 97 122 c.
Definition ascii_digit (c : N) : bool := between 48 57 c.

(** The white space of Unicode, as [str.isspace] has it. *)
Definition unicode_space (c : N) : bool :=
  between 9 13 c || between 28 32 c || N.eqb c 133 || N.eqb c 160 ||
  N.eqb c 5760 || between 8192 8202 c || N.eqb c 8232 || N.eqb c 8233 ||
  N.eqb c 8239 || N.eqb c 8287 || N.eqb c 12288.

(** U+0131 and U+017F, the two letters that IGNORECASE makes equal to an
    ASCII letter through the table of extra equivalences. *)
Definition dotless_i_or_long_s (c : N) : bool := N.eqb c 305 || N.eqb c 383.

(** The database restricted to what is known here: CPython's values on the
    code points below 128, on U+0131, U+017F and U+2019, white space on all
    of Unicode, and otherwise a character that is neither cased nor
    alphanumeric. *)
Definition basic : Unicode := {|
  isspace := unicode_space;
  isalnum := fun c => ascii_upper c || ascii_lower c || ascii_digit c ||
                      dotless_i_or_long_s c;
  isdecimal := ascii_digit;
  isupper := ascii_upper;
  tolower := fun c => if ascii_upper c then (c + 32)%N else c;
  iscased := fun c => ascii_upper c || ascii_lower c || dotless_i_or_long_s c;
  casefix := fun lo =>
    if N.eqb lo 105 then [305%N] else if N.eqb lo 115 then [383%N] else [];
  lower := map (fun c => if ascii_upper c then (c + 32)%N else c)
|}.

(** One of each, in the order of the first occurrence. *)
Fixpoint first_seen (l : list pystr) : list pystr :=
  match l with
  | [] => []
  | x :: l' => x :: filter (fun y => negb (PyStr.eqb x y)) (first_seen l')
  end.

End Tables.

(* ------------------------------------------------------------------ *)
(** * What an evaluation appends *)

Module Trace.
Import Re Bs4 Docx Checker.

(** The store after [out] has been appended to the findings. *)
Definition add {D} (s : state D) (out : list pystr) : state D :=
  {| st_doc := st_doc s;
     st_text := st_text s;
     st_findings := st_findings s ++ out |}.

(** [m] runs to completion and appends [out doc text]. *)
Definition emits {D} (m : M D unit) (out : D -> pystr -> list pystr) : Prop :=
  forall s, m s = (Val tt, add s (out (st_doc s) (st_text s))).

(** [m] leaves the document and the text alone and only extends the
    findings, whether it completes or raises. *)
Definition frame {D A} (m : M D A) : Prop :=
  forall s, exists out, snd (m s) = add s out.

(** [if b: findings.append(msg)] as a list. *)
Definition say (b : bool) (msg : pystr) : list pystr :=
  if b then [msg] else [].

Lemma add_nil {D} (s : state D) : add s [] = s.
Proof. destruct s; unfold add; simpl; now rewrite app_nil_r. Qed.

Lemma add_add {D} (s : state D) a b : add (add s a) b = add s (a ++ b).
Proof. unfold add; simpl; now rewrite app_assoc. Qed.

Section Emits.
Context {D : Type}.

Lemma emits_ret : emits (D:=D) (ret tt) (fun _ _ => []).
Proof. intro s. unfold ret. now rewrite add_nil. Qed.

Lemma emits_append msg : emits (D:=D) (append msg) (fun _ _ => [msg]).
Proof. intro s. reflexivity. Qed.

Lemma emits_when b msg :
  emits (D:=D) (when b (append msg)) (fun _ _ => say b msg).
Proof. destruct b; simpl; [apply emits_append | apply emits_ret]. Qed.

Lemma emits_seq (m1 m2 : M D unit) o1 o2 :
  emits m1 o1 -> emits m2 o2 ->
  emits (m1 ;; m2) (fun d t => o1 d t ++ o2 d t).
Proof.
  intros H1 H2 s. unfold bind. rewrite H1, H2. simpl. now rewrite add_add.
Qed.

Lemma emits_for {A} (l : list A) (body : A -> M D unit) o :
  (forall x, emits (body x) (o x)) ->
  emits (for_ l body) (fun d t => flat_map (fun x => o x d t) l).
Proof.
  intro H. induction l as [|x l IH]; simpl.
  - apply emits_ret.
  - apply (emits_seq (H x) IH).
Qed.

Lemma emits_doc (k : D -> M D unit) o :
  (forall d, emits (k d) (o d)) ->
  emits (d <- get_doc ;; k d) (fun d t => o d d t).
Proof. intros H s. unfold bind, get_doc. apply H. Qed.

Lemma emits_text (k : pystr -> M D unit) o :
  (forall t, emits (k t) (o t)) ->
  emits (t <- get_text_var ;; k t) (fun d t => o t d t).
Proof. intros H s. unfold bind, get_text_var. apply H. Qed.

Lemma emits_ext (m : M D unit) o1 o2 :
  emits m o1 -> (forall d t, o1 d t = o2 d t) -> emits m o2.
Proof. intros H E s. rewrite H. now rewrite E. Qed.

Lemma frame_of_emits (m : M D unit) o : emits m o -> frame m.
Proof. intros H s. rewrite H. simpl. eauto. Qed.

Lemma frame_ret {A} (a : A) : frame (D:=D) (ret a).
Proof. intro s. exists []. simpl. now rewrite add_nil. Qed.

Lemma frame_raise {A} e : frame (D:=D) (A:=A) (raise e).
Proof. intro s. exists []. simpl. now rewrite add_nil. Qed.

Lemma frame_append msg : frame (D:=D) (append msg).
Proof. intro s. exists [msg]. reflexivity. Qed.

Lemma frame_get_doc : frame (D:=D) get_doc.
Proof. intro s. exists []. simpl. now rewrite add_nil. Qed.

Lemma frame_get_text_var : frame (D:=D) get_text_var.
Proof. intro s. exists []. simpl. now rewrite add_nil. Qed.

Lemma frame_item0 s0 : frame (D:=D) (item0 s0).
Proof. destruct s0; [apply frame_raise | apply frame_ret]. Qed.

Lemma frame_bind {A B} (m : M D A) (f : A -> M D B) :
  frame m -> (forall a, frame (f a)) -> frame (x <- m ;; f x).
Proof.
  intros Hm Hf s. unfold bind. destruct (Hm s) as [o1 E1].
  destruct (m s) as [[a|e] s1]; simpl in E1; subst s1.
  - destruct (Hf a (add s o1)) as [o2 E2]. exists (o1 ++ o2).
    now rewrite E2, add_add.
  - exists o1. reflexivity.
Qed.

Lemma frame_when b (m : M D unit) : frame m -> frame (when b m).
Proof. destruct b; simpl; [trivial | intros _; apply frame_ret]. Qed.

Lemma frame_if {A} (b : bool) (m1 m2 : M D A) :
  frame m1 -> frame m2 -> frame (if b then m1 else m2).
Proof. now destruct b. Qed.

Lemma frame_for {A} (l : list A) (body : A -> M D unit) :
  (forall x, frame (body x)) -> frame (for_ l body).
Proof.
  intro H. induction l as [|x l IH]; simpl.
  - apply frame_ret.
  - apply frame_bind; [apply H | intros _; exact IH].
Qed.

End Emits.

(** Resolves [emits m ?out] along the structure of [m]. *)
Ltac emit :=
  lazymatch goal with
  | |- emits (bind get_doc ?k) _ =>
      refine (emits_doc k _ _); intro; emit
  | |- emits (bind get_text_var ?k) _ =>
      refine (emits_text k _ _); intro; emit
  | |- emits (bind ?m1 (fun _ => ?m2)) _ =>
      refine (emits_seq (m1:=m1) (m2:=m2) _ _); emit
  | |- emits (for_ ?l ?body) _ =>
      refine (emits_for l body _ _); intro; emit
  | |- emits (when ?b (append ?msg)) _ => refine (emits_when b msg)
  | |- emits (append ?msg) _ => refine (emits_append msg)
  | |- emits (ret tt) _ => refine emits_ret
  end.

(** ** The findings of each rule, as lists *)

Section Outputs.
Context {U : Unicode} {O : SetOrder}.

(** [[li.get_text() for li in soup.find_all("li")]] *)
Definition bullet_points (soup : node) : list pystr :=
  map (get_text [] false) (find_all [py "li"] soup).

(** A bullet text that is not empty and has nothing but white space. *)
Definition blank (bp : pystr) : bool := truthy bp && negb (truthy (strip bp)).

Definition capital_out (bp : pystr) : list pystr :=
  match bp with
  | [] => []
  | c :: _ => say (negb (isupper c)) (msg_capital bp)
  end.

(** The findings for a bullet whose stripped text is [bp]. *)
Definition bullet_out (bp : pystr) : list pystr :=
  say (negb (endswith bp (py "."))) (msg_full_stop bp) ++ capital_out bp.

Definition uls_with_previous (soup : node) : list (node * option pystr) :=
  filter (fun e => named [py "ul"] (fst e))
         (with_previous None (descendants soup)).

Definition lead_in_out (soup : node) : list pystr :=
  flat_map (fun ul => say (no_lead_in (snd ul)) msg_lead_in)
           (uls_with_previous soup).

Definition please_out (text : pystr) : list pystr :=
  say (search (word_re (py "please")) text) msg_please.

Definition neg_contr_out (text : pystr) : list pystr :=
  flat_map (fun nc => [msg_neg_contr nc]) (findall neg_contr_re text).

Definition directional_out (text : pystr) : list pystr :=
  flat_map (fun word => say (search (word_re word) text) (msg_word word))
           [py "above"; py "below"].

Definition sentence_out (text : pystr) : list pystr :=
  flat_map (fun sentence =>
              say (26 <? length (PyStr.split sentence))
                  (msg_long (strip sentence)))
           (Re.split sentence_re text).

Definition language_out (text : pystr) : list pystr :=
  please_out text ++ neg_contr_out text ++ directional_out text ++
  sentence_out text.

(** The findings for one anchor. *)
Definition link_out (a : node) : list pystr :=
  let link_text := strip (get_text [] false a) in
  say (length (PyStr.split link_text) =? 1) (msg_one_word link_text) ++
  say (negb (search active_re link_text)) (msg_not_active link_text).

Definition links_out (soup : node) : list pystr :=
  flat_map link_out (find_all [py "a"] soup).

(** The findings for one image. *)
Definition image_out (text : pystr) (img : node) : list pystr :=
  let alt_text := get img (py "alt") [] in
  say (negb (truthy alt_text)) msg_no_alt ++
  say (truthy alt_text && negb (contains text alt_text))
      (msg_alt_not_described alt_text).

Definition images_out (soup : node) (text : pystr) : list pystr :=
  flat_map (image_out text) (find_all [py "img"] soup).

Definition cells_out (soup : node) : list pystr :=
  flat_map (fun td => say (negb (truthy (get_text [] true td))) msg_empty_cell)
           (find_all [py "td"] soup).

Definition emphasis_out (soup : node) : list pystr :=
  flat_map (fun tag => [msg_format (get_text [] true tag)])
           (find_all [py "b"; py "strong"; py "i"; py "em"] soup).

(** The finding for one acronym. *)
Definition acronym_out (text acronym : pystr) : list pystr :=
  say (negb (search (expansion_re acronym) text)) (msg_acronym acronym).

Definition acronyms_out (text : pystr) : list pystr :=
  flat_map (acronym_out text) (set_iter (findall acronym_re text)).

Definition date_out (text : pystr) : list pystr :=
  say (negb (search date_re text)) msg_no_date.

Definition hyphen_out (text : pystr) : list pystr :=
  say (search hyphen_re text) msg_hyphen.

Definition slash_out (text : pystr) : list pystr :=
  say (contains text (py "/")) msg_slash.

Definition style_out (text : pystr) : list pystr :=
  date_out text ++ hyphen_out text ++ slash_out text.

Definition table_links_out (soup : node) : list pystr :=
  flat_map (fun table =>
              say (match find (py "a") table with
                   | Some _ => true
                   | None => false
                   end) msg_table_link)
           (find_all [py "table"] soup).

Definition titles_out (soup : node) : list pystr :=
  flat_map (fun title =>
              say (negb (search active_re (get_text [] false title)))
                  (msg_title (get_text [] true title)))
           (find_all [py "h1"; py "h2"; py "h3"] soup).

(** What [check_html] appends before and after the acronym findings, once
    the bullets are through. *)
Definition html_before (soup : node) (text : pystr) : list pystr :=
  flat_map (fun bp => bullet_out (strip bp)) (bullet_points soup) ++
  lead_in_out soup ++ language_out text ++ links_out soup ++
  images_out soup text ++ cells_out soup ++ emphasis_out soup.

Definition html_after (soup : node) (text : pystr) : list pystr :=
  style_out text ++ table_links_out soup ++ titles_out soup.

Definition html_out (soup : node) (text : pystr) : list pystr :=
  html_before soup text ++ acronyms_out text ++ html_after soup text.

Definition list_paragraphs (doc : document) : list pystr :=
  map (fun para => strip (Docx.text para))
      (filter (fun para => startswith (style_name para) (py "List")) doc).

Definition docx_emphasis_out (doc : document) : list pystr :=
  flat_map (fun para =>
     flat_map (fun run => say (flag (bold run) || flag (italic run))
                              (msg_format (strip (run_text run))))
              (runs para)) doc.

Definition docx_before (doc : document) (text : pystr) : list pystr :=
  flat_map bullet_out (list_paragraphs doc) ++ language_out text ++
  docx_emphasis_out doc.

Definition docx_out (doc : document) (text : pystr) : list pystr :=
  docx_before doc text ++ acronyms_out text ++ style_out text.

End Outputs.

End Trace.

(* ------------------------------------------------------------------ *)
(** * The evaluators as lists of findings *)

Unset Implicit Arguments.

Section Evaluation.
Import Re Bs4 Docx Checker Trace.
Context {U : Unicode} {O : SetOrder}.

Lemma strip_nil : strip [] = [].
Proof. reflexivity. Qed.

Lemma html_lead_in_emits :
  emits html_lead_in (fun soup _ => lead_in_out soup).
Proof.
  unfold html_lead_in, lead_in_out, uls_with_previous. cbv zeta.
  eapply emits_ext; [emit | reflexivity].
Qed.

Lemma language_rules_emits D :
  emits (D:=D) language_rules (fun _ text => language_out text).
Proof.
  unfold language_rules, language_out, please_out, neg_contr_out,
    directional_out, sentence_out. cbv zeta.
  eapply emits_ext; [emit | reflexivity].
Qed.

Lemma html_links_emits : emits html_links (fun soup _ => links_out soup).
Proof.
  unfold html_links, links_out, link_out. cbv zeta.
  eapply emits_ext; [emit | reflexivity].
Qed.

Lemma html_images_emits : emits html_images images_out.
Proof.
  unfold html_images, images_out, image_out. cbv zeta.
  eapply emits_ext; [emit | reflexivity].
Qed.

Lemma html_cells_emits : emits html_cells (fun soup _ => cells_out soup).
Proof.
  unfold html_cells, cells_out.
  eapply emits_ext; [emit | reflexivity].
Qed.

Lemma html_emphasis_emits :
  emits html_emphasis (fun soup _ => emphasis_out soup).
Proof.
  unfold html_emphasis, emphasis_out.
  eapply emits_ext; [emit | reflexivity].
Qed.

Lemma acronym_rule_emits D :
  emits (D:=D) acronym_rule (fun _ text => acronyms_out text).
Proof.
  unfold acronym_rule, acronyms_out, acronym_out. cbv zeta.
  eapply emits_ext; [emit | reflexivity].
Qed.

Lemma style_rules_emits D :
  emits (D:=D) style_rules (fun _ text => style_out text).
Proof.
  unfold style_rules, style_out, date_out, hyphen_out, slash_out.
  eapply emits_ext; [emit | reflexivity].
Qed.

Lemma html_table_links_emits :
  emits html_table_links (fun soup _ => table_links_out soup).
Proof.
  unfold html_table_links, table_links_out.
  eapply emits_ext; [emit | reflexivity].
Qed.

Lemma html_titles_emits : emits html_titles (fun soup _ => titles_out soup).
Proof.
  unfold html_titles, titles_out. cbv zeta.
  eapply emits_ext; [emit | reflexivity].
Qed.

Lemma docx_emphasis_emits :
  emits docx_emphasis (fun doc _ => docx_emphasis_out doc).
Proof.
  unfold docx_emphasis, docx_emphasis_out.
  eapply emits_ext; [emit | reflexivity].
Qed.

(** The body of the bullet loop of [check_html]. *)
Definition html_bullet (bp : pystr) : M node unit :=
  when (negb (endswith (strip bp) (py ".")))
    (append (msg_full_stop (strip bp))) ;;
  if truthy bp then
    c <- item0 (strip bp) ;;
    when (negb (isupper c)) (append (msg_capital (strip bp)))
  else ret tt.

Lemma html_bullets_unfold :
  html_bullets = (soup <- get_doc ;; for_ (bullet_points soup) html_bullet).
Proof. reflexivity. Qed.

Lemma when_append_run D b msg (s : state D) :
  when b (append msg) s = (Val tt, add s (say b msg)).
Proof. apply (emits_when b msg). Qed.

Ltac run_when :=
  match goal with
  | |- context [@when _ ?b (@append _ ?m) ?s] =>
      rewrite (when_append_run _ b m s)
  end.

Lemma html_bullet_ok bp s :
  blank bp = false ->
  html_bullet bp s = (Val tt, add s (bullet_out (strip bp))).
Proof.
  unfold blank, html_bullet, bullet_out, bind. intro Hb.
  run_when.
  destruct bp as [|c bp'].
  - cbn [truthy]. cbv iota. rewrite strip_nil. simpl capital_out.
    unfold ret. now rewrite app_nil_r.
  - cbn [truthy andb] in Hb.
    destruct (strip (c :: bp')) as [|c' r] eqn:E; [discriminate|].
    cbn [truthy item0 ret]. cbv beta iota. run_when. now rewrite add_add.
Qed.

Lemma html_bullet_raises bp s :
  blank bp = true -> fst (html_bullet bp s) = Exn IndexError.
Proof.
  unfold blank, html_bullet, bind. intro Hb.
  run_when.
  destruct bp as [|c bp']; [discriminate|].
  simpl in Hb. destruct (strip (c :: bp')); [reflexivity | discriminate].
Qed.

Lemma html_bullet_loop_ok l : forall s,
  existsb blank l = false ->
  for_ l html_bullet s =
  (Val tt, add s (flat_map (fun bp => bullet_out (strip bp)) l)).
Proof.
  induction l as [|bp l IH]; intros s H; simpl.
  - unfold ret. now rewrite add_nil.
  - simpl in H. apply orb_false_iff in H. destruct H as [Hb Hl].
    unfold bind. rewrite (html_bullet_ok _ _ Hb), (IH _ Hl).
    now rewrite add_add.
Qed.

Lemma html_bullet_loop_raises l : forall s,
  existsb blank l = true ->
  fst (for_ l html_bullet s) = Exn IndexError.
Proof.
  induction l as [|bp l IH]; intros s H; simpl in *; [discriminate|].
  unfold bind. destruct (blank bp) eqn:Hb.
  - pose proof (html_bullet_raises bp s Hb) as R.
    destruct (html_bullet bp s) as [[[]|e] s']; simpl in R;
      [discriminate | now inversion R].
  - rewrite (html_bullet_ok _ _ Hb). apply IH. exact H.
Qed.

Lemma html_rest_emits :
  emits (html_lead_in ;; language_rules ;; html_links ;; html_images ;;
         html_cells ;; html_emphasis ;; acronym_rule ;; style_rules ;;
         html_table_links ;; html_titles)
        (fun soup text =>
           lead_in_out soup ++ language_out text ++ links_out soup ++
           images_out soup text ++ cells_out soup ++ emphasis_out soup ++
           acronyms_out text ++ style_out text ++ table_links_out soup ++
           titles_out soup).
Proof.
  repeat (refine (emits_seq (o1 := _) (o2 := _) _ _);
          [first [ exact html_lead_in_emits | exact (language_rules_emits _)
                 | exact html_links_emits | exact html_images_emits
                 | exact html_cells_emits | exact html_emphasis_emits
                 | exact (acronym_rule_emits _) | exact (style_rules_emits _)
                 | exact html_table_links_emits ] | ]).
  exact html_titles_emits.
Qed.

(** [check_html] raises IndexError when some bullet is blank and otherwise
    returns the findings of the sixteen checks in their order. *)
Lemma check_html_eq soup :
  check_html soup =
  if existsb blank (bullet_points soup) then Exn IndexError
  else Val (html_out soup (get_text nl false soup)).
Proof.
  unfold check_html, check_html_body. cbv zeta.
  set (text := get_text nl false soup).
  rewrite html_bullets_unfold. unfold bind at 1 2. unfold get_doc at 1.
  simpl st_doc.
  destruct (existsb blank (bullet_points soup)) eqn:E.
  - pose proof (html_bullet_loop_raises _ (start soup text) E) as R.
    destruct (for_ (bullet_points soup) html_bullet (start soup text))
      as [[[]|e] s']; simpl in R; [discriminate|].
    inversion R. reflexivity.
  - rewrite (html_bullet_loop_ok _ _ E).
    rewrite html_rest_emits. simpl.
    unfold html_out, html_before, html_after.
    now rewrite <- !app_assoc.
Qed.

(** The body of the bullet loop of [check_docx]. *)
Definition docx_bullet (para : paragraph) : M document unit :=
  when (startswith (style_name para) (py "List"))
    (let bp := strip (Docx.text para) in
     when (negb (endswith bp (py "."))) (append (msg_full_stop bp)) ;;
     if truthy bp then
       c <- item0 bp ;;
       when (negb (isupper c)) (append (msg_capital bp))
     else ret tt).

Lemma docx_bullets_unfold :
  docx_bullets = (doc <- get_doc ;; for_ doc docx_bullet).
Proof. reflexivity. Qed.

Lemma docx_bullet_emits para :
  emits (docx_bullet para)
        (fun _ _ => if startswith (style_name para) (py "List")
                    then bullet_out (strip (Docx.text para)) else []).
Proof.
  intro s. unfold docx_bullet.
  destruct (startswith (style_name para) (py "List")); cbn [when].
  - cbv zeta. unfold bind. run_when. unfold bullet_out.
    destruct (strip (Docx.text para)) as [|c r]; cbn [truthy item0 ret];
      cbv beta iota.
    + simpl capital_out. now rewrite app_nil_r.
    + run_when. now rewrite add_add.
  - unfold ret. now rewrite add_nil.
Qed.

Lemma flat_map_filter_map {A B C} (p : A -> bool) (f : A -> B)
    (g : B -> list C) (l : list A) :
  flat_map (fun x => if p x then g (f x) else []) l =
  flat_map g (map f (filter p l)).
Proof.
  induction l as [|x l IH]; simpl; [reflexivity|].
  destruct (p x); simpl; now rewrite IH.
Qed.

Lemma docx_bullets_emits :
  emits docx_bullets (fun doc _ => flat_map bullet_out (list_paragraphs doc)).
Proof.
  rewrite docx_bullets_unfold.
  eapply emits_ext.
  - refine (emits_doc _ _ _). intro d.
    refine (emits_for d docx_bullet _ _). intro para.
    exact (docx_bullet_emits para).
  - intros d t. simpl. unfold list_paragraphs.
    apply (flat_map_filter_map
             (fun para => startswith (style_name para) (py "List"))
             (fun para => strip (Docx.text para)) bullet_out).
Qed.

(** [check_docx] always returns, with the findings of its checks in order. *)
Lemma check_docx_eq doc :
  check_docx doc = Val (docx_out doc (join nl (map Docx.text doc))).
Proof.
  unfold check_docx, check_docx_body. cbv zeta.
  set (text := join nl (map Docx.text doc)).
  assert (E : emits (docx_bullets ;; language_rules ;; docx_emphasis ;;
                     acronym_rule ;; style_rules)
                    (fun d t => flat_map bullet_out (list_paragraphs d) ++
                                language_out t ++ docx_emphasis_out d ++
                                acronyms_out t ++ style_out t)).
  { refine (emits_seq docx_bullets_emits _).
    refine (emits_seq (language_rules_emits _) _).
    refine (emits_seq docx_emphasis_emits _).
    refine (emits_seq (acronym_rule_emits _) (style_rules_emits _)). }
  rewrite E. simpl. unfold docx_out, docx_before.
  now rewrite <- !app_assoc.
Qed.

End Evaluation.

(* ------------------------------------------------------------------ *)
(** * Frame: an evaluation reads the document and the text *)

Section Frame.
Import Re Bs4 Docx Checker Trace.
Context {U : Unicode} {O : SetOrder}.

Ltac frames :=
  repeat first
    [ apply frame_ret | apply frame_append | apply frame_get_doc
    | apply frame_get_text_var | apply frame_item0 | apply frame_raise
    | apply frame_when | apply frame_if
    | apply frame_for; intro
    | apply frame_bind; [ | intro ] ].

Lemma frame_check_html_body : frame check_html_body.
Proof.
  unfold check_html_body, html_bullets, html_lead_in, language_rules,
    html_links, html_images, html_cells, html_emphasis, acronym_rule,
    style_rules, html_table_links, html_titles.
  cbv zeta. frames.
Qed.

Lemma frame_check_docx_body : frame check_docx_body.
Proof.
  unfold check_docx_body, docx_bullets, language_rules, docx_emphasis,
    acronym_rule, style_rules.
  cbv zeta. frames.
Qed.

(** C8. Neither evaluator changes the document or the extracted text:
    whatever the store at the start, and whether the evaluation returns or
    raises, the store at the end has the same document and the same text,
    and its findings are those of the start with new ones appended. *)
Theorem evaluation_is_observational :
  (forall (soup : node) (text : pystr) (fs : list pystr),
      exists out,
        snd (check_html_body
               {| st_doc := soup; st_text := text; st_findings := fs |}) =
        {| st_doc := soup; st_text := text; st_findings := fs ++ out |}) /\
  (forall (doc : document) (text : pystr) (fs : list pystr),
      exists out,
        snd (check_docx_body
               {| st_doc := doc; st_text := text; st_findings := fs |}) =
        {| st_doc := doc; st_text := text; st_findings := fs ++ out |}).
Proof.
  split; intros d text fs.
  - apply (frame_check_html_body
             {| st_doc := d; st_text := text; st_findings := fs |}).
  - apply (frame_check_docx_body
             {| st_doc := d; st_text := text; st_findings := fs |}).
Qed.

End Frame.

(* ------------------------------------------------------------------ *)
(** * Concrete tables and documents *)

(** What the statements about literals of the script rely on: the values of
    the database on ASCII. *)
Record AsciiLaws (U : Unicode) : Prop := {
  isspace_ascii : forall c, (c < 128)%N -> isspace c = Tables.unicode_space c;
  isupper_ascii : forall c, (c < 128)%N -> isupper c = Tables.ascii_upper c
}.

Lemma basic_ascii : AsciiLaws Tables.basic.
Proof. split; intros c _; reflexivity. Qed.

Lemma pystr_eqb_eq (a b : pystr) : PyStr.eqb a b = true <-> a = b.
Proof.
  unfold PyStr.eqb. destruct (list_eq_dec N.eq_dec a b); split; congruence.
Qed.

Lemma pystr_eqb_refl (a : pystr) : PyStr.eqb a a = true.
Proof. now apply pystr_eqb_eq. Qed.

Lemma first_seen_In l x : In x (Tables.first_seen l) <-> In x l.
Proof.
  induction l as [|y l IH]; simpl; [tauto|].
  rewrite filter_In, IH. split.
  - intros [H|[H _]]; auto.
  - intros [H|H]; auto.
    destruct (list_eq_dec N.eq_dec y x) as [E|E]; auto.
    right. split; auto.
    destruct (PyStr.eqb y x) eqn:Q; auto.
    apply pystr_eqb_eq in Q. contradiction.
Qed.

Lemma first_seen_NoDup l : NoDup (Tables.first_seen l).
Proof.
  induction l as [|y l IH]; simpl; constructor.
  - rewrite filter_In, pystr_eqb_refl. intros [_ H]. discriminate.
  - now apply NoDup_filter.
Qed.

(** The distinct elements in the order of their first occurrence. *)
Definition first_order : SetOrder :=
  {| set_iter := Tables.first_seen;
     set_iter_NoDup := first_seen_NoDup;
     set_iter_In := first_seen_In |}.

Lemma rev_first_seen_In l x : In x (rev (Tables.first_seen l)) <-> In x l.
Proof. rewrite <- in_rev. apply first_seen_In. Qed.

Lemma rev_first_seen_NoDup l : NoDup (rev (Tables.first_seen l)).
Proof. apply NoDup_rev, first_seen_NoDup. Qed.

(** The same elements, the other way round. *)
Definition last_order : SetOrder :=
  {| set_iter := fun l => rev (Tables.first_seen l);
     set_iter_NoDup := rev_first_seen_NoDup;
     set_iter_In := rev_first_seen_In |}.

Module Samples.
Import Bs4 Docx.

Definition el (name : string) (contents : list node) : node :=
  Tag (py name) [] contents.
Definition txt (s : string) : node := NavigableString (py s).
Definition page (contents : list node) : node :=
  el "[document]" [el "html" [el "body" contents]].

(** <ul><li>buy milk</li></ul><img src="list.png"><p>please</p> *)
Definition shopping : node :=
  page [el "ul" [el "li" [txt "buy milk"]];
        Tag (py "img") [(py "src", py "list.png")] [];
        el "p" [txt "please"]].

(** The same with a date in front. *)
Definition dated_shopping : node :=
  page [el "p" [txt "Published on 21 September 2025"];
        el "ul" [el "li" [txt "buy milk"]];
        Tag (py "img") [(py "src", py "list.png")] [];
        el "p" [txt "please"]].

(** <ul><li> </li></ul> *)
Definition blank_item : node := page [el "ul" [el "li" [txt " "]]].

End Samples.

(* ------------------------------------------------------------------ *)
(** * Bullets *)

Section Bullets.
Import Re Bs4 Docx Checker Trace.
Context {U : Unicode} {O : SetOrder}.

Lemma lstrip_spaces s : forallb isspace s = true -> lstrip s = [].
Proof.
  induction s as [|c s IH]; simpl; [reflexivity|].
  intro H. apply andb_true_iff in H. destruct H as [Hc Hs].
  rewrite Hc. now apply IH.
Qed.

Lemma strip_spaces s : forallb isspace s = true -> strip s = [].
Proof. intro H. unfold strip. now rewrite (lstrip_spaces _ H). Qed.

(** C5. [check_html] is partial: when some list item has a text that is
    not empty and consists of white space only, the capitalisation check
    takes the first character of the empty stripped text and the evaluation
    ends with IndexError instead of a finding list. *)
Theorem blank_bullet_raises (soup li : node) :
  In li (find_all [py "li"] soup) ->
  get_text [] false li <> [] ->
  forallb isspace (get_text [] false li) = true ->
  check_html soup = Exn IndexError.
Proof.
  intros Hin Hne Hsp. rewrite check_html_eq.
  assert (E : existsb blank (bullet_points soup) = true).
  { apply existsb_exists. exists (get_text [] false li). split.
    - unfold bullet_points. now apply in_map.
    - unfold blank. rewrite (strip_spaces _ Hsp).
      destruct (get_text [] false li); [contradiction | reflexivity]. }
  now rewrite E.
Qed.

End Bullets.

Lemma blank_bullet_raises_witness :
  Checker.check_html (U:=Tables.basic) (O:=first_order) Samples.blank_item
  = Checker.Exn Checker.IndexError.
Proof.
  apply (blank_bullet_raises (U:=Tables.basic) (O:=first_order)
           Samples.blank_item (Samples.el "li" [Samples.txt " "])).
  - vm_compute. left. reflexivity.
  - vm_compute. discriminate.
  - vm_compute. reflexivity.
Defined.

(* ------------------------------------------------------------------ *)
(** * End to end *)

Section EndToEnd.
Import Re Bs4 Docx Checker Trace.
Context {U : Unicode} {O : SetOrder}.
Hypothesis ascii : AsciiLaws U.

Lemma strip_buy_milk : strip (py "buy milk") = py "buy milk".
Proof.
  unfold strip, rstrip.
  assert (B : isspace 98 = false)
    by (rewrite (isspace_ascii _ ascii 98 eq_refl); reflexivity).
  assert (K : isspace 107 = false)
    by (rewrite (isspace_ascii _ ascii 107 eq_refl); reflexivity).
  change (py "buy milk") with (98%N :: py "uy milk").
  cbn [lstrip]. rewrite B.
  change (rev (98%N :: py "uy milk")) with (107%N :: rev (py "buy mil")).
  cbn [lstrip]. rewrite K. reflexivity.
Qed.

Lemma bullet_out_buy_milk :
  bullet_out (py "buy milk") =
  [msg_full_stop (py "buy milk"); msg_capital (py "buy milk")].
Proof.
  unfold bullet_out.
  change (endswith (py "buy milk") (py ".")) with false.
  change (py "buy milk") with (98%N :: py "uy milk") at 2.
  cbn [capital_out].
  rewrite (isupper_ascii _ ascii 98 eq_refl). reflexivity.
Qed.

(** C1, amended. A document with the one list item "buy milk", one
    unordered list without a lead-in, one image without alt text and the
    word "please", in which no other check fires apart from the date check,
    yields the five findings named, followed by the missing-date finding
    when the text has no date: five findings with a date in the text, six
    without. *)
Theorem end_to_end_findings (soup ul img : node) (prev : option pystr) :
  let text := get_text nl false soup in
  bullet_points soup = [py "buy milk"] ->
  uls_with_previous soup = [(ul, prev)] ->
  no_lead_in prev = true ->
  find_all [py "img"] soup = [img] ->
  get img (py "alt") [] = [] ->
  search (word_re (py "please")) text = true ->
  neg_contr_out text = [] -> directional_out text = [] ->
  sentence_out text = [] -> links_out soup = [] -> cells_out soup = [] ->
  emphasis_out soup = [] -> acronyms_out text = [] ->
  hyphen_out text = [] -> slash_out text = [] ->
  table_links_out soup = [] -> titles_out soup = [] ->
  check_html soup =
  Val ([msg_full_stop (py "buy milk"); msg_capital (py "buy milk");
        msg_lead_in; msg_please; msg_no_alt] ++
       (if search date_re text then [] else [msg_no_date])).
Proof.
  intros text Hli Hul Hprev Himg Halt Hpl Hnc Hdir Hsen Hlk Hcell Hem Hacr
    Hhy Hsl Htl Hti.
  rewrite check_html_eq. fold text.
  assert (Hb : existsb blank (bullet_points soup) = false).
  { rewrite Hli. unfold blank. cbn [existsb].
    rewrite strip_buy_milk. reflexivity. }
  rewrite Hb. f_equal.
  unfold html_out, html_before, html_after, language_out, style_out.
  rewrite Hli, Hnc, Hdir, Hsen, Hlk, Hcell, Hem, Hacr, Hhy, Hsl, Htl, Hti.
  unfold lead_in_out, images_out, image_out, please_out, date_out.
  rewrite Hul, Himg, Hpl. cbn [flat_map snd]. rewrite Halt, Hprev.
  rewrite strip_buy_milk, bullet_out_buy_milk.
  cbn [truthy negb andb say app].
  now destruct (search date_re text).
Qed.

End EndToEnd.

Lemma end_to_end_findings_witness :
  Checker.check_html (U:=Tables.basic) (O:=first_order) Samples.dated_shopping =
  Checker.Val
    [Checker.msg_full_stop (py "buy milk"); Checker.msg_capital (py "buy milk");
     Checker.msg_lead_in; Checker.msg_please; Checker.msg_no_alt].
Proof.
  apply (end_to_end_findings (U:=Tables.basic) (O:=first_order) basic_ascii
           Samples.dated_shopping
           (Samples.el "ul" [Samples.el "li" [Samples.txt "buy milk"]])
           (Bs4.Tag (py "img") [(py "src", py "list.png")] [])
           (Some (py "Published on 21 September 2025")));
    vm_compute; reflexivity.
Defined.

(** C1, as stated, fails on the document that has the list, the image and
    the word and nothing else: the date check fires on the absence of a
    date, and the total is six. *)
Lemma end_to_end_total_is_six :
  Checker.check_html (U:=Tables.basic) (O:=first_order) Samples.shopping =
  Checker.Val
    [Checker.msg_full_stop (py "buy milk"); Checker.msg_capital (py "buy milk");
     Checker.msg_lead_in; Checker.msg_please; Checker.msg_no_alt;
     Checker.msg_no_date].
Proof. vm_compute. reflexivity. Qed.

(* ------------------------------------------------------------------ *)
(** * Substrings *)

(** [sub] occurs in [s]. *)
Definition substring (sub s : pystr) : Prop :=
  exists pre post, s = pre ++ sub ++ post.

Lemma startswith_prefix s p :
  startswith s p = true <-> exists post, s = p ++ post.
Proof.
  revert s. induction p as [|a p IH]; intro s; simpl.
  - split; [intros _; now exists s | reflexivity].
  - destruct s as [|b s].
    + split; [discriminate | intros [post H]; discriminate].
    + rewrite andb_true_iff, N.eqb_eq, IH. split.
      * intros [-> [post ->]]. now exists post.
      * intros [post H]. inversion H. eauto.
Qed.

Lemma contains_substring s sub : contains s sub = true <-> substring sub s.
Proof.
  unfold substring. induction s as [|c s IH]; simpl.
  - rewrite orb_false_r, startswith_prefix. split.
    + intros [post H]. now exists [], post.
    + intros [[|x pre] [post H]]; [now exists post | discriminate].
  - rewrite orb_true_iff, IH, startswith_prefix. split.
    + intros [[post H]|[pre [post H]]].
      * now exists [], post.
      * exists (c :: pre), post. simpl. now rewrite H.
    + intros [[|x pre] [post H]].
      * left. now exists post.
      * right. inversion H. now exists pre, post.
Qed.

Lemma contains_false s sub : contains s sub = false <-> ~ substring sub s.
Proof.
  rewrite <- contains_substring. destruct (contains s sub); split; congruence.
Qed.

(* ------------------------------------------------------------------ *)
(** * Images *)

Module ImageSamples.
Import Bs4 Samples.

(** Three images: no alt, an alt text that the page has, one it has not. *)
Definition report : node :=
  page [el "p" [txt "Annual report 2025, published 21 September 2025"];
        Tag (py "img") [(py "src", py "a.png")] [];
        Tag (py "img") [(py "alt", py "Annual report")] [];
        Tag (py "img") [(py "alt", py "Q3 chart")] []].

End ImageSamples.

(* ------------------------------------------------------------------ *)
(** * The command line *)

Section CommandLine.
Import Re Bs4 Docx Checker Trace.
Context {U : Unicode} {O : SetOrder}.

Lemma pystr_eqb_neq (a b : pystr) : a <> b -> PyStr.eqb a b = false.
Proof.
  intro H. destruct (PyStr.eqb a b) eqn:E; [|reflexivity].
  apply pystr_eqb_eq in E. contradiction.
Qed.

(** C10. Called with one path: when the path does not name a file, [main]
    prints the one line "File not found." and nothing else; when it names a
    file whose extension, lower-cased, is none of .htm, .html and .docx,
    [main] prints the one line "Unsupported file type. ..." and nothing else.
    In both cases no loader and no rule has a part in the outcome, and no
    exception is raised. *)
Theorem main_rejects (w : World) (prog file_path : pystr) :
  (isfile w file_path = false ->
   main w [prog; file_path] = ([msg_not_found], None)) /\
  (isfile w file_path = true ->
   lower (snd (splitext file_path)) <> py ".htm" ->
   lower (snd (splitext file_path)) <> py ".html" ->
   lower (snd (splitext file_path)) <> py ".docx" ->
   main w [prog; file_path] = ([msg_unsupported], None)).
Proof.
  unfold main. cbn [length Nat.eqb negb nth]. split.
  - intros ->. reflexivity.
  - intros -> H1 H2 H3. cbn [negb existsb].
    now rewrite (pystr_eqb_neq _ _ H1), (pystr_eqb_neq _ _ H2),
      (pystr_eqb_neq _ _ H3).
Qed.

End CommandLine.

Module Worlds.
Import Checker.

(** A file system with the one file notes.TXT, and loaders that fail. *)
Definition notes_only : World :=
  {| isfile := fun p => PyStr.eqb p (py "notes.TXT");
     load_html := fun _ => None;
     load_docx := fun _ => None |}.

End Worlds.

Lemma main_rejects_witness :
  Checker.main (U:=Tables.basic) (O:=first_order) Worlds.notes_only
    [py "govuk_checker.py"; py "report.html"]
  = ([Checker.msg_not_found], None) /\
  Checker.main (U:=Tables.basic) (O:=first_order) Worlds.notes_only
    [py "govuk_checker.py"; py "notes.TXT"]
  = ([Checker.msg_unsupported], None).
Proof.
  split.
  - apply (main_rejects (U:=Tables.basic) (O:=first_order) Worlds.notes_only
             (py "govuk_checker.py") (py "report.html")).
    vm_compute. reflexivity.
  - apply (main_rejects (U:=Tables.basic) (O:=first_order) Worlds.notes_only
             (py "govuk_checker.py") (py "notes.TXT"));
      vm_compute; [reflexivity | discriminate ..].
Defined.

(* ------------------------------------------------------------------ *)
(** * Telling the findings of one check from the others *)

Section Heads.
Import Re Bs4 Docx Checker Trace.

(** [m] starts with the literal [p]. *)
Definition prefixed (p : string) (m : pystr) : bool := startswith m (py p).

(** No message of [l] starts with [p]. *)
Definition none_prefixed (p : string) (l : list pystr) : Prop :=
  Forall (fun m => prefixed p m = false) l.

Definition pystr_dec : forall a b : pystr, {a = b} + {a <> b} :=
  list_eq_dec N.eq_dec.

Lemma count_occ_foreign p l x :
  none_prefixed p l -> prefixed p x = true -> count_occ pystr_dec l x = 0.
Proof.
  intros Hl Hx. apply count_occ_not_In. intro Hin.
  unfold none_prefixed in Hl. rewrite Forall_forall in Hl.
  specialize (Hl x Hin). congruence.
Qed.

Lemma filter_foreign p l :
  none_prefixed p l -> filter (prefixed p) l = [].
Proof.
  induction 1 as [|m l Hm _ IH]; simpl; [reflexivity|]. now rewrite Hm.
Qed.

Lemma quoted_inj head tail a b : quoted head a tail = quoted head b tail -> a = b.
Proof.
  unfold quoted. intro H. apply app_inv_head in H. now apply app_inv_tail in H.
Qed.

(** One message per element that passes [p], counted. *)
Lemma count_occ_say {A} (f : A -> pystr) (p : A -> bool) (l : list A) x :
  (forall a b, f a = f b -> a = b) -> NoDup l -> In x l ->
  count_occ pystr_dec (flat_map (fun a => say (p a) (f a)) l) (f x) =
  if p x then 1 else 0.
Proof.
  intros inj ND. induction ND as [|a l Ha ND IH]; intro Hin; [destruct Hin|].
  simpl. rewrite count_occ_app.
  destruct Hin as [->|Hin].
  - assert (Z : count_occ pystr_dec (flat_map (fun a => say (p a) (f a)) l)
                  (f x) = 0).
    { apply count_occ_not_In. intro H. apply in_flat_map in H.
      destruct H as [b [Hb Hs]]. destruct (p b); simpl in Hs; [|tauto].
      destruct Hs as [E|[]]. apply inj in E. subst b. contradiction. }
    rewrite Z. destruct (p x); simpl; [|reflexivity].
    destruct (pystr_dec (f x) (f x)); [reflexivity | contradiction].
  - rewrite (IH Hin).
    assert (N : a <> x) by (intros ->; contradiction).
    destruct (p a); simpl; [|reflexivity].
    destruct (pystr_dec (f a) (f x)) as [E|E]; [|reflexivity].
    apply inj in E. contradiction.
Qed.

End Heads.

(** Proves that no message of a block of findings starts with a literal. *)
Ltac foreign :=
  repeat match goal with
  | |- none_prefixed _ _ => unfold none_prefixed
  | |- Forall _ (_ ++ _) => apply Forall_app; split
  | |- Forall _ (flat_map _ _) =>
      apply Forall_flat_map, Forall_forall; intros ? _
  | |- Forall _ (Trace.say ?b _) => destruct b; cbn [Trace.say]
  | |- Forall _ (Trace.capital_out ?bp) =>
      destruct bp; cbn [Trace.capital_out]
  | |- Forall _ [] => constructor
  | |- Forall _ (_ :: _) => constructor
  | |- prefixed _ _ = false => reflexivity
  end.

(** Unfolds the blocks of findings down to their messages. *)
Ltac blocks :=
  unfold Trace.html_before, Trace.html_after, Trace.docx_before,
    Trace.style_out, Trace.language_out, Trace.bullet_out, Trace.lead_in_out,
    Trace.please_out, Trace.neg_contr_out, Trace.directional_out,
    Trace.sentence_out, Trace.links_out, Trace.link_out, Trace.images_out,
    Trace.image_out, Trace.cells_out, Trace.emphasis_out, Trace.acronyms_out,
    Trace.acronym_out, Trace.date_out, Trace.hyphen_out, Trace.slash_out,
    Trace.table_links_out, Trace.titles_out, Trace.docx_emphasis_out.

Section Foreign.
Import Re Bs4 Docx Checker Trace.
Context {U : Unicode} {O : SetOrder}.

Lemma html_before_not_acronym soup text :
  none_prefixed "ACRONYM" (html_before soup text).
Proof. blocks. foreign. Qed.

Lemma html_after_not_acronym soup text :
  none_prefixed "ACRONYM" (html_after soup text).
Proof. blocks. foreign. Qed.

Lemma docx_before_not_acronym doc text :
  none_prefixed "ACRONYM" (docx_before doc text).
Proof. blocks. foreign. Qed.

Lemma style_not_acronym text : none_prefixed "ACRONYM" (style_out text).
Proof. blocks. foreign. Qed.

End Foreign.

(* ------------------------------------------------------------------ *)
(** * Determinism *)

Section Determinism.
Import Re Bs4 Docx Checker Trace.
Context {U : Unicode}.

Lemma set_iter_Permutation (O1 O2 : SetOrder) l :
  Permutation (set_iter (SetOrder:=O1) l) (set_iter (SetOrder:=O2) l).
Proof.
  apply NoDup_Permutation; try apply set_iter_NoDup.
  intro x. now rewrite !set_iter_In.
Qed.

Lemma acronyms_out_Permutation (O1 O2 : SetOrder) text :
  Permutation (acronyms_out (O:=O1) text) (acronyms_out (O:=O2) text).
Proof.
  unfold acronyms_out. apply Permutation_flat_map, set_iter_Permutation.
Qed.

(** C9, amended. The one thing an evaluation takes from outside the
    document is the order in which the set of acronyms is iterated.  Two
    evaluations of a document either both raise, or return lists that are
    the same before and after the ACRONYM findings and have the same ACRONYM
    findings, possibly in another order; with the same iteration order on
    the acronyms of the text, the two lists are equal. The same holds for
    [check_docx], which always returns. *)
Theorem evaluations_agree (O1 O2 : SetOrder) (soup : node) (doc : document) :
  let text := get_text nl false soup in
  let dtext := join nl (map Docx.text doc) in
  ((check_html (O:=O1) soup = Exn IndexError /\
    check_html (O:=O2) soup = Exn IndexError) \/
   (exists before a1 a2 after,
       check_html (O:=O1) soup = Val (before ++ a1 ++ after) /\
       check_html (O:=O2) soup = Val (before ++ a2 ++ after) /\
       a1 = acronyms_out (O:=O1) text /\ a2 = acronyms_out (O:=O2) text /\
       Permutation a1 a2)) /\
  (exists before a1 a2 after,
      check_docx (O:=O1) doc = Val (before ++ a1 ++ after) /\
      check_docx (O:=O2) doc = Val (before ++ a2 ++ after) /\
      a1 = acronyms_out (O:=O1) dtext /\ a2 = acronyms_out (O:=O2) dtext /\
      Permutation a1 a2) /\
  (set_iter (SetOrder:=O1) (findall acronym_re text) =
   set_iter (SetOrder:=O2) (findall acronym_re text) ->
   check_html (O:=O1) soup = check_html (O:=O2) soup) /\
  (set_iter (SetOrder:=O1) (findall acronym_re dtext) =
   set_iter (SetOrder:=O2) (findall acronym_re dtext) ->
   check_docx (O:=O1) doc = check_docx (O:=O2) doc).
Proof.
  intros text dtext. rewrite !check_html_eq, !check_docx_eq.
  fold text dtext. unfold html_out, docx_out. repeat split.
  - destruct (existsb blank (bullet_points soup)); [left; now split | right].
    exists (html_before soup text), (acronyms_out (O:=O1) text),
      (acronyms_out (O:=O2) text), (html_after soup text).
    repeat split. apply acronyms_out_Permutation.
  - exists (docx_before doc dtext), (acronyms_out (O:=O1) dtext),
      (acronyms_out (O:=O2) dtext), (style_out dtext).
    repeat split. apply acronyms_out_Permutation.
  - intro E. unfold acronyms_out. now rewrite E.
  - intro E. unfold acronyms_out. now rewrite E.
Qed.

End Determinism.

Module AcronymSamples.
Import Bs4 Samples.

(** <p>The NHS and the BBC, 21 September 2025</p> *)
Definition two_acronyms : node :=
  page [el "p" [txt "The NHS and the BBC, 21 September 2025"]].

(** <p>The NHS, 21 September 2025</p> *)
Definition one_acronym : node :=
  page [el "p" [txt "The NHS, 21 September 2025"]].

End AcronymSamples.

Lemma evaluations_agree_witness :
  Checker.check_html (U:=Tables.basic) (O:=first_order)
    AcronymSamples.one_acronym =
  Checker.check_html (U:=Tables.basic) (O:=last_order)
    AcronymSamples.one_acronym.
Proof.
  apply (evaluations_agree (U:=Tables.basic) first_order last_order
           AcronymSamples.one_acronym []).
  vm_compute. reflexivity.
Defined.

(** C9, as stated, fails: with two acronyms in the text, the two iteration
    orders of the set of acronyms give two different finding lists. *)
Lemma evaluations_differ :
  Checker.check_html (U:=Tables.basic) (O:=first_order)
    AcronymSamples.two_acronyms =
  Checker.Val [Checker.msg_acronym (py "NHS"); Checker.msg_acronym (py "BBC")] /\
  Checker.check_html (U:=Tables.basic) (O:=last_order)
    AcronymSamples.two_acronyms =
  Checker.Val [Checker.msg_acronym (py "BBC"); Checker.msg_acronym (py "NHS")] /\
  Checker.check_html (U:=Tables.basic) (O:=first_order)
    AcronymSamples.two_acronyms <>
  Checker.check_html (U:=Tables.basic) (O:=last_order)
    AcronymSamples.two_acronyms.
Proof. vm_compute. repeat split. discriminate. Qed.

(* ------------------------------------------------------------------ *)
(** * What the matcher finds *)

Module ReSem.
Import Re.

(** The character before the position reached after reading [m]. *)
Definition last_of (prev : option N) (m : pystr) : option N :=
  match m with
  | [] => prev
  | _ :: _ => Some (last m 0%N)
  end.

Lemma last_of_cons prev c m : last_of prev (c :: m) = last_of (Some c) m.
Proof. destruct m; reflexivity. Qed.

Lemma last_of_app prev m1 m2 :
  last_of prev (m1 ++ m2) = last_of (last_of prev m1) m2.
Proof.
  revert prev. induction m1 as [|c m1 IH]; intro prev; [reflexivity|].
  change ((c :: m1) ++ m2) with (c :: (m1 ++ m2)).
  now rewrite !last_of_cons, IH.
Qed.

Section WithUnicode.
Context {U : Unicode}.

Definition within (hi : option nat) (n : nat) : Prop :=
  match hi with Some h => n <= h | None => True end.

(** [r] matches exactly [m], read after [prev] and before [post]. *)
Fixpoint Matches (r : regex) (prev : option N) (m post : pystr) : Prop :=
  match r with
  | Eps => m = []
  | Lit c => m = [c]
  | LitI c => exists x, m = [x] /\ lit_ignore c x = true
  | Cls s => exists x, m = [x] /\ cset_mem s x = true
  | Rep s lo hi =>
      forallb (cset_mem s) m = true /\ lo <= length m /\ within hi (length m)
  | Cat a b =>
      exists m1 m2, m = m1 ++ m2 /\ Matches a prev m1 (m2 ++ post) /\
                    Matches b (last_of prev m1) m2 post
  | Alt a b => Matches a prev m post \/ Matches b prev m post
  | WordB =>
      m = [] /\ xorb (isword_opt prev) (isword_opt (hd_error post)) = true
  | LookBehind s => m = [] /\ exists p, prev = Some p /\ cset_mem s p = true
  end.

Lemma one_sound ok k rest out :
  one ok k rest = Some out ->
  exists x post, rest = x :: post /\ ok x = true /\ k (Some x) post = Some out.
Proof.
  destruct rest as [|c rest]; simpl; [discriminate|].
  destruct (ok c) eqn:E; [|discriminate]. intro H. now exists c, rest.
Qed.

Lemma one_complete ok (k : cont) x post :
  ok x = true -> k (Some x) post <> None -> one ok k (x :: post) <> None.
Proof. intros E H. simpl. now rewrite E. Qed.

Lemma rep_sound s k rest : forall lo hi prev out,
  rep s lo hi k prev rest = Some out ->
  exists m post, rest = m ++ post /\
    (forallb (cset_mem s) m = true /\ lo <= length m /\ within hi (length m)) /\
    k (last_of prev m) post = Some out.
Proof.
  induction rest as [|c rest IH]; intros lo hi prev out H.
  - simpl in H. destruct (Nat.eqb lo 0) eqn:L; [|discriminate].
    apply Nat.eqb_eq in L. subst lo. exists [], [].
    repeat split; auto. destruct hi; simpl; lia.
  - assert (Fewer : (if Nat.eqb lo 0 then k prev (c :: rest) else None)
                    = Some out ->
                    exists m post, c :: rest = m ++ post /\
                      (forallb (cset_mem s) m = true /\ lo <= length m /\
                       within hi (length m)) /\
                      k (last_of prev m) post = Some out).
    { destruct (Nat.eqb lo 0) eqn:L; [|discriminate].
      apply Nat.eqb_eq in L. subst lo. intro K. exists [], (c :: rest).
      repeat split; auto. destruct hi; simpl; lia. }
    simpl in H. destruct (cset_mem s c) eqn:Mc; [|now apply Fewer].
    assert (More : forall hi', within hi' (length rest) \/ True ->
              (forall n, within hi' n -> within hi (S n)) ->
              rep s (Nat.pred lo) hi' k (Some c) rest = Some out ->
              exists m post, c :: rest = m ++ post /\
                (forallb (cset_mem s) m = true /\ lo <= length m /\
                 within hi (length m)) /\
                k (last_of prev m) post = Some out).
    { intros hi' _ Hhi R. apply IH in R.
      destruct R as [m [post [E [[F [Lo Hi]] K]]]].
      exists (c :: m), post. rewrite last_of_cons. subst rest.
      split; [reflexivity|]. split; [|exact K].
      split; [simpl; now rewrite Mc|].
      split; [simpl; lia | now apply Hhi]. }
    destruct hi as [[|h]|].
    + now apply Fewer.
    + destruct (rep s (Nat.pred lo) (Some h) k (Some c) rest) eqn:R.
      * inversion H; subst. apply (More (Some h)); auto.
        intros n Hn. simpl in *. lia.
      * now apply Fewer.
    + destruct (rep s (Nat.pred lo) None k (Some c) rest) eqn:R.
      * inversion H; subst. apply (More None); auto.
      * now apply Fewer.
Qed.

Lemma rep_complete s (k : cont) m : forall lo hi prev post,
  forallb (cset_mem s) m = true -> lo <= length m -> within hi (length m) ->
  k (last_of prev m) post <> None ->
  rep s lo hi k prev (m ++ post) <> None.
Proof.
  induction m as [|c m IH]; intros lo hi prev post F Lo Hi K.
  - simpl in Lo. assert (lo = 0) by lia. subst lo. simpl in K.
    destruct post as [|c post]; simpl; [exact K|].
    destruct (cset_mem s c); [|exact K].
    destruct hi as [[|h]|]; [exact K | |];
      match goal with |- match ?x with _ => _ end <> None =>
        destruct x; [discriminate | exact K] end.
  - simpl in F. apply andb_true_iff in F. destruct F as [Mc F].
    rewrite last_of_cons in K. simpl in Lo, Hi.
    change ((c :: m) ++ post) with (c :: (m ++ post)). simpl. rewrite Mc.
    destruct hi as [[|h]|].
    + simpl in Hi. lia.
    + assert (R : rep s (Nat.pred lo) (Some h) k (Some c) (m ++ post) <> None).
      { apply IH; auto; simpl in *; lia. }
      destruct (rep s (Nat.pred lo) (Some h) k (Some c) (m ++ post));
        [discriminate | contradiction].
    + assert (R : rep s (Nat.pred lo) None k (Some c) (m ++ post) <> None).
      { apply IH; auto; simpl; lia. }
      destruct (rep s (Nat.pred lo) None k (Some c) (m ++ post));
        [discriminate | contradiction].
Qed.

(** A successful run of the matcher reads a match of the pattern and hands
    the rest to the continuation. *)
Lemma matches_sound r : forall k prev rest out,
  matches r k prev rest = Some out ->
  exists m post, rest = m ++ post /\ Matches r prev m post /\
                 k (last_of prev m) post = Some out.
Proof.
  induction r as [|c|c|s|s lo hi|a IHa b IHb|a IHa b IHb| |s];
    intros k prev rest out H; simpl in H.
  - exists [], rest. now repeat split.
  - apply one_sound in H. destruct H as [x [post [-> [E K]]]].
    apply N.eqb_eq in E. subst x. exists [c], post. now repeat split.
  - apply one_sound in H. destruct H as [x [post [-> [E K]]]].
    exists [x], post. repeat split; auto. now exists x.
  - apply one_sound in H. destruct H as [x [post [-> [E K]]]].
    exists [x], post. repeat split; auto. now exists x.
  - apply rep_sound in H. destruct H as [m [post [E [R K]]]].
    now exists m, post.
  - apply IHa in H. destruct H as [m1 [rest1 [-> [Ma K]]]].
    apply IHb in K. destruct K as [m2 [post [-> [Mb K]]]].
    exists (m1 ++ m2), post. rewrite last_of_app, app_assoc.
    repeat split; auto. now exists m1, m2.
  - destruct (matches a k prev rest) eqn:A.
    + inversion H; subst. apply IHa in A.
      destruct A as [m [post [E [Ma K]]]]. exists m, post. simpl. auto.
    + apply IHb in H. destruct H as [m [post [E [Mb K]]]].
      exists m, post. simpl. auto.
  - destruct (xorb (isword_opt prev) (isword_opt (hd_error rest))) eqn:X;
      [|discriminate].
    exists [], rest. now repeat split.
  - destruct prev as [p|]; [|discriminate].
    destruct (cset_mem s p) eqn:E; [|discriminate].
    exists [], rest. repeat split; auto. now exists p.
Qed.

(** Whenever the pattern has a match that the continuation accepts, the
    matcher succeeds. *)
Lemma matches_complete r : forall (k : cont) prev m post,
  Matches r prev m post -> k (last_of prev m) post <> None ->
  matches r k prev (m ++ post) <> None.
Proof.
  induction r as [|c|c|s|s lo hi|a IHa b IHb|a IHa b IHb| |s];
    intros k prev m post M K; simpl in M.
  - subst m. exact K.
  - subst m. simpl. now rewrite N.eqb_refl.
  - destruct M as [x [-> E]]. simpl. now rewrite E.
  - destruct M as [x [-> E]]. simpl. now rewrite E.
  - destruct M as [F [Lo Hi]]. now apply rep_complete.
  - destruct M as [m1 [m2 [-> [Ma Mb]]]]. simpl. rewrite <- app_assoc.
    apply IHa; [exact Ma|]. apply IHb; [exact Mb|].
    now rewrite <- last_of_app.
  - simpl. destruct M as [Ma|Mb].
    + specialize (IHa k prev m post Ma K).
      destruct (matches a k prev (m ++ post)); [discriminate | contradiction].
    + destruct (matches a k prev (m ++ post)); [discriminate|].
      now apply IHb.
  - destruct M as [-> X]. simpl in *. now rewrite X.
  - destruct M as [-> [p [-> E]]]. simpl in *. now rewrite E.
Qed.

Lemma firstn_match (m post : pystr) :
  firstn (length (m ++ post) - length post) (m ++ post) = m.
Proof.
  rewrite length_app, Nat.add_sub.
  rewrite firstn_app, Nat.sub_diag, firstn_all. simpl. apply app_nil_r.
Qed.

Lemma match_here_sound r prev rest m :
  match_here r prev rest = Some m ->
  exists post, rest = m ++ post /\ Matches r prev m post.
Proof.
  unfold match_here. destruct (matches r stop prev rest) as [post'|] eqn:E;
    [|discriminate].
  intro H. inversion H as [Hm]. clear H.
  apply matches_sound in E. destruct E as [m' [post [-> [M K]]]].
  unfold stop in K. inversion K; subst post'.
  rewrite firstn_match. now exists post.
Qed.

Lemma match_here_complete r prev m post :
  Matches r prev m post -> match_here r prev (m ++ post) <> None.
Proof.
  intro M. unfold match_here.
  assert (H : matches r stop prev (m ++ post) <> None)
    by (apply matches_complete; [exact M | discriminate]).
  destruct (matches r stop prev (m ++ post)); [discriminate | contradiction].
Qed.

(** A match of [r] starts right here. *)
Definition hit (r : regex) (prev : option N) (rest : pystr) : bool :=
  match match_here r prev rest with Some _ => true | None => false end.

Lemma hit_iff r prev rest :
  hit r prev rest = true <->
  exists m post, rest = m ++ post /\ Matches r prev m post.
Proof.
  unfold hit. split.
  - destruct (match_here r prev rest) as [m|] eqn:E; [|discriminate].
    intros _. apply match_here_sound in E. destruct E as [post [E M]].
    now exists m, post.
  - intros [m [post [-> M]]]. apply match_here_complete in M.
    destruct (match_here r prev (m ++ post)); [reflexivity | contradiction].
Qed.

Lemma search_from_iff r rest : forall prev,
  search_from r prev rest <> None <->
  exists pre m post, rest = pre ++ m ++ post /\
                     Matches r (last_of prev pre) m post.
Proof.
  induction rest as [|c rest IH]; intro prev; simpl.
  - destruct (match_here r prev []) as [m|] eqn:E.
    + split; [intros _ | discriminate].
      apply match_here_sound in E. destruct E as [post [E M]].
      now exists [], m, post.
    + split; [congruence|]. intros [pre [m [post [E' M]]]].
      destruct pre; [|discriminate]. simpl in E', M. rewrite E' in E.
      apply match_here_complete in M. congruence.
  - destruct (match_here r prev (c :: rest)) as [m|] eqn:E.
    + split; [intros _ | discriminate].
      apply match_here_sound in E. destruct E as [post [E M]].
      now exists [], m, post.
    + rewrite IH. split.
      * intros [pre [m [post [-> M]]]]. exists (c :: pre), m, post.
        rewrite last_of_cons. now split.
      * intros [[|x pre] [m [post [E' M]]]].
        -- simpl in E', M. rewrite E' in E.
           apply match_here_complete in M. congruence.
        -- inversion E'; subst. rewrite last_of_cons in M.
           now exists pre, m, post.
Qed.

(** [re.search] succeeds exactly when the text has a match somewhere. *)
Lemma search_iff r text :
  search r text = true <->
  exists pre m post, text = pre ++ m ++ post /\
                     Matches r (last_of None pre) m post.
Proof.
  unfold search. rewrite <- search_from_iff.
  destruct (search_from r None text); split; congruence.
Qed.

(** Every element of [findall] is a match of the pattern inside the text. *)
Lemma findall_from_within r m rest : forall skip prev,
  In m (findall_from r skip prev rest) ->
  exists prev' pre post, rest = pre ++ m ++ post /\ Matches r prev' m post.
Proof.
  induction rest as [|c rest IH]; intros skip prev H.
  - destruct skip as [|n]; simpl in H; [|destruct H].
    destruct (match_here r prev []) as [m0|] eqn:E; [|destruct H].
    destruct H as [->|[]]. apply match_here_sound in E.
    destruct E as [post [E M]]. now exists prev, [], post.
  - assert (Later : forall n p, In m (findall_from r n p rest) ->
              exists prev' pre post,
                c :: rest = pre ++ m ++ post /\ Matches r prev' m post).
    { intros n p H'. apply (IH n p) in H'.
      destruct H' as [prev' [pre [post [-> M]]]].
      now exists prev', (c :: pre), post. }
    destruct skip as [|n]; simpl in H; [|now apply Later in H].
    destruct (match_here r prev (c :: rest)) as [m0|] eqn:E.
    + destruct H as [->|H]; [|now apply Later in H].
      apply match_here_sound in E. destruct E as [post [E M]].
      now exists prev, [], post.
    + now apply Later in H.
Qed.

(** ** Words of a list, case-insensitively, between word boundaries *)

(** [m] is [w] up to the case folding of IGNORECASE. *)
Definition spells (w m : pystr) : Prop :=
  Forall2 (fun c x => lit_ignore c x = true) w m.

(** There is a word boundary between [prev] and the start of [rest]. *)
Definition boundary (prev : option N) (rest : pystr) : Prop :=
  xorb (isword_opt prev) (isword_opt (hd_error rest)) = true.

(** [m], read after [prev] and before [post], is one of the words [ws],
    standing between word boundaries. *)
Definition word_of (ws : list pystr) (prev : option N) (m post : pystr)
    : Prop :=
  boundary prev (m ++ post) /\ (exists w, In w ws /\ spells w m) /\
  boundary (last_of prev m) post.

(** The text has one of the words [ws] somewhere. *)
Definition has_word (ws : list pystr) (text : pystr) : Prop :=
  exists pre m post,
    text = pre ++ m ++ post /\ word_of ws (last_of None pre) m post.

Lemma Matches_litsI w : forall prev m post,
  Matches (litsI w) prev m post <-> spells w m.
Proof.
  unfold spells. induction w as [|c w IH]; intros prev m post; simpl.
  - split; [intros ->; constructor | inversion 1; reflexivity].
  - split.
    + intros [m1 [m2 [-> [[x [-> E]] M]]]]. constructor; [exact E|].
      now apply IH in M.
    + inversion 1 as [|c' x w' m' E F]; subst.
      exists [x], m'. repeat split; [now exists x|]. now apply IH.
Qed.

Lemma Matches_alts l prev m post :
  Matches (alts l) prev m post <-> exists r, In r l /\ Matches r prev m post.
Proof.
  induction l as [|r l IH].
  - simpl. split; [intros [x [_ E]]; discriminate | intros [r [[] _]]].
  - destruct l as [|r' l].
    + simpl. split; [intro M; exists r; auto | intros [r0 [[->|[]] M]]; exact M].
    + change (alts (r :: r' :: l)) with (Alt r (alts (r' :: l))).
      cbn [Matches]. rewrite IH. split.
      * intros [M|[r0 [I M]]]; [exists r | exists r0]; simpl; auto.
      * intros [r0 [[->|I] M]]; [left; exact M | right; exists r0; auto].
Qed.

Lemma Matches_seq3 a b c prev m post :
  Matches (Checker.seq [a; b; c]) prev m post <->
  exists m1 m2 m3, m = m1 ++ m2 ++ m3 /\
    Matches a prev m1 (m2 ++ m3 ++ post) /\
    Matches b (last_of prev m1) m2 (m3 ++ post) /\
    Matches c (last_of (last_of prev m1) m2) m3 post.
Proof.
  unfold Checker.seq. cbn [fold_right Matches]. split.
  - intros [m1 [r1 [-> [Ma [m2 [r2 [-> [Mb [m3 [e [-> [Mc ->]]]]]]]]]]]].
    rewrite app_nil_r in *. rewrite <- app_assoc in Ma.
    now exists m1, m2, m3.
  - intros [m1 [m2 [m3 [-> [Ma [Mb Mc]]]]]].
    exists m1, (m2 ++ m3). rewrite <- app_assoc. repeat split; auto.
    exists m2, m3. repeat split; auto.
    exists m3, []. rewrite app_nil_r. now repeat split.
Qed.

(** The pattern [\b(?:w1|w2|...)\b] under IGNORECASE matches the words of
    the list. *)
Lemma Matches_words ws prev m post :
  Matches (Checker.seq [WordB; alts (map litsI ws); WordB]) prev m post <->
  word_of ws prev m post.
Proof.
  rewrite Matches_seq3. unfold word_of, boundary. split.
  - intros [m1 [m2 [m3 [-> [[-> B1] [Ma [-> B2]]]]]]].
    simpl in *. rewrite app_nil_r in *. repeat split; auto.
    apply Matches_alts in Ma. destruct Ma as [r [I M]].
    apply in_map_iff in I. destruct I as [w [<- I]].
    apply Matches_litsI in M. now exists w.
  - intros [B1 [[w [I S]] B2]]. exists [], m, []. simpl.
    rewrite app_nil_r. repeat split; auto.
    apply Matches_alts. exists (litsI w). split; [now apply in_map|].
    now apply Matches_litsI.
Qed.

Lemma search_words ws text :
  search (Checker.seq [WordB; alts (map litsI ws); WordB]) text = true <->
  has_word ws text.
Proof.
  rewrite search_iff. unfold has_word.
  split; intros [pre [m [post [E M]]]]; exists pre, m, post;
    (split; [exact E|]); now apply Matches_words.
Qed.

End WithUnicode.

End ReSem.

(* ------------------------------------------------------------------ *)
(** * Hyphens *)

Section Hyphens.
Import Re Bs4 Docx Checker Trace ReSem.
Context {U : Unicode} {O : SetOrder}.

(** The text has a hyphen with a white-space character on either side. *)
Definition spaced_hyphen (text : pystr) : Prop :=
  exists pre a b post,
    text = pre ++ a :: 45%N :: b :: post /\
    isspace a = true /\ isspace b = true.

Lemma search_hyphen text :
  search hyphen_re text = true <-> spaced_hyphen text.
Proof.
  rewrite search_iff. unfold spaced_hyphen, hyphen_re. split.
  - intros [pre [m [post [-> M]]]]. apply Matches_seq3 in M.
    destruct M as [m1 [m2 [m3 [-> [[a [-> Ha]] [-> [b [-> Hb]]]]]]]].
    exists pre, a, b, post. simpl in *. auto.
  - intros [pre [a [b [post [-> [Ha Hb]]]]]].
    exists pre, [a; 45%N; b], post. split; [reflexivity|].
    apply Matches_seq3. exists [a], [45%N], [b].
    repeat split; simpl; eauto.
Qed.

Lemma html_hyphen_split soup text :
  exists before after,
    html_out soup text = before ++ hyphen_out text ++ after /\
    none_prefixed "STYLE: H" before /\ none_prefixed "STYLE: H" after.
Proof.
  exists (html_before soup text ++ acronyms_out text ++ date_out text),
    (slash_out text ++ table_links_out soup ++ titles_out soup).
  split; [|split].
  - unfold html_out, html_after, style_out. now rewrite <- !app_assoc.
  - blocks. foreign.
  - blocks. foreign.
Qed.

Lemma docx_hyphen_split doc text :
  exists before after,
    docx_out doc text = before ++ hyphen_out text ++ after /\
    none_prefixed "STYLE: H" before /\ none_prefixed "STYLE: H" after.
Proof.
  exists (docx_before doc text ++ acronyms_out text ++ date_out text),
    (slash_out text).
  split; [|split].
  - unfold docx_out, style_out. now rewrite <- !app_assoc.
  - blocks. foreign.
  - blocks. foreign.
Qed.

Lemma count_hyphen before after text :
  none_prefixed "STYLE: H" before -> none_prefixed "STYLE: H" after ->
  count_occ pystr_dec (before ++ hyphen_out text ++ after) msg_hyphen =
  if search hyphen_re text then 1 else 0.
Proof.
  intros B A. rewrite !count_occ_app.
  rewrite (count_occ_foreign "STYLE: H" before msg_hyphen B eq_refl).
  rewrite (count_occ_foreign "STYLE: H" after msg_hyphen A eq_refl).
  unfold hyphen_out. destruct (search hyphen_re text); simpl; [|reflexivity].
  destruct (pystr_dec msg_hyphen msg_hyphen); [reflexivity | contradiction].
Qed.

(** C4, amended. The hyphen finding is reported once if the extracted text
    has a hyphen with a white-space character of any kind (a space, a tab,
    a line break, ...) on either side, and not at all otherwise. *)
Theorem hyphen_finding :
  (forall soup fs,
      check_html soup = Val fs ->
      (spaced_hyphen (get_text nl false soup) ->
       count_occ pystr_dec fs msg_hyphen = 1) /\
      (~ spaced_hyphen (get_text nl false soup) ->
       count_occ pystr_dec fs msg_hyphen = 0)) /\
  (forall doc fs,
      check_docx doc = Val fs ->
      (spaced_hyphen (join nl (map Docx.text doc)) ->
       count_occ pystr_dec fs msg_hyphen = 1) /\
      (~ spaced_hyphen (join nl (map Docx.text doc)) ->
       count_occ pystr_dec fs msg_hyphen = 0)).
Proof.
  split.
  - intros soup fs H. rewrite check_html_eq in H.
    destruct (existsb blank (bullet_points soup)); [discriminate|].
    inversion H as [E]. clear H E.
    destruct (html_hyphen_split soup (get_text nl false soup))
      as [before [after [-> [B A]]]].
    rewrite (count_hyphen _ _ _ B A), <- search_hyphen.
    destruct (search hyphen_re (get_text nl false soup)); split; congruence.
  - intros doc fs H. rewrite check_docx_eq in H.
    inversion H as [E]. clear H E.
    destruct (docx_hyphen_split doc (join nl (map Docx.text doc)))
      as [before [after [-> [B A]]]].
    rewrite (count_hyphen _ _ _ B A), <- search_hyphen.
    destruct (search hyphen_re (join nl (map Docx.text doc)));
      split; congruence.
Qed.

End Hyphens.

Module HyphenSamples.
Import Bs4 Samples.

(** <p>Opening hours, 21 September 2025</p><p>-</p><p>9 to 5</p> *)
Definition hours : node :=
  page [el "p" [txt "Opening hours, 21 September 2025"];
        el "p" [txt "-"];
        el "p" [txt "9 to 5"]].

End HyphenSamples.

Lemma hyphen_finding_witness :
  count_occ pystr_dec [Checker.msg_hyphen] Checker.msg_hyphen = 1.
Proof.
  refine (proj1 (proj1 (hyphen_finding (U:=Tables.basic) (O:=first_order))
                   HyphenSamples.hours [Checker.msg_hyphen] _) _).
  - vm_compute. reflexivity.
  - exists (py "Opening hours, 21 September 2025"), 10%N, 10%N, (py "9 to 5").
    repeat split.
Defined.

(** C4, as stated, fails: the text of this page has no " - " and the hyphen
    finding is reported, the hyphen standing between two line breaks. *)
Lemma hyphen_between_line_breaks :
  contains (Bs4.get_text (U:=Tables.basic) nl false HyphenSamples.hours)
           (py " - ") = false /\
  Checker.check_html (U:=Tables.basic) (O:=first_order) HyphenSamples.hours =
  Checker.Val [Checker.msg_hyphen].
Proof. vm_compute. split; reflexivity. Qed.

(* ------------------------------------------------------------------ *)
(** * Links *)

Section Words.
Context {U : Unicode}.

Definition spaces (s : pystr) : Prop := forallb isspace s = true.
Definition solid (s : pystr) : Prop :=
  forallb (fun c => negb (isspace c)) s = true.

(** The text is one run of characters that are not white space, with white
    space at most around it. *)
Definition one_word (t : pystr) : Prop :=
  exists a w b, t = a ++ w ++ b /\ spaces a /\ spaces b /\ w <> [] /\ solid w.

Lemma split_from_solid w : forall cur rest,
  solid w ->
  PyStr.split_from cur (w ++ rest) = PyStr.split_from (rev w ++ cur) rest.
Proof.
  unfold solid. induction w as [|c w IH]; intros cur rest H; [reflexivity|].
  simpl in H. apply andb_true_iff in H. destruct H as [Hc Hw].
  apply negb_true_iff in Hc. simpl. rewrite Hc, (IH _ _ Hw).
  now rewrite <- app_assoc.
Qed.

Lemma split_from_spaces a : forall rest,
  spaces a -> PyStr.split_from [] (a ++ rest) = PyStr.split_from [] rest.
Proof.
  unfold spaces. induction a as [|c a IH]; intros rest H; [reflexivity|].
  simpl in H. apply andb_true_iff in H. destruct H as [Hc Ha].
  simpl. rewrite Hc. simpl. now apply IH.
Qed.

Lemma split_from_nil s : forall cur,
  PyStr.split_from cur s = [] -> cur = [] /\ spaces s.
Proof.
  unfold spaces. induction s as [|c s IH]; intros cur H; simpl in *.
  - destruct cur; [auto | discriminate].
  - destruct (isspace c) eqn:E.
    + apply app_eq_nil in H. destruct H as [F S].
      destruct cur; [|discriminate]. split; [reflexivity|].
      now apply IH in S.
    + apply IH in H. destruct H as [H _]. discriminate.
Qed.

Lemma split_from_single s : forall cur x,
  PyStr.split_from cur s = [x] ->
  match cur with
  | [] => exists a w b, s = a ++ w ++ b /\ spaces a /\ spaces b /\
                        w <> [] /\ solid w /\ x = w
  | _ :: _ => exists w b, s = w ++ b /\ spaces b /\ solid w /\
                          x = rev cur ++ w
  end.
Proof.
  induction s as [|c s IH]; intros cur x H; simpl in H.
  - destruct cur as [|d cur]; [discriminate|]. simpl in H.
    inversion H. exists [], []. repeat split. now rewrite app_nil_r.

  - destruct (isspace c) eqn:E.
    + destruct cur as [|d cur]; simpl in H.
      * apply (IH []) in H. destruct H as [a [w [b [-> [A [B [Hne [S X]]]]]]]].
        exists (c :: a), w, b. repeat split; auto.
        unfold spaces. simpl. now rewrite E.
      * inversion H as [[X S]]. apply split_from_nil in S.
        destruct S as [_ S]. exists [], (c :: s).
        rewrite app_nil_r. repeat split; auto.
        unfold spaces. simpl. now rewrite E.
    + apply (IH (c :: cur)) in H. destruct H as [w [b [-> [B [S X]]]]].
      assert (S' : solid (c :: w)) by (unfold solid; simpl; now rewrite E).
      destruct cur as [|d cur].
      * exists [], (c :: w), b. repeat split; auto; discriminate.
      * exists (c :: w), b. repeat split; auto.
        rewrite X. simpl. now rewrite <- !app_assoc.
Qed.

(** [len(t.split()) == 1] says that [t] is one word. *)
Lemma one_word_iff t : length (PyStr.split t) = 1 <-> one_word t.
Proof.
  unfold PyStr.split, one_word. split.
  - intro H. destruct (PyStr.split_from [] t) as [|x [|y l]] eqn:E;
      try discriminate.
    apply split_from_single in E.
    destruct E as [a [w [b [-> [A [B [Hne [S _]]]]]]]]. now exists a, w, b.
  - intros [a [w [b [-> [A [B [Hne S]]]]]]].
    rewrite (split_from_spaces _ _ A), (split_from_solid _ _ _ S).
    rewrite app_nil_r.
    assert (F : flush (rev w) = [w]).
    { destruct (rev w) eqn:R.
      - apply (f_equal (@rev N)) in R. rewrite rev_involutive in R.
        simpl in R. contradiction.
      - unfold flush. now rewrite <- R, rev_involutive. }
    destruct b as [|c b]; simpl; [now rewrite F|].
    unfold spaces in B. simpl in B. apply andb_true_iff in B.
    destruct B as [Bc Bb]. rewrite Bc, F.
    change b with ([] ++ b) at 1.
    pose proof (split_from_spaces b [] Bb) as Z.
    rewrite app_nil_r in Z. simpl. now rewrite Z.
Qed.

End Words.

Section Links.
Import Re Bs4 Docx Checker Trace ReSem.
Context {U : Unicode} {O : SetOrder}.

Lemma search_active t : search active_re t = true <-> has_word active_verbs t.
Proof. apply search_words. Qed.

Lemma link_out_cases a :
  let link_text := strip (get_text [] false a) in
  (one_word link_text /\ has_word active_verbs link_text /\
   link_out a = [msg_one_word link_text]) \/
  (one_word link_text /\ ~ has_word active_verbs link_text /\
   link_out a = [msg_one_word link_text; msg_not_active link_text]) \/
  (~ one_word link_text /\ has_word active_verbs link_text /\
   link_out a = []) \/
  (~ one_word link_text /\ ~ has_word active_verbs link_text /\
   link_out a = [msg_not_active link_text]).
Proof.
  intro link_text. unfold link_out. fold link_text.
  rewrite <- one_word_iff, <- search_active.
  destruct (Nat.eqb_spec (length (PyStr.split link_text)) 1) as [L|L];
    destruct (search active_re link_text); simpl.
  - left. repeat split; auto.
  - right. left. repeat split; auto; congruence.
  - right. right. left. repeat split; auto.
  - right. right. right. repeat split; auto; congruence.
Qed.

End Links.

Module LinkSamples.
Import Bs4 Samples.

Definition click : node := el "a" [txt "Click"].
Definition more : node := el "a" [txt "more information here"].
Definition read : node := el "a" [txt "Read the report"].

(** <p>21 September 2025</p> and the three anchors. *)
Definition links : node :=
  page [el "p" [txt "21 September 2025"]; click; more; read].

End LinkSamples.

(** The three anchors of the specification: "Click" has both findings,
    "more information here" the descriptiveness finding, "Read the report"
    none. *)
Lemma link_examples :
  Trace.link_out (U:=Tables.basic) LinkSamples.click =
    [Checker.msg_one_word (py "Click"); Checker.msg_not_active (py "Click")] /\
  Trace.link_out (U:=Tables.basic) LinkSamples.more =
    [Checker.msg_not_active (py "more information here")] /\
  Trace.link_out (U:=Tables.basic) LinkSamples.read = [] /\
  Checker.check_html (U:=Tables.basic) (O:=first_order) LinkSamples.links =
  Checker.Val
    [Checker.msg_one_word (py "Click"); Checker.msg_not_active (py "Click");
     Checker.msg_not_active (py "more information here")].
Proof. vm_compute. repeat split. Qed.

(* ------------------------------------------------------------------ *)
(** * Acronyms *)

Section Acronyms.
Import Re Bs4 Docx Checker Trace ReSem.
Context {U : Unicode} {O : SetOrder}.

(** The text has [tok] at a word boundary, followed by a space, an opening
    parenthesis, at least one character other than a closing parenthesis,
    and a closing parenthesis. *)
Definition expanded (tok text : pystr) : Prop :=
  exists pre body post,
    text = pre ++ tok ++ 32%N :: 40%N :: body ++ 41%N :: post /\
    boundary (last_of None pre) (tok ++ 32%N :: 40%N :: body ++ 41%N :: post) /\
    body <> [] /\ ~ In 41%N body.

(** An acronym: two or more of the letters A to Z. *)
Definition upper_token (tok : pystr) : Prop :=
  2 <= length tok /\ Forall (fun c => (65 <= c <= 90)%N) tok.

Lemma Matches_lits w : forall prev m post,
  Matches (lits w) prev m post <-> m = w.
Proof.
  induction w as [|c w IH]; intros prev m post; simpl; [tauto|]. split.
  - intros [m1 [m2 [-> [-> M]]]]. apply IH in M. now subst.
  - intros ->. exists [c], w. repeat split. now apply IH.
Qed.

Lemma not_closing body :
  forallb (cset_mem (CNot (COneOf [41%N]))) body = true <-> ~ In 41%N body.
Proof.
  induction body as [|c body IH]; simpl; [tauto|].
  rewrite andb_true_iff, IH, orb_false_r, negb_true_iff, N.eqb_neq.
  intuition congruence.
Qed.

Lemma Matches_expansion tok prev m post :
  Matches (expansion_re tok) prev m post <->
  boundary prev (m ++ post) /\
  exists body, m = tok ++ 32%N :: 40%N :: body ++ [41%N] /\
               body <> [] /\ ~ In 41%N body.
Proof.
  unfold expansion_re, Checker.seq, boundary. cbn [fold_right Matches]. split.
  - intro M.
    repeat match goal with
           | H : exists _, _ |- _ => destruct H
           | H : _ /\ _ |- _ => destruct H
           end.
    match goal with H : Matches (lits tok) _ _ _ |- _ =>
      apply Matches_lits in H end.
    subst. simpl in *.
    split; [assumption|].
    match goal with H : forallb _ ?b = true |- _ => exists b end.
    split; [reflexivity|]. split.
    + match goal with H : 1 <= length ?b |- ?b <> [] =>
        destruct b; [simpl in H; lia | discriminate] end.
    + apply not_closing. assumption.
  - intros [B [body [-> [Ne Nc]]]].
    exists [], (tok ++ 32%N :: 40%N :: body ++ [41%N]).
    split; [reflexivity|]. split; [now split|].
    exists tok, (32%N :: 40%N :: body ++ [41%N]).
    split; [reflexivity|]. split; [now apply Matches_lits|].
    exists [32%N], (40%N :: body ++ [41%N]). repeat split.
    exists [40%N], (body ++ [41%N]). repeat split.
    exists body, [41%N]. repeat split.
    + now apply not_closing.
    + destruct body; [contradiction | simpl; lia].
    + exists [41%N], []. now repeat split.
Qed.

Lemma search_expansion tok text :
  search (expansion_re tok) text = true <-> expanded tok text.
Proof.
  rewrite search_iff. unfold expanded. split.
  - intros [pre [m [post [-> M]]]]. apply Matches_expansion in M.
    destruct M as [B [body [-> [Ne Nc]]]].
    exists pre, body, post. rewrite <- !app_assoc in *. simpl in *.
    rewrite <- !app_assoc in *. now repeat split.
  - intros [pre [body [post [-> [B [Ne Nc]]]]]].
    exists pre, (tok ++ 32%N :: 40%N :: body ++ [41%N]), post.
    split; [rewrite <- !app_assoc; simpl; now rewrite <- !app_assoc|].
    apply Matches_expansion. split.
    + rewrite <- !app_assoc. simpl. now rewrite <- !app_assoc.
    + now exists body.
Qed.

Lemma acronym_tokens text tok :
  In tok (findall acronym_re text) -> upper_token tok.
Proof.
  intro H. apply findall_from_within in H.
  destruct H as [prev [pre [post [_ M]]]].
  apply Matches_seq3 in M.
  destruct M as [m1 [m2 [m3 [-> [[-> _] [[F [L _]] [-> _]]]]]]].
  simpl. rewrite app_nil_r. split; [exact L|].
  apply Forall_forall. intros c Hc.
  rewrite forallb_forall in F. specialize (F c Hc). simpl in F.
  apply andb_true_iff in F. destruct F as [F1 F2].
  apply N.leb_le in F1, F2. now split.
Qed.

Lemma msg_acronym_inj a b : msg_acronym a = msg_acronym b -> a = b.
Proof. apply quoted_inj. Qed.

Lemma count_acronym before after text tok :
  none_prefixed "ACRONYM" before -> none_prefixed "ACRONYM" after ->
  In tok (findall acronym_re text) ->
  count_occ pystr_dec (before ++ acronyms_out text ++ after) (msg_acronym tok)
  = if search (expansion_re tok) text then 0 else 1.
Proof.
  intros B A H. rewrite !count_occ_app.
  rewrite (count_occ_foreign "ACRONYM" before (msg_acronym tok) B eq_refl).
  rewrite (count_occ_foreign "ACRONYM" after (msg_acronym tok) A eq_refl).
  unfold acronyms_out, acronym_out.
  rewrite (count_occ_say msg_acronym
             (fun a => negb (search (expansion_re a) text))
             (set_iter (findall acronym_re text)) tok msg_acronym_inj
             (set_iter_NoDup _)).
  - destruct (search (expansion_re tok) text); reflexivity.
  - now apply set_iter_In.
Qed.


End Acronyms.

Module ExpansionSamples.
Import Bs4 Samples.

(** <p>The NHS (National Health Service) and the BBC, 21 September 2025</p> *)
Definition spelled_out : node :=
  page [el "p" [txt "The NHS (National Health Service) and the BBC, 21 September 2025"]].

(** <p>The NHS (National Health Service, 21 September 2025</p> *)
Definition unclosed : node :=
  page [el "p" [txt "The NHS (National Health Service, 21 September 2025"]].

End ExpansionSamples.



(* ------------------------------------------------------------------ *)
(** * Negative contractions *)

(** What the count of contractions relies on: a character that IGNORECASE
    makes equal to one of the letters a to z is a word character, and the
    apostrophe U+2019 is neither cased nor a word character. *)
Record CaseLaws (U : Unicode) : Prop := {
  letters_are_words : forall c x,
    Tables.ascii_lower c = true -> Re.lit_ignore c x = true ->
    Re.isword x = true;
  rsquo_uncased : iscased rsquo = false;
  rsquo_not_word : Re.isword rsquo = false
}.

Lemma basic_case : CaseLaws Tables.basic.
Proof.
  split; [|reflexivity|reflexivity].
  intros c x Hc H. unfold Re.lit_ignore, Re.isword in *. simpl in *.
  rewrite Hc, orb_true_r in H. simpl in H.
  unfold Tables.ascii_lower, Tables.ascii_upper, Tables.ascii_digit,
    Tables.dotless_i_or_long_s, Tables.between in *.
  apply andb_true_iff in Hc. destruct Hc as [C1 C2].
  apply N.leb_le in C1, C2.
  assert (Cu : (65 <=? c)%N && (c <=? 90)%N = false).
  { apply andb_false_iff. right. apply N.leb_gt. lia. }
  rewrite Cu in H.
  destruct ((65 <=? x)%N && (x <=? 90)%N) eqn:Xu; [reflexivity|].
  apply orb_true_iff in H. destruct H as [H|H].
  - apply N.eqb_eq in H. subst x.
    assert (L : (97 <=? c)%N && (c <=? 122)%N = true).
    { apply andb_true_iff. split; apply N.leb_le; lia. }
    rewrite L. reflexivity.
  - destruct (N.eqb_spec c 105) as [->|N1].
    + simpl in H. rewrite orb_false_r in H. apply N.eqb_eq in H. now subst x.
    + destruct (N.eqb_spec c 115) as [->|N2].
      * simpl in H. rewrite orb_false_r in H. apply N.eqb_eq in H. now subst x.
      * discriminate.
Qed.

Section Scan.
Import Re ReSem.
Context {U : Unicode}.

(** [n] is the number of positions of the text, read after [prev], at
    which [P] holds of the character before and the rest of the text. *)
Inductive occurrences (P : option N -> pystr -> Prop)
    : option N -> pystr -> nat -> Prop :=
| occ_end prev : ~ P prev [] -> occurrences P prev [] 0
| occ_last prev : P prev [] -> occurrences P prev [] 1
| occ_hit prev c rest n :
    P prev (c :: rest) -> occurrences P (Some c) rest n ->
    occurrences P prev (c :: rest) (S n)
| occ_miss prev c rest n :
    ~ P prev (c :: rest) -> occurrences P (Some c) rest n ->
    occurrences P prev (c :: rest) n.

Lemma occurrences_ext (P Q : option N -> pystr -> Prop) :
  (forall prev rest, P prev rest <-> Q prev rest) ->
  forall prev rest n, occurrences P prev rest n -> occurrences Q prev rest n.
Proof.
  intros E prev rest n H. induction H.
  - apply occ_end. now rewrite <- E.
  - apply occ_last. now rewrite <- E.
  - apply occ_hit; [now rewrite <- E | assumption].
  - apply occ_miss; [now rewrite <- E | assumption].
Qed.

(** No match of [r] starts at any of the next [n] positions. *)
Fixpoint quiet (r : regex) (n : nat) (prev : option N) (rest : pystr) : Prop :=
  match n with
  | 0 => True
  | S n' =>
      hit r prev rest = false /\
      match rest with
      | [] => True
      | c :: rest' => quiet r n' (Some c) rest'
      end
  end.

Lemma quiet_app r l : forall n prev rest,
  quiet r (length l) prev (l ++ rest) ->
  quiet r n (last_of prev l) rest ->
  quiet r (length l + n) prev (l ++ rest).
Proof.
  induction l as [|c l IH]; intros n prev rest H1 H2; [exact H2|].
  rewrite last_of_cons in H2. simpl in H1. destruct H1 as [Hh H1].
  simpl. split; [exact Hh|]. now apply IH.
Qed.

(** A match is never followed by the start of another match before its end. *)
Definition apart (r : regex) : Prop :=
  forall prev c rest m,
    match_here r prev (c :: rest) = Some m ->
    quiet r (Nat.pred (length m)) (Some c) rest.

Lemma hit_of_match r prev rest m :
  match_here r prev rest = Some m -> hit r prev rest = true.
Proof. unfold hit. now intros ->. Qed.

Lemma hit_of_none r prev rest :
  match_here r prev rest = None -> hit r prev rest = false.
Proof. unfold hit. now intros ->. Qed.

(** When matches keep apart, [findall] reports every position at which a
    match starts. *)
Lemma findall_occurrences r :
  apart r ->
  forall rest skip prev,
    quiet r skip prev rest ->
    occurrences (fun p s => hit r p s = true) prev rest
                (length (findall_from r skip prev rest)).
Proof.
  intros A rest. induction rest as [|c rest IH]; intros skip prev Q.
  - destruct skip as [|n]; simpl.
    + destruct (match_here r prev []) as [m|] eqn:E; simpl.
      * apply occ_last. now apply hit_of_match in E.
      * apply occ_end. apply hit_of_none in E. congruence.
    + apply occ_end. simpl in Q. destruct Q as [Q _]. congruence.
  - destruct skip as [|n]; simpl.
    + destruct (match_here r prev (c :: rest)) as [m|] eqn:E; simpl.
      * apply occ_hit; [now apply hit_of_match in E|].
        apply IH. now apply (A prev).
      * apply occ_miss; [apply hit_of_none in E; congruence|].
        now apply IH.
    + simpl in Q. destruct Q as [Qh Q].
      apply occ_miss; [congruence|]. now apply IH.
Qed.

End Scan.

Section Contractions.
Import Re Bs4 Docx Checker Trace ReSem.
Context {U : Unicode} {O : SetOrder}.
Hypothesis laws : CaseLaws U.

(** One of the words [ws], between word boundaries, starts right here. *)
Definition starts (ws : list pystr) (prev : option N) (rest : pystr) : Prop :=
  exists m post, rest = m ++ post /\ word_of ws prev m post.

Lemma hit_words ws prev rest :
  hit (Checker.seq [WordB; alts (map litsI ws); WordB]) prev rest = true <->
  starts ws prev rest.
Proof.
  rewrite hit_iff. unfold starts.
  split; intros [m [post [E M]]]; exists m, post; (split; [exact E|]);
    now apply Matches_words.
Qed.

Lemma contraction_shape w :
  In w contractions ->
  exists stem, w = stem ++ [rsquo; 116%N] /\ 2 <= length stem /\
               forallb Tables.ascii_lower stem = true.
Proof.
  unfold contractions. rewrite in_map_iff. intros [s [<- Hin]].
  exists (py s). split; [reflexivity|].
  simpl in Hin.
  repeat (destruct Hin as [<-|Hin]; [split; [simpl; lia | reflexivity]|]).
  destruct Hin.
Qed.

Lemma spells_letters stem : forall W,
  forallb Tables.ascii_lower stem = true -> spells stem W ->
  Forall (fun x => isword x = true) W.
Proof.
  unfold spells. induction stem as [|c stem IH]; intros W L S;
    inversion S as [|c' x stem' W' E F]; subst; constructor.
  - simpl in L. apply andb_true_iff in L. destruct L as [Lc _].
    exact (letters_are_words _ laws c x Lc E).
  - simpl in L. apply andb_true_iff in L. destruct L as [_ L]. now apply IH.
Qed.

Lemma spelled_shape w m :
  In w contractions -> spells w m ->
  exists W y, m = W ++ [rsquo; y] /\ 2 <= length W /\
              Forall (fun x => isword x = true) W /\ isword y = true.
Proof.
  intros I S. destruct (contraction_shape _ I) as [stem [-> [L Low]]].
  unfold spells in S. apply Forall2_app_inv_l in S.
  destruct S as [W [T [SW [ST ->]]]].
  inversion ST as [|a q l1 l2 Q ST1]; subst.
  inversion ST1 as [|a y l3 l4 Y ST2]; subst. inversion ST2; subst.
  unfold lit_ignore in Q. rewrite (rsquo_uncased _ laws) in Q.
  apply N.eqb_eq in Q. subst q.
  exists W, y. split; [reflexivity|]. split; [|split].
  - now rewrite <- (Forall2_length SW).
  - now apply (spells_letters stem).
  - exact (letters_are_words _ laws 116%N y eq_refl Y).
Qed.

Lemma last_of_word p W :
  isword p = true -> Forall (fun x => isword x = true) W ->
  isword_opt (last_of (Some p) W) = true.
Proof.
  intros Hp HW. revert p Hp. induction HW as [|x W Hx _ IH]; intros p Hp.
  - exact Hp.
  - rewrite last_of_cons. now apply IH.
Qed.

(** A contraction starts after a character that is no word character and
    with two word characters. *)
Lemma contraction_entry prev rest :
  hit neg_contr_re prev rest = true ->
  isword_opt prev = false /\
  exists x y rest', rest = x :: y :: rest' /\
                    isword x = true /\ isword y = true.
Proof.
  intro H. apply hit_words in H. destruct H as [m [post [-> [B [[w [I S]] _]]]]].
  destruct (spelled_shape _ _ I S) as [W [y0 [-> [L [HW _]]]]].
  destruct W as [|x [|y W]]; simpl in L; try lia.
  inversion HW as [|? ? Hx HW']; subst. inversion HW' as [|? ? Hy _]; subst.
  unfold boundary in B. simpl in B. rewrite Hx in B.
  split.
  - destruct (isword_opt prev); [discriminate | reflexivity].
  - exists x, y, (W ++ [rsquo; y0] ++ post).
    simpl. rewrite <- app_assoc. now repeat split.
Qed.

Lemma quiet_run W : forall p tail,
  isword p = true -> Forall (fun x => isword x = true) W ->
  quiet neg_contr_re (length W) (Some p) (W ++ tail).
Proof.
  induction W as [|x W IH]; intros p tail Hp HW; [exact I|].
  inversion HW as [|? ? Hx HW']; subst. simpl. split.
  - destruct (hit neg_contr_re (Some p) (x :: W ++ tail)) eqn:H;
      [|reflexivity].
    apply contraction_entry in H. destruct H as [H _]. simpl in H. congruence.
  - now apply IH.
Qed.

Lemma contractions_apart : apart neg_contr_re.
Proof.
  intros prev c rest m E. apply match_here_sound in E.
  destruct E as [post [E M]]. apply Matches_words in M.
  destruct M as [_ [[w [I S]] B]].
  destruct (spelled_shape _ _ I S) as [W [y [-> [L [HW Hy]]]]].
  destruct W as [|x W]; [simpl in L; lia|].
  rewrite <- app_assoc in E. simpl in E. inversion E; subst c rest.
  inversion HW as [|? ? Hx HW']; subst.
  replace (Nat.pred (length ((x :: W) ++ [rsquo; y]))) with (length W + 2)
    by (rewrite length_app; simpl; lia).
  apply quiet_app; [now apply quiet_run|].
  rewrite last_of_app in B. unfold boundary in B.
  change (last_of (last_of prev (x :: W)) [rsquo; y]) with (Some y) in B.
  simpl in B. rewrite Hy in B.
  simpl. split; [|split].
  - destruct (hit neg_contr_re (last_of (Some x) W) (rsquo :: y :: post))
      eqn:H; [|reflexivity].
    apply contraction_entry in H. destruct H as [H _].
    rewrite (last_of_word x W Hx HW') in H. discriminate.
  - destruct (hit neg_contr_re (Some rsquo) (y :: post)) eqn:H;
      [|reflexivity].
    apply contraction_entry in H.
    destruct H as [_ [x1 [y1 [rest' [E1 [_ Hy1]]]]]].
    inversion E1; subst. simpl in B. rewrite Hy1 in B. discriminate.
  - destruct post; trivial.
Qed.

Lemma neg_contr_occurrences text :
  occurrences (starts contractions) None text
              (length (findall neg_contr_re text)).
Proof.
  apply (occurrences_ext (fun p s => hit neg_contr_re p s = true)).
  - intros prev rest. apply hit_words.
  - apply findall_occurrences; [exact contractions_apart | exact I].
Qed.

Lemma neg_contr_spelled text :
  Forall (fun m => In rsquo m /\ exists w, In w contractions /\ spells w m)
         (findall neg_contr_re text).
Proof.
  apply Forall_forall. intros m H. apply findall_from_within in H.
  destruct H as [prev [pre [post [_ M]]]]. apply Matches_words in M.
  destruct M as [_ [[w [Hw S]] _]]. split; [|now exists w].
  destruct (spelled_shape _ _ Hw S) as [W [y [-> _]]].
  apply in_app_iff. right. now left.
Qed.

Lemma neg_contr_needs_rsquo text :
  ~ In rsquo text -> findall neg_contr_re text = [].
Proof.
  intro N. destruct (findall neg_contr_re text) as [|m l] eqn:E;
    [reflexivity|].
  assert (H : In m (findall neg_contr_re text)) by (rewrite E; now left).
  apply findall_from_within in H.
  destruct H as [prev [pre [post [-> M]]]]. apply Matches_words in M.
  destruct M as [_ [[w [I S]] _]].
  destruct (spelled_shape _ _ I S) as [W [y [-> _]]].
  exfalso. apply N. rewrite !in_app_iff. right. left. right. now left.
Qed.

End Contractions.

Section ContractionFindings.
Import Re Bs4 Docx Checker Trace ReSem.
Context {U : Unicode} {O : SetOrder}.

(** The head of the negative-contraction message. *)
Definition neg_contr_head : string := "LANGUAGE: Found negative contraction: '".

Lemma html_neg_contr_split soup text :
  exists before after,
    html_out soup text = before ++ neg_contr_out text ++ after /\
    none_prefixed neg_contr_head before /\ none_prefixed neg_contr_head after.
Proof.
  exists (flat_map (fun bp => bullet_out (strip bp)) (bullet_points soup) ++
          lead_in_out soup ++ please_out text),
    (directional_out text ++ sentence_out text ++ links_out soup ++
     images_out soup text ++ cells_out soup ++ emphasis_out soup ++
     acronyms_out text ++ html_after soup text).
  split; [|split].
  - unfold html_out, html_before, language_out. now rewrite <- !app_assoc.
  - blocks. foreign.
  - blocks. foreign.
Qed.

Lemma docx_neg_contr_split doc text :
  exists before after,
    docx_out doc text = before ++ neg_contr_out text ++ after /\
    none_prefixed neg_contr_head before /\ none_prefixed neg_contr_head after.
Proof.
  exists (flat_map bullet_out (list_paragraphs doc) ++ please_out text),
    (directional_out text ++ sentence_out text ++ docx_emphasis_out doc ++
     acronyms_out text ++ style_out text).
  split; [|split].
  - unfold docx_out, docx_before, language_out. now rewrite <- !app_assoc.
  - blocks. foreign.
  - blocks. foreign.
Qed.

Lemma filter_neg_contr before after text :
  none_prefixed neg_contr_head before -> none_prefixed neg_contr_head after ->
  filter (prefixed neg_contr_head) (before ++ neg_contr_out text ++ after) =
  map msg_neg_contr (findall neg_contr_re text).
Proof.
  intros B A. rewrite !filter_app.
  rewrite (filter_foreign _ _ B), (filter_foreign _ _ A), app_nil_r.
  unfold neg_contr_out. simpl.
  induction (findall neg_contr_re text) as [|m l IH]; [reflexivity|].
  simpl. now rewrite IH.
Qed.

(** The negative-contraction findings among [fs] are one per position of
    [text] at which one of the contractions (in any case, between word
    boundaries) starts, each quoting what is spelled there, U+2019
    included; and there is none when the text has no U+2019. *)
Definition contraction_report (text : pystr) (fs : list pystr) : Prop :=
  exists ms,
    filter (prefixed neg_contr_head) fs = map msg_neg_contr ms /\
    Forall (fun m => In rsquo m /\
                     exists w, In w contractions /\ spells w m) ms /\
    occurrences (starts contractions) None text (length ms) /\
    (~ In rsquo text -> ms = []).

Lemma contraction_report_of (laws : CaseLaws U) before after text :
  none_prefixed neg_contr_head before -> none_prefixed neg_contr_head after ->
  contraction_report text (before ++ neg_contr_out text ++ after).
Proof.
  intros B A. exists (findall neg_contr_re text). split; [|split; [|split]].
  - now apply filter_neg_contr.
  - now apply neg_contr_spelled.
  - now apply neg_contr_occurrences.
  - now apply neg_contr_needs_rsquo.
Qed.


End ContractionFindings.

Module ContractionSamples.
Import Bs4 Samples.

Definition isnt : pystr := py "isn" ++ [rsquo] ++ py "t".
Definition Isnt : pystr := py "Isn" ++ [rsquo] ++ py "t".

(** <p>21 September 2025: it isn't ready, it Isn't final, it isn't</p>,
    the first two with U+2019, the last one with the ASCII apostrophe. *)
Definition twice : node :=
  page [el "p" [NavigableString
                  (py "21 September 2025: it " ++ isnt ++ py " ready, it " ++
                   Isnt ++ py " final, it isn't")]].

(** <p>21 September 2025: it isn't ready</p>, with the ASCII apostrophe. *)
Definition straight : node :=
  page [el "p" [txt "21 September 2025: it isn't ready"]].

Definition dont : pystr := py "don" ++ [rsquo] ++ py "t".

(** <p>21 September 2025: dos and don'ts</p>, with U+2019. *)
Definition plural : node :=
  page [el "p" [NavigableString
                  (py "21 September 2025: dos and " ++ dont ++ py "s")]].

End ContractionSamples.


(** Two typographic contractions give two findings, the one with the ASCII
    apostrophe none. *)
Lemma contraction_examples :
  Checker.check_html (U:=Tables.basic) (O:=first_order)
    ContractionSamples.twice =
  Checker.Val [Checker.msg_neg_contr ContractionSamples.isnt;
               Checker.msg_neg_contr ContractionSamples.Isnt] /\
  Checker.check_html (U:=Tables.basic) (O:=first_order)
    ContractionSamples.straight = Checker.Val [].
Proof. vm_compute. split; reflexivity. Qed.


(* ------------------------------------------------------------------ *)
(** * The findings of one check inside the list *)

Section Sieve.
Import Re Bs4 Docx Checker Trace.

(** Every message of [l] starts with [p]. *)
Definition all_prefixed (p : string) (l : list pystr) : Prop :=
  Forall (fun m => prefixed p m = true) l.

Lemma filter_native p l : all_prefixed p l -> filter (prefixed p) l = l.
Proof.
  induction 1 as [|m l Hm _ IH]; simpl; [reflexivity|]. now rewrite Hm, IH.
Qed.

Lemma count_occ_filter p l x :
  prefixed p x = true ->
  count_occ pystr_dec (filter (prefixed p) l) x = count_occ pystr_dec l x.
Proof.
  intro Hx. induction l as [|m l IH]; simpl; [reflexivity|].
  destruct (pystr_dec m x) as [->|N].
  - rewrite Hx. simpl. destruct (pystr_dec x x); [now rewrite IH | contradiction].
  - destruct (prefixed p m); simpl; [|exact IH].
    destruct (pystr_dec m x); [contradiction | exact IH].
Qed.

Lemma flat_map_singleton {A B} (f : A -> B) (l : list A) :
  flat_map (fun x => [f x]) l = map f l.
Proof. induction l as [|x l IH]; simpl; [reflexivity | now rewrite IH]. Qed.

Lemma flat_map_say_length {A} (p : A -> bool) (f : A -> pystr) (l : list A) :
  length (flat_map (fun x => say (p x) (f x)) l) = length (filter p l).
Proof.
  induction l as [|x l IH]; simpl; [reflexivity|].
  rewrite length_app, IH. now destruct (p x).
Qed.

Context {U : Unicode} {O : SetOrder}.

(** The findings of [check_html], check by check. *)
Lemma html_out_blocks soup text :
  html_out soup text =
  flat_map (fun bp => bullet_out (strip bp)) (bullet_points soup) ++
  lead_in_out soup ++ please_out text ++ neg_contr_out text ++
  directional_out text ++ sentence_out text ++ links_out soup ++
  images_out soup text ++ cells_out soup ++ emphasis_out soup ++
  acronyms_out text ++ date_out text ++ hyphen_out text ++ slash_out text ++
  table_links_out soup ++ titles_out soup.
Proof.
  unfold html_out, html_before, html_after, language_out, style_out.
  now rewrite <- !app_assoc.
Qed.

(** The findings of [check_docx], check by check. *)
Lemma docx_out_blocks doc text :
  docx_out doc text =
  flat_map bullet_out (list_paragraphs doc) ++ please_out text ++
  neg_contr_out text ++ directional_out text ++ sentence_out text ++
  docx_emphasis_out doc ++ acronyms_out text ++ date_out text ++
  hyphen_out text ++ slash_out text.
Proof.
  unfold docx_out, docx_before, language_out, style_out.
  now rewrite <- !app_assoc.
Qed.

Lemma check_html_val soup fs :
  check_html soup = Val fs -> fs = html_out soup (get_text nl false soup).
Proof.
  rewrite check_html_eq.
  destruct (existsb blank (bullet_points soup)); [discriminate|].
  now inversion 1.
Qed.

Lemma check_docx_val doc fs :
  check_docx doc = Val fs -> fs = docx_out doc (join nl (map Docx.text doc)).
Proof. rewrite check_docx_eq. now inversion 1. Qed.

End Sieve.

(** Proves that every message of a block of findings starts with a literal. *)
Ltac native :=
  repeat match goal with
  | |- all_prefixed _ _ => unfold all_prefixed
  | |- Forall _ (_ ++ _) => apply Forall_app; split
  | |- Forall _ (flat_map _ _) =>
      apply Forall_flat_map, Forall_forall; intros ? _
  | |- Forall _ (Trace.say ?b _) => destruct b; cbn [Trace.say]
  | |- Forall _ (Trace.capital_out ?bp) =>
      destruct bp; cbn [Trace.capital_out]
  | |- Forall _ [] => constructor
  | |- Forall _ (_ :: _) => constructor
  | |- prefixed _ _ = true => reflexivity
  end.

(** Keeps, in a concatenation of blocks of findings, the blocks whose
    messages start with the literal filtered for. *)
Ltac sieve :=
  rewrite ?filter_app;
  repeat match goal with
  | |- context [filter (prefixed ?p) ?l] =>
      first [ rewrite (filter_foreign p l) by (blocks; foreign)
            | rewrite (filter_native p l) by (blocks; native) ]
  end;
  rewrite ?app_nil_r; cbn [app].

(* ------------------------------------------------------------------ *)
(** * The findings on images and on anchors *)

Section ImagesAndAnchors.
Import Re Bs4 Docx Checker Trace ReSem.
Context {U : Unicode} {O : SetOrder}.

(** C6. When [check_html] returns, its IMAGE findings are exactly, image
    by image in document order, the findings of each image element and
    nothing else, and these are: the one "without alt text" finding when
    the alt attribute is absent or empty; nothing when the alt text is not
    empty and occurs in the extracted text; the one "not described" finding
    when it is not empty and does not occur there. *)
Theorem image_alt_findings (soup : node) (fs : list pystr) :
  check_html soup = Val fs ->
  let text := get_text nl false soup in
  filter (prefixed "IMAGE") fs =
  flat_map (image_out text) (find_all [py "img"] soup) /\
  (forall name attrs contents,
      In (Tag name attrs contents) (find_all [py "img"] soup) ->
      let img := Tag name attrs contents in
      (lookup (py "alt") attrs = None \/ lookup (py "alt") attrs = Some [] ->
       image_out text img = [msg_no_alt]) /\
      (forall alt_text,
          lookup (py "alt") attrs = Some alt_text -> alt_text <> [] ->
          (substring alt_text text -> image_out text img = []) /\
          (~ substring alt_text text ->
           image_out text img = [msg_alt_not_described alt_text]))).
Proof.
  intros H text. split.
  - apply check_html_val in H. subst fs. fold text.
    rewrite html_out_blocks. now sieve.
  - intros name attrs contents _ img. unfold image_out, img. cbn [get].
    split.
    + intros [E|E]; rewrite E; reflexivity.
    + intros alt_text E Hne. rewrite E.
      destruct alt_text as [|c r]; [contradiction|]. cbn [truthy negb say app andb].
      split; intro S.
      * apply contains_substring in S. now rewrite S.
      * apply contains_false in S. now rewrite S.
Qed.

(** C7. When [check_html] returns, its LINK findings are exactly, anchor
    by anchor in document order, the findings of each anchor and nothing
    else, and these depend on two independent conditions on its trimmed
    text: the single-word finding is reported exactly when the text is one
    word, and the descriptiveness finding exactly when the text has none of
    the active verbs as a word (in any case).  So a text of several words
    with an active verb has neither, and a single word that is no active
    verb has both. *)
Theorem link_findings (soup : node) (fs : list pystr) :
  check_html soup = Val fs ->
  filter (prefixed "LINK") fs =
  flat_map link_out (find_all [py "a"] soup) /\
  (forall a,
      let link_text := strip (get_text [] false a) in
      (one_word link_text -> In (msg_one_word link_text) (link_out a)) /\
      (~ has_word active_verbs link_text ->
       In (msg_not_active link_text) (link_out a)) /\
      (~ one_word link_text -> has_word active_verbs link_text ->
       link_out a = []) /\
      (one_word link_text -> ~ has_word active_verbs link_text ->
       link_out a = [msg_one_word link_text; msg_not_active link_text]) /\
      (one_word link_text -> has_word active_verbs link_text ->
       link_out a = [msg_one_word link_text]) /\
      (~ one_word link_text -> ~ has_word active_verbs link_text ->
       link_out a = [msg_not_active link_text])).
Proof.
  intro H. split.
  - apply check_html_val in H. subst fs.
    rewrite html_out_blocks. now sieve.
  - intros a link_text.
    destruct (link_out_cases a) as [C|[C|[C|C]]];
      fold link_text in C; destruct C as [W [V ->]];
      repeat split; intros; simpl; auto; contradiction.
Qed.

End ImagesAndAnchors.

Lemma image_alt_findings_witness :
  filter (prefixed "IMAGE")
    [Checker.msg_no_alt; Checker.msg_alt_not_described (py "Q3 chart")] =
  flat_map (Trace.image_out
              (Bs4.get_text (U:=Tables.basic) nl false ImageSamples.report))
           (Bs4.find_all [py "img"] ImageSamples.report).
Proof.
  apply (image_alt_findings (U:=Tables.basic) (O:=first_order)
           ImageSamples.report
           [Checker.msg_no_alt; Checker.msg_alt_not_described (py "Q3 chart")]).
  vm_compute. reflexivity.
Defined.

Lemma link_findings_witness :
  filter (prefixed "LINK")
    [Checker.msg_one_word (py "Click"); Checker.msg_not_active (py "Click");
     Checker.msg_not_active (py "more information here")] =
  flat_map (Trace.link_out (U:=Tables.basic))
           (Bs4.find_all [py "a"] LinkSamples.links) /\
  Trace.link_out (U:=Tables.basic) LinkSamples.read = [].
Proof.
  destruct (link_findings (U:=Tables.basic) (O:=first_order)
              LinkSamples.links
              [Checker.msg_one_word (py "Click");
               Checker.msg_not_active (py "Click");
               Checker.msg_not_active (py "more information here")])
    as [F P]; [vm_compute; reflexivity|].
  split; [exact F|].
  refine (proj1 (proj2 (proj2 (P LinkSamples.read))) _ _).
  - rewrite <- one_word_iff. vm_compute. discriminate.
  - exists [], (py "Read"), (py " the report"). split; [reflexivity|].
    split; [reflexivity|]. split; [|reflexivity].
    exists (py "read"). split; [vm_compute; tauto|].
    repeat constructor.
Defined.

(* ------------------------------------------------------------------ *)
(** * When the evaluators return *)

Section Outcome.
Import Re Bs4 Docx Checker Trace.
Context {U : Unicode} {O : SetOrder}.

Lemma spaces_rev s : spaces (rev s) <-> spaces s.
Proof.
  unfold spaces. rewrite !forallb_forall.
  split; intros H x Hx; apply H; [now apply in_rev in Hx | now apply in_rev].
Qed.

Lemma spaces_app a b : spaces (a ++ b) <-> spaces a /\ spaces b.
Proof. unfold spaces. rewrite forallb_app. apply andb_true_iff. Qed.

(** [lstrip] takes a run of white space off the front and stops at a
    character that is none. *)
Lemma lstrip_split s :
  exists a, s = a ++ lstrip s /\ spaces a /\
            match lstrip s with
            | [] => True
            | c :: _ => isspace c = false
            end.
Proof.
  induction s as [|c s [a [E [A T]]]]; simpl.
  - now exists [].
  - destruct (isspace c) eqn:C.
    + exists (c :: a). simpl. rewrite <- E. repeat split; auto.
      unfold spaces. simpl. now rewrite C.
    + now exists [].
Qed.

Lemma lstrip_nil s : lstrip s = [] <-> spaces s.
Proof.
  split; [|apply lstrip_spaces].
  intro H. destruct (lstrip_split s) as [a [E [A _]]].
  rewrite H, app_nil_r in E. now subst.
Qed.

(** The stripped text is empty exactly for a text of white space. *)
Lemma strip_nil_iff s : strip s = [] <-> spaces s.
Proof.
  split; [|apply strip_spaces].
  unfold strip, rstrip. intro H.
  apply (f_equal (@rev N)) in H. rewrite rev_involutive in H. simpl in H.
  apply lstrip_nil in H. apply (proj1 (spaces_rev _)) in H.
  destruct (lstrip_split s) as [a [E [A T]]].
  destruct (lstrip s) as [|c r].
  - rewrite app_nil_r in E. now subst.
  - unfold spaces in H. simpl in H. rewrite T in H. discriminate.
Qed.

Lemma blank_iff bp : blank bp = true <-> bp <> [] /\ spaces bp.
Proof.
  unfold blank. rewrite andb_true_iff, negb_true_iff.
  rewrite <- strip_nil_iff. destruct bp as [|c r]; simpl.
  - split; [intros [H _]; discriminate | intros [H _]; contradiction].
  - destruct (strip (c :: r)); simpl; split; intros [H1 H2];
      split; congruence.
Qed.

(** [check_html] returns a finding list exactly when every list item is
    empty or has a character that is not white space; in every other case
    it ends with IndexError. *)
Theorem check_html_returns_iff (soup : node) :
  ((exists fs, check_html soup = Val fs) <->
   (forall li, In li (find_all [py "li"] soup) ->
               get_text [] false li = [] \/
               exists c, In c (get_text [] false li) /\ isspace c = false)) /\
  ((forall fs, check_html soup <> Val fs) ->
   check_html soup = Exn IndexError).
Proof.
  rewrite check_html_eq. split.
  - destruct (existsb blank (bullet_points soup)) eqn:E; split.
    + intros [fs H]. discriminate.
    + intro H. exfalso. apply existsb_exists in E.
      destruct E as [bp [I B]]. unfold bullet_points in I.
      apply in_map_iff in I. destruct I as [li [<- I]].
      apply blank_iff in B. destruct B as [Ne Sp].
      destruct (H li I) as [Z|[c [Hc Nc]]]; [contradiction|].
      unfold spaces in Sp. rewrite forallb_forall in Sp.
      rewrite (Sp c Hc) in Nc. discriminate.
    + intros _ li I.
      destruct (get_text [] false li) as [|c r] eqn:T; [now left|]. right.
      assert (B : blank (c :: r) = false).
      { destruct (blank (c :: r)) eqn:B; [|reflexivity].
        assert (X : existsb blank (bullet_points soup) = true).
        { apply existsb_exists. exists (c :: r). split; [|exact B].
          unfold bullet_points. rewrite <- T. now apply in_map. }
        congruence. }
      assert (S : ~ spaces (c :: r)).
      { intro S. assert (X : blank (c :: r) = true)
          by (apply blank_iff; split; [discriminate | exact S]).
        congruence. }
      unfold spaces in S.
      destruct (forallb isspace (c :: r)) eqn:F; [contradiction|].
      clear -F. induction (c :: r) as [|x l IH]; [discriminate|].
      simpl in F. destruct (isspace x) eqn:X.
      * destruct (IH F) as [y [Hy Ny]]. exists y. split; [now right | exact Ny].
      * exists x. split; [now left | exact X].
    + intros _. now eexists.
  - destruct (existsb blank (bullet_points soup)); [reflexivity|].
    intro H. exfalso. exact (H _ eq_refl).
Qed.

(** [check_docx] returns a finding list for every document: its bullet
    check strips the text before it asks whether it is empty, and so never
    indexes an empty string. *)
Theorem check_docx_returns (doc : document) :
  exists fs, check_docx doc = Val fs.
Proof. rewrite check_docx_eq. now eexists. Qed.

End Outcome.

(* ------------------------------------------------------------------ *)
(** * Bullet findings *)

Section BulletFindings.
Import Re Bs4 Docx Checker Trace.
Context {U : Unicode} {O : SetOrder}.

Lemma endswith_suffix s p :
  endswith s p = true <-> exists pre, s = pre ++ p.
Proof.
  unfold endswith. rewrite startswith_prefix. split.
  - intros [post H]. exists (rev post).
    apply (f_equal (@rev N)) in H.
    now rewrite rev_involutive, rev_app_distr, rev_involutive in H.
  - intros [pre ->]. exists (rev pre). apply rev_app_distr.
Qed.

(** What the two bullet checks say about a stripped bullet text [t]: the
    full-stop finding is there exactly when [t] does not end with ".", the
    capital finding exactly when [t] has a first character and it is not
    upper case, and nothing else is there, nothing twice. *)
Definition bullet_rule (t : pystr) (out : list pystr) : Prop :=
  (In (msg_full_stop t) out <-> ~ exists pre, t = pre ++ [46%N]) /\
  (In (msg_capital t) out <->
   exists c r, t = c :: r /\ isupper c = false) /\
  (forall m, In m out -> m = msg_full_stop t \/ m = msg_capital t) /\
  NoDup out.

Lemma full_stop_not_capital t : msg_full_stop t <> msg_capital t.
Proof.
  intro H. apply (f_equal (prefixed "BULLET: Does not e")) in H.
  discriminate.
Qed.

Lemma say_pair a b (x y : pystr) :
  x <> y ->
  (In x (say a x ++ say b y) <-> a = true) /\
  (In y (say a x ++ say b y) <-> b = true) /\
  (forall m, In m (say a x ++ say b y) -> m = x \/ m = y) /\
  NoDup (say a x ++ say b y).
Proof.
  intro D. destruct a, b; simpl; repeat split;
    try tauto; try congruence; try (intros; intuition congruence);
    repeat constructor; simpl; intuition congruence.
Qed.

Lemma bullet_out_rule t : bullet_rule t (bullet_out t).
Proof.
  unfold bullet_rule.
  set (b := match t with [] => false | c :: _ => negb (isupper c) end).
  assert (E : bullet_out t =
              say (negb (endswith t (py "."))) (msg_full_stop t) ++
              say b (msg_capital t)).
  { unfold bullet_out, capital_out, b. now destruct t. }
  rewrite E.
  destruct (say_pair (negb (endswith t (py "."))) b _ _
              (full_stop_not_capital t)) as [H1 [H2 [H3 H4]]].
  split; [|split; [|split]]; auto.
  - rewrite H1, negb_true_iff, <- (endswith_suffix t (py ".")).
    destruct (endswith t (py ".")); split; congruence.
  - rewrite H2. unfold b. destruct t as [|c r].
    + split; [discriminate | intros [c [r [H _]]]; discriminate].
    + rewrite negb_true_iff. split.
      * intro C. now exists c, r.
      * intros [c' [r' [H C]]]. now inversion H; subst.
Qed.

Lemma flat_map_map {A B C} (g : A -> B) (f : B -> list C) (l : list A) :
  flat_map f (map g l) = flat_map (fun x => f (g x)) l.
Proof. induction l as [|x l IH]; simpl; [reflexivity | now rewrite IH]. Qed.

(** When [check_html] returns, its two kinds of bullet findings are, list
    item by list item in document order, those of the stripped item texts,
    each decided by the two bullet checks; an item without text has the
    full-stop finding, with an empty snippet, and no capital finding. *)
Theorem html_bullet_findings (soup : node) (fs : list pystr) :
  check_html soup = Val fs ->
  filter (prefixed "BULLET: Does not") fs =
  flat_map (fun li => bullet_out (strip (get_text [] false li)))
           (find_all [py "li"] soup) /\
  (forall t, bullet_rule t (bullet_out t)) /\
  bullet_out [] = [msg_full_stop []].
Proof.
  intro H. apply check_html_val in H. subst fs.
  split; [|split; [exact bullet_out_rule | reflexivity]].
  rewrite html_out_blocks. sieve.
  unfold bullet_points.
  exact (flat_map_map (get_text [] false) (fun bp => bullet_out (strip bp)) _).
Qed.

(** The bullet findings of [check_docx] come from the paragraphs whose
    style name starts with "List" and from no other, paragraph by paragraph
    in order, decided by the same two checks on the stripped text; a list
    paragraph of white space has the full-stop finding with an empty snippet
    and nothing else. *)
Theorem docx_bullet_findings (doc : document) (fs : list pystr) :
  check_docx doc = Val fs ->
  filter (prefixed "BULLET") fs =
  flat_map (fun para => bullet_out (strip (Docx.text para)))
           (filter (fun para => startswith (style_name para) (py "List")) doc)
  /\
  (forall t, bullet_rule t (bullet_out t)) /\
  (forall para, spaces (Docx.text para) ->
                bullet_out (strip (Docx.text para)) = [msg_full_stop []]).
Proof.
  intro H. apply check_docx_val in H. subst fs.
  split; [|split; [exact bullet_out_rule|]].
  - rewrite docx_out_blocks. sieve.
    unfold list_paragraphs.
    exact (flat_map_map (fun para => strip (Docx.text para)) bullet_out _).
  - intros para S. now rewrite (strip_spaces _ S).
Qed.

End BulletFindings.

(* ------------------------------------------------------------------ *)
(** * Lead-in sentences *)

Section LeadIn.
Import Re Bs4 Docx Checker Trace.
Context {U : Unicode} {O : SetOrder}.

(** The first string of a listing: with the elements before a position
    listed from the nearest to the farthest, the nearest string before it. *)
Fixpoint nearest_string (before : list node) : option pystr :=
  match before with
  | [] => None
  | NavigableString s :: _ => Some s
  | Comment s :: _ => Some s
  | Tag _ _ _ :: before' => nearest_string before'
  end.

Definition or_else (a b : option pystr) : option pystr :=
  match a with Some s => Some s | None => b end.

Lemma nearest_string_app a b :
  nearest_string (a ++ b) = or_else (nearest_string a) (nearest_string b).
Proof.
  induction a as [|[s|s|name attrs cs] a IH]; simpl; auto.
Qed.

Lemma with_previous_In l : forall last n prev,
  In (n, prev) (with_previous last l) <->
  exists l1 l2, l = l1 ++ n :: l2 /\
                prev = or_else (nearest_string (rev l1)) last.
Proof.
  induction l as [|x l IH]; intros last n prev; simpl.
  - split; [intros [] | intros [[|? ?] [l2 [H _]]]; discriminate].
  - rewrite IH. split.
    + intros [H|[l1 [l2 [-> ->]]]].
      * inversion H; subst. now exists [], l.
      * exists (x :: l1), l2. split; [reflexivity|].
        simpl. rewrite nearest_string_app.
        destruct (nearest_string (rev l1)); [reflexivity|].
        now destruct x.
    + intros [[|y l1] [l2 [E ->]]].
      * inversion E; subst. now left.
      * inversion E; subst. right. exists l1, l2. split; [reflexivity|].
        simpl. rewrite nearest_string_app.
        destruct (nearest_string (rev l1)); [reflexivity|].
        now destruct y.
Qed.

Lemma flat_map_say {A} (p : A -> bool) (f : A -> pystr) (l : list A) :
  flat_map (fun x => say (p x) (f x)) l = map f (filter p l).
Proof.
  induction l as [|x l IH]; simpl; [reflexivity|].
  rewrite IH. now destruct (p x).
Qed.

(** The lead-in check passes for the strings whose stripped text ends with
    a colon and for nothing else. *)
Lemma no_lead_in_false prev :
  no_lead_in prev = false <->
  exists p pre, prev = Some p /\ strip p = pre ++ [58%N].
Proof.
  unfold no_lead_in. destruct prev as [p|].
  - rewrite orb_false_iff, !negb_false_iff.
    rewrite (endswith_suffix (strip p) (py ":")).
    change (py ":") with [58%N]. split.
    + intros [_ [pre H]]. now exists p, pre.
    + intros [p' [pre [E H]]]. inversion E; subst p'. split; [|now exists pre].
      destruct p; [|reflexivity]. rewrite strip_nil in H.
      destruct pre; discriminate.
  - split; [discriminate | intros [p [pre [H _]]]; discriminate].
Qed.

(** When [check_html] returns, it has one lead-in finding for every
    unordered list whose nearest preceding string, in document order and
    comments included, is missing or has a stripped text that does not end
    with a colon: white space between a lead-in sentence and its list is
    such a string. *)
Theorem lead_in_findings (soup : node) (fs : list pystr) :
  check_html soup = Val fs ->
  filter (prefixed "BULLET: List") fs =
  map (fun _ => msg_lead_in)
      (filter (fun ul => no_lead_in (snd ul)) (uls_with_previous soup)) /\
  (forall ul prev,
      In (ul, prev) (uls_with_previous soup) <->
      named [py "ul"] ul = true /\
      exists l1 l2, descendants soup = l1 ++ ul :: l2 /\
                    prev = nearest_string (rev l1)) /\
  (forall prev,
      no_lead_in prev = false <->
      exists p pre, prev = Some p /\ strip p = pre ++ [58%N]) /\
  (forall p, spaces p -> no_lead_in (Some p) = true).
Proof.
  intro H. apply check_html_val in H. subst fs.
  split; [|split; [|split]].
  - rewrite html_out_blocks. sieve. unfold lead_in_out.
    apply (flat_map_say (fun ul => no_lead_in (snd ul))
             (fun _ => msg_lead_in)).
  - intros ul prev. unfold uls_with_previous.
    rewrite filter_In, with_previous_In. simpl. split.
    + intros [[l1 [l2 [E ->]]] Hn]. split; [exact Hn|].
      exists l1, l2. split; [exact E|].
      now destruct (nearest_string (rev l1)).
    + intros [Hn [l1 [l2 [E ->]]]]. split; [|exact Hn].
      exists l1, l2. split; [exact E|].
      now destruct (nearest_string (rev l1)).
  - exact no_lead_in_false.
  - intros p S. destruct (no_lead_in (Some p)) eqn:E; [reflexivity|].
    apply no_lead_in_false in E. destruct E as [p' [pre [E1 E2]]].
    inversion E1; subst p'. rewrite (strip_spaces _ S) in E2.
    destruct pre; discriminate.
Qed.

End LeadIn.

(* ------------------------------------------------------------------ *)
(** * The checks on the extracted text *)

Section TextChecks.
Import Re Bs4 Docx Checker Trace ReSem.
Context {U : Unicode} {O : SetOrder}.

(** [fs] is what one of the two evaluators returns for a document whose
    extracted text is [text]. *)
Definition evaluated (text : pystr) (fs : list pystr) : Prop :=
  (exists soup, check_html soup = Val fs /\ text = get_text nl false soup) \/
  (exists doc, check_docx doc = Val fs /\
               text = join nl (map Docx.text doc)).

Lemma search_word w text :
  search (word_re w) text = true <-> has_word [w] text.
Proof. apply (search_words [w]). Qed.

Lemma please_sieve text fs :
  evaluated text fs ->
  filter (prefixed "LANGUAGE: Found instance") fs = please_out text.
Proof.
  intros [[soup [H ->]]|[doc [H ->]]].
  - apply check_html_val in H. subst fs. rewrite html_out_blocks. now sieve.
  - apply check_docx_val in H. subst fs. rewrite docx_out_blocks. now sieve.
Qed.

(** Both evaluators report the word "please" once if the text has it as a
    word, in any case and however often, and not at all otherwise. *)
Theorem please_finding (text : pystr) (fs : list pystr) :
  evaluated text fs ->
  (has_word [py "please"] text ->
   filter (prefixed "LANGUAGE: Found instance") fs = [msg_please]) /\
  (~ has_word [py "please"] text ->
   filter (prefixed "LANGUAGE: Found instance") fs = []).
Proof.
  intro E. rewrite (please_sieve _ _ E). unfold please_out.
  rewrite <- search_word.
  destruct (search (word_re (py "please")) text); split; intro H;
    try reflexivity; congruence.
Qed.

Lemma directional_sieve text fs :
  evaluated text fs ->
  filter (prefixed "LANGUAGE: Found use") fs = directional_out text.
Proof.
  intros [[soup [H ->]]|[doc [H ->]]].
  - apply check_html_val in H. subst fs. rewrite html_out_blocks. now sieve.
  - apply check_docx_val in H. subst fs. rewrite docx_out_blocks. now sieve.
Qed.

Lemma In_sieved p fs x :
  prefixed p x = true -> (In x fs <-> In x (filter (prefixed p) fs)).
Proof. intro H. rewrite filter_In. tauto. Qed.

(** Both evaluators report "above" and "below" independently, each once if
    the text has it as a word, in any case and however often, "above"
    first; there is no other finding of that kind. *)
Theorem directional_findings (text : pystr) (fs : list pystr) :
  evaluated text fs ->
  (In (msg_word (py "above")) fs <-> has_word [py "above"] text) /\
  (In (msg_word (py "below")) fs <-> has_word [py "below"] text) /\
  (exists a b,
      filter (prefixed "LANGUAGE: Found use") fs =
      say a (msg_word (py "above")) ++ say b (msg_word (py "below"))).
Proof.
  intro E. pose proof (directional_sieve _ _ E) as S.
  unfold directional_out in S. cbn [flat_map] in S. rewrite app_nil_r in S.
  assert (D : msg_word (py "above") <> msg_word (py "below"))
    by (intro D; apply quoted_inj in D; discriminate).
  destruct (say_pair (search (word_re (py "above")) text)
              (search (word_re (py "below")) text) _ _ D) as [H1 [H2 _]].
  rewrite <- S in H1, H2.
  split; [|split].
  - rewrite (In_sieved "LANGUAGE: Found use" fs (msg_word (py "above"))
               eq_refl), H1.
    apply search_word.
  - rewrite (In_sieved "LANGUAGE: Found use" fs (msg_word (py "below"))
               eq_refl), H2.
    apply search_word.
  - eexists _, _. exact S.
Qed.

Lemma slash_sieve text fs :
  evaluated text fs ->
  filter (prefixed "STYLE: Slash") fs = slash_out text.
Proof.
  intros [[soup [H ->]]|[doc [H ->]]].
  - apply check_html_val in H. subst fs. rewrite html_out_blocks. now sieve.
  - apply check_docx_val in H. subst fs. rewrite docx_out_blocks. now sieve.
Qed.

Lemma contains_char text c : contains text [c] = true <-> In c text.
Proof.
  rewrite contains_substring. unfold substring. split.
  - intros [pre [post ->]]. apply in_app_iff. right. now left.
  - intro H. apply in_split in H. destruct H as [l1 [l2 ->]].
    now exists l1, l2.
Qed.

(** Both evaluators report the slash once if the text has a "/" anywhere,
    however many, and not at all otherwise. *)
Theorem slash_finding (text : pystr) (fs : list pystr) :
  evaluated text fs ->
  (In 47%N text -> filter (prefixed "STYLE: Slash") fs = [msg_slash]) /\
  (~ In 47%N text -> filter (prefixed "STYLE: Slash") fs = []).
Proof.
  intro E. rewrite (slash_sieve _ _ E). unfold slash_out.
  rewrite <- (contains_char text 47%N). change [47%N] with (py "/").
  destruct (contains text (py "/")); split; intro H;
    try reflexivity; congruence.
Qed.

End TextChecks.

(* ------------------------------------------------------------------ *)
(** * Dates *)

Section Dates.
Import Re Bs4 Docx Checker Trace ReSem.
Context {U : Unicode} {O : SetOrder}.

Definition digits (s : pystr) : Prop := forallb isdecimal s = true.

(** [m], read after [prev] and before [post], is a date as the script
    wants it: one or two decimal digits, a space, the full English name of a
    month, a space and four decimal digits, between word boundaries. *)
Definition date_at (prev : option N) (m post : pystr) : Prop :=
  boundary prev (m ++ post) /\
  (exists day month year,
      m = day ++ 32%N :: month ++ 32%N :: year /\
      digits day /\ 1 <= length day <= 2 /\ In month months /\
      digits year /\ length year = 4) /\
  boundary (last_of prev m) post.

(** The text has such a date somewhere. *)
Definition has_date (text : pystr) : Prop :=
  exists pre m post,
    text = pre ++ m ++ post /\ date_at (last_of None pre) m post.

Lemma Matches_date prev m post :
  Matches date_re prev m post <-> date_at prev m post.
Proof.
  unfold date_re, Checker.seq, date_at, boundary, digits.
  cbn [fold_right Matches]. split.
  - intro M.
    repeat match goal with
           | H : exists _, _ |- _ => destruct H
           | H : _ /\ _ |- _ => destruct H
           end.
    match goal with H : Matches (alts _) _ _ _ |- _ =>
      apply Matches_alts in H; destruct H as [r [Hr Hm]];
      apply in_map_iff in Hr; destruct Hr as [month [<- Hmonth]];
      apply Matches_lits in Hm end.
    subst.
    repeat match goal with
           | H : context [last_of (last_of _ _) _] |- _ =>
               rewrite <- last_of_app in H
           end.
    rewrite ?app_nil_r, <- ?app_assoc in *. cbn [app] in *.
    split; [assumption|]. split; [|assumption].
    match goal with
    | H1 : forallb _ ?d = true, H2 : 1 <= length ?d,
      H3 : forallb _ ?y = true, H4 : 4 <= length ?y |- _ =>
        exists d, month, y
    end.
    cbn [within] in *. repeat split; auto; lia.
  - intros [B1 [[day [month [year [-> [D1 [L1 [Hm [D2 L2]]]]]]]] B2]].
    exists [], (day ++ 32%N :: month ++ 32%N :: year).
    split; [reflexivity|]. split; [now split|].
    exists day, (32%N :: month ++ 32%N :: year).
    split; [reflexivity|]. split.
    { cbn [within]. repeat split; auto; lia. }
    exists [32%N], (month ++ 32%N :: year). split; [reflexivity|].
    split; [reflexivity|].
    exists month, (32%N :: year). split; [reflexivity|]. split.
    { apply Matches_alts. exists (lits month).
      split; [now apply in_map | now apply Matches_lits]. }
    exists [32%N], year. split; [reflexivity|]. split; [reflexivity|].
    exists year, []. split; [now rewrite app_nil_r|]. split.
    { cbn [within]. repeat split; auto; lia. }
    exists [], []. split; [reflexivity|]. split; [|reflexivity].
    split; [reflexivity|].
    rewrite <- !last_of_app. cbn [app]. exact B2.
Qed.

Lemma search_date text : search date_re text = true <-> has_date text.
Proof.
  rewrite search_iff. unfold has_date.
  split; intros [pre [m [post [E M]]]]; exists pre, m, post;
    (split; [exact E|]); now apply Matches_date.
Qed.

Lemma date_sieve text fs :
  evaluated text fs ->
  filter (prefixed "STYLE: No date") fs = date_out text.
Proof.
  intros [[soup [H ->]]|[doc [H ->]]].
  - apply check_html_val in H. subst fs. rewrite html_out_blocks. now sieve.
  - apply check_docx_val in H. subst fs. rewrite docx_out_blocks. now sieve.
Qed.

(** Both evaluators report a missing date once if the text nowhere has one
    or two digits, a space, a full month name, a space and four digits
    between word boundaries, and not at all if it has: a day of three digits
    or a year of five is no date, and neither is an abbreviated month. *)
Theorem date_finding (text : pystr) (fs : list pystr) :
  evaluated text fs ->
  (has_date text -> filter (prefixed "STYLE: No date") fs = []) /\
  (~ has_date text -> filter (prefixed "STYLE: No date") fs = [msg_no_date]).
Proof.
  intro E. rewrite (date_sieve _ _ E). unfold date_out.
  rewrite <- search_date.
  destruct (search date_re text); split; intro H;
    try reflexivity; congruence.
Qed.

End Dates.

(* ------------------------------------------------------------------ *)
(** * Below an element *)

Section Below.
Import Bs4.

(** How deep the tree below a node goes. *)
Fixpoint depth (n : node) : nat :=
  match n with
  | Tag _ _ cs => S (list_max (map depth cs))
  | _ => 0
  end.

Lemma subtree_descendants n : subtree n = n :: descendants n.
Proof. now destruct n. Qed.

Lemma child_depth c cs : In c cs -> depth c <= list_max (map depth cs).
Proof.
  intro H. assert (L : list_max (map depth cs) <= list_max (map depth cs))
    by lia.
  apply list_max_le in L. rewrite Forall_forall in L.
  apply L. now apply in_map.
Qed.

Lemma descendants_trans_bounded k : forall x y z,
  depth x < k ->
  In y (descendants x) -> In z (descendants y) -> In z (descendants x).
Proof.
  induction k as [|k IH]; intros x y z D Hy Hz; [lia|].
  destruct x as [s|s|name attrs cs]; try destruct Hy.
  simpl in *. apply in_flat_map in Hy. destruct Hy as [c [Hc Hy]].
  apply in_flat_map. exists c. split; [exact Hc|].
  rewrite subtree_descendants in *. right.
  destruct Hy as [<-|Hy]; [exact Hz|].
  apply (IH c y z); auto. pose proof (child_depth c cs Hc). lia.
Qed.

(** What is below something below an element is below the element. *)
Lemma descendants_trans x y z :
  In y (descendants x) -> In z (descendants y) -> In z (descendants x).
Proof. apply (descendants_trans_bounded (S (depth x))). lia. Qed.

Lemma join_In sep l s : In s l -> substring s (join sep l).
Proof.
  induction l as [|x l IH]; intros []; simpl.
  - subst x. destruct l; [exists [], []; now rewrite app_nil_r|].
    now exists [], (sep ++ join sep (p :: l)).
  - destruct l as [|y l]; [contradiction|].
    destruct (IH H) as [a [b E]]. exists (x ++ sep ++ a), b.
    rewrite E. now rewrite <- !app_assoc.
Qed.

Lemma substring_trans a b c : substring a b -> substring b c -> substring a c.
Proof.
  intros [p [q ->]] [p' [q' ->]]. exists (p' ++ p), (q ++ q').
  now rewrite <- !app_assoc.
Qed.

End Below.

(* ------------------------------------------------------------------ *)
(** * The checks on the elements *)

Section Elements.
Import Re Bs4 Docx Checker Trace ReSem.
Context {U : Unicode} {O : SetOrder}.

Lemma join_empty_separator l : join [] l = concat l.
Proof.
  induction l as [|x [|y l] IH]; simpl in *;
    [reflexivity | now rewrite app_nil_r | now rewrite IH].
Qed.

Lemma truthy_false s : truthy s = false <-> s = [].
Proof. destruct s; simpl; split; congruence. Qed.

(** [get_text(strip=True)] is empty exactly when every text node below the
    element is white space. *)
Lemma stripped_text_empty n :
  get_text [] true n = [] <->
  forall s, In (NavigableString s) (descendants n) -> spaces s.
Proof.
  unfold get_text, all_strings. rewrite join_empty_separator.
  induction (descendants n) as [|d l IH]; simpl.
  - split; [intros _ s [] | reflexivity].
  - rewrite concat_app. split.
    + intros H s I. apply app_eq_nil in H. destruct H as [H1 H2].
      destruct I as [->|I]; [|now apply IH].
      apply strip_nil_iff. destruct (strip s); [reflexivity|].
      simpl in H1. discriminate.
    + intro H. rewrite (proj2 IH) by (intros s I; apply H; now right).
      rewrite app_nil_r. destruct d as [s| |]; try reflexivity.
      assert (S : spaces s) by (apply H; now left).
      apply strip_nil_iff in S. now rewrite S.
Qed.

(** [not td.get_text(strip=True)] *)
Definition blank_cell (td : node) : bool :=
  negb (truthy (get_text [] true td)).

(** When [check_html] returns, it has one empty-cell finding for every
    [td] element below which every text node is white space, a cell without
    any text node (one that holds only an image, say) included, and no
    other. *)
Theorem cell_findings (soup : node) (fs : list pystr) :
  check_html soup = Val fs ->
  filter (prefixed "TABLE") fs =
  map (fun _ => msg_empty_cell) (filter blank_cell (find_all [py "td"] soup))
  /\
  (forall td, blank_cell td = true <->
              forall s, In (NavigableString s) (descendants td) -> spaces s).
Proof.
  intro H. apply check_html_val in H. subst fs. split.
  - rewrite html_out_blocks. sieve. unfold cells_out.
    apply (flat_map_say blank_cell (fun _ => msg_empty_cell)).
  - intro td. unfold blank_cell.
    now rewrite negb_true_iff, truthy_false, stripped_text_empty.
Qed.

(** [run.bold or run.italic] *)
Definition emphasised (r : run) : bool := flag (bold r) || flag (italic r).

Lemma flat_map_flat_map {A B C} (f : A -> list B) (g : B -> list C) l :
  flat_map (fun x => flat_map g (f x)) l = flat_map g (flat_map f l).
Proof.
  induction l as [|x l IH]; simpl; [reflexivity|].
  now rewrite flat_map_app, IH.
Qed.

(** The FORMAT findings of [check_html] are one for every b, strong, i
    and em element, nested ones included, in document order; those of
    [check_docx] are one for every run that has bold or italic set to true,
    in order: a run that inherits its emphasis (None) or has it switched
    off (False) for both has none. *)
Theorem emphasis_findings :
  (forall soup fs,
      check_html soup = Val fs ->
      filter (prefixed "FORMAT") fs =
      map (fun tag => msg_format (get_text [] true tag))
          (find_all [py "b"; py "strong"; py "i"; py "em"] soup)) /\
  (forall doc fs,
      check_docx doc = Val fs ->
      filter (prefixed "FORMAT") fs =
      map (fun r => msg_format (strip (run_text r)))
          (filter emphasised (flat_map runs doc))) /\
  (forall r, emphasised r = true <->
             bold r = Some true \/ italic r = Some true).
Proof.
  split; [|split].
  - intros soup fs H. apply check_html_val in H. subst fs.
    rewrite html_out_blocks. sieve. apply flat_map_singleton.
  - intros doc fs H. apply check_docx_val in H. subst fs.
    rewrite docx_out_blocks. sieve. unfold docx_emphasis_out.
    rewrite <- (flat_map_say emphasised
                  (fun r => msg_format (strip (run_text r)))).
    apply (flat_map_flat_map runs
             (fun r => say (emphasised r) (msg_format (strip (run_text r))))).
  - intro r. unfold emphasised, flag. rewrite orb_true_iff.
    destruct (bold r) as [[|]|], (italic r) as [[|]|];
      split; intros [H|H]; auto; discriminate.
Qed.

(** [table.find("a")], as a truth value. *)
Definition has_link (table : node) : bool :=
  match find (py "a") table with Some _ => true | None => false end.

Lemma has_link_iff table :
  has_link table = true <->
  exists a, In a (descendants table) /\ named [py "a"] a = true.
Proof.
  unfold has_link, find, find_all.
  destruct (filter (named [py "a"]) (descendants table)) as [|a l] eqn:E;
    simpl.
  - split; [discriminate|]. intros [a [I Na]].
    assert (X : In a (filter (named [py "a"]) (descendants table)))
      by (apply filter_In; now split).
    rewrite E in X. destruct X.
  - split; [intros _ | reflexivity]. exists a.
    apply filter_In. rewrite E. now left.
Qed.

(** When [check_html] returns, it has one link-in-table finding for every
    [table] element that has an anchor anywhere below it, and no other; an
    anchor in a table inside a table counts for both. *)
Theorem table_link_findings (soup : node) (fs : list pystr) :
  check_html soup = Val fs ->
  filter (prefixed "STYLE: Link") fs =
  map (fun _ => msg_table_link)
      (filter has_link (find_all [py "table"] soup)) /\
  (forall table, has_link table = true <->
     exists a, In a (descendants table) /\ named [py "a"] a = true) /\
  (forall outer inner,
      In inner (descendants outer) -> has_link inner = true ->
      has_link outer = true).
Proof.
  intro H. apply check_html_val in H. subst fs. split; [|split].
  - rewrite html_out_blocks. sieve. unfold table_links_out.
    apply (flat_map_say has_link (fun _ => msg_table_link)).
  - exact has_link_iff.
  - intros outer inner I L. apply has_link_iff in L.
    destruct L as [a [Ia Na]]. apply has_link_iff. exists a.
    split; [|exact Na]. now apply (descendants_trans outer inner a).
Qed.

(** [not re.search(active, title.get_text())] *)
Definition passive (title : node) : bool :=
  negb (search active_re (get_text [] false title)).

(** When [check_html] returns, it has one title finding for every h1, h2
    and h3 element whose text has none of the active verbs as a word,
    quoting the text of the element with its strings stripped, in document
    order, and no other. *)
Theorem title_findings (soup : node) (fs : list pystr) :
  check_html soup = Val fs ->
  filter (prefixed "STYLE: Title") fs =
  map (fun title => msg_title (get_text [] true title))
      (filter passive (find_all [py "h1"; py "h2"; py "h3"] soup)) /\
  (forall title, passive title = true <->
                 ~ has_word active_verbs (get_text [] false title)).
Proof.
  intro H. apply check_html_val in H. subst fs. split.
  - rewrite html_out_blocks. sieve. unfold titles_out.
    apply (flat_map_say passive
             (fun title => msg_title (get_text [] true title))).
  - intro title. unfold passive.
    rewrite negb_true_iff, <- search_active.
    destruct (search active_re (get_text [] false title));
      split; congruence.
Qed.

End Elements.

(* ------------------------------------------------------------------ *)
(** * Categories *)

(** Takes a block of findings apart and leaves one goal for each message. *)
Ltac each_message :=
  repeat match goal with
  | |- Forall _ (_ ++ _) => apply Forall_app; split
  | |- Forall _ (flat_map _ _) =>
      apply Forall_flat_map, Forall_forall; intros ? _
  | |- Forall _ (Trace.say ?b _) => destruct b; cbn [Trace.say]
  | |- Forall _ (Trace.capital_out ?bp) =>
      destruct bp; cbn [Trace.capital_out]
  | |- Forall _ [] => constructor
  | |- Forall _ (_ :: _) => constructor
  end.

Section Categories.
Import Re Bs4 Docx Checker Trace.

(** The place of a message's category in the order BULLET, LANGUAGE, LINK,
    IMAGE, TABLE, FORMAT, ACRONYM, STYLE; 8 for a message of no category. *)
Definition rank (m : pystr) : nat :=
  if prefixed "BULLET: " m then 0
  else if prefixed "LANGUAGE: " m then 1
  else if prefixed "LINK: " m then 2
  else if prefixed "IMAGE: " m then 3
  else if prefixed "TABLE: " m then 4
  else if prefixed "FORMAT: " m then 5
  else if prefixed "ACRONYM: " m then 6
  else if prefixed "STYLE: " m then 7
  else 8.

Definition ranked (k : nat) (l : list pystr) : Prop :=
  Forall (fun m => rank m = k) l.

(** The categories of [l] never go down, and start at [k] or above. *)
Definition grouped (k : nat) (l : list pystr) : Prop :=
  StronglySorted le (map rank l) /\ Forall (fun m => k <= rank m) l.

Lemma grouped_nil k : grouped k [].
Proof. split; constructor. Qed.

Lemma grouped_block k k' l1 l2 :
  k <= k' -> ranked k l1 -> grouped k' l2 -> grouped k (l1 ++ l2).
Proof.
  intros L R [S F]. induction R as [|m l1 Hm R [IS IF]]; simpl.
  - split; [exact S|]. eapply Forall_impl; [|exact F]. simpl. intros. lia.
  - split.
    + constructor; [exact IS|]. rewrite Hm.
      apply Forall_map. exact IF.
    + constructor; [lia | exact IF].
Qed.

Context {U : Unicode} {O : SetOrder}.

Ltac block k k' :=
  apply (grouped_block k k');
  [ lia | unfold ranked; blocks; each_message; reflexivity | ].

Lemma html_out_grouped soup text : grouped 0 (html_out soup text).
Proof.
  rewrite html_out_blocks.
  block 0 0. block 0 1. block 1 1. block 1 1. block 1 1. block 1 2.
  block 2 3. block 3 4. block 4 5. block 5 6. block 6 7. block 7 7.
  block 7 7. block 7 7. block 7 7.
  rewrite <- (app_nil_r (titles_out soup)). block 7 7. apply grouped_nil.
Qed.

Lemma docx_out_grouped doc text : grouped 0 (docx_out doc text).
Proof.
  rewrite docx_out_blocks.
  block 0 1. block 1 1. block 1 1. block 1 1. block 1 5. block 5 6.
  block 6 7. block 7 7. block 7 7.
  rewrite <- (app_nil_r (slash_out text)). block 7 7. apply grouped_nil.
Qed.

Lemma html_out_categories soup text :
  Forall (fun m => rank m < 8) (html_out soup text).
Proof.
  rewrite html_out_blocks. blocks. each_message;
    match goal with |- rank ?m < 8 =>
      let r := eval lazy in (rank m) in change (r < 8); lia end.
Qed.

Lemma docx_out_categories doc text :
  Forall (fun m => In (rank m) [0; 1; 5; 6; 7]) (docx_out doc text).
Proof.
  rewrite docx_out_blocks. blocks. each_message;
    match goal with |- In (rank ?m) ?l =>
      let r := eval lazy in (rank m) in change (In r l); simpl; tauto end.
Qed.

(** Every finding of [check_html] starts with one of the eight category
    names, and the findings come grouped by category in the order BULLET,
    LANGUAGE, LINK, IMAGE, TABLE, FORMAT, ACRONYM, STYLE.  The same holds
    for [check_docx], which never has a LINK, IMAGE or TABLE finding. *)
Theorem findings_grouped_by_category :
  (forall soup fs,
      check_html soup = Val fs ->
      StronglySorted le (map rank fs) /\ Forall (fun m => rank m < 8) fs) /\
  (forall doc fs,
      check_docx doc = Val fs ->
      StronglySorted le (map rank fs) /\
      Forall (fun m => In (rank m) [0; 1; 5; 6; 7]) fs).
Proof.
  split.
  - intros soup fs H. apply check_html_val in H. subst fs. split.
    + apply html_out_grouped.
    + apply html_out_categories.
  - intros doc fs H. apply check_docx_val in H. subst fs. split.
    + apply docx_out_grouped.
    + apply docx_out_categories.
Qed.

End Categories.

(* ------------------------------------------------------------------ *)
(** * The two evaluators on the same text *)

Section SameText.
Import Re Bs4 Docx Checker Trace.
Context {U : Unicode} {O : SetOrder}.

(** A finding of one of the checks that read the extracted text only:
    the LANGUAGE and ACRONYM findings and, of STYLE, the date, the hyphen
    and the slash. *)
Definition text_finding (m : pystr) : bool :=
  prefixed "LANGUAGE: " m || prefixed "ACRONYM: " m ||
  prefixed "STYLE: No date" m || prefixed "STYLE: Hyphen" m ||
  prefixed "STYLE: Slash" m.

Lemma filter_none {A} (f : A -> bool) l :
  Forall (fun x => f x = false) l -> filter f l = [].
Proof.
  induction 1 as [|x l Hx _ IH]; simpl; [reflexivity|]. now rewrite Hx.
Qed.

Lemma filter_all {A} (f : A -> bool) l :
  Forall (fun x => f x = true) l -> filter f l = l.
Proof.
  induction 1 as [|x l Hx _ IH]; simpl; [reflexivity|]. now rewrite Hx, IH.
Qed.

Ltac sieve_text :=
  rewrite ?filter_app;
  repeat match goal with
  | |- context [filter text_finding ?l] =>
      first [ rewrite (filter_none text_finding l)
                by (blocks; each_message; reflexivity)
            | rewrite (filter_all text_finding l)
                by (blocks; each_message; reflexivity) ]
  end;
  rewrite ?app_nil_r; cbn [app].

Lemma text_findings_of text fs :
  evaluated text fs ->
  filter text_finding fs =
  please_out text ++ neg_contr_out text ++ directional_out text ++
  sentence_out text ++ acronyms_out text ++ date_out text ++
  hyphen_out text ++ slash_out text.
Proof.
  intros [[soup [H ->]]|[doc [H ->]]].
  - apply check_html_val in H. subst fs. rewrite html_out_blocks.
    now sieve_text.
  - apply check_docx_val in H. subst fs. rewrite docx_out_blocks.
    now sieve_text.
Qed.

(** The findings of the checks on the text depend on the extracted text
    alone: two documents with the same extracted text, markup or
    word-processor, evaluated with the same iteration order of the acronym
    set, have the same such findings in the same order. *)
Theorem text_findings_agree (text : pystr) (fs1 fs2 : list pystr) :
  evaluated text fs1 -> evaluated text fs2 ->
  filter text_finding fs1 = filter text_finding fs2.
Proof.
  intros E1 E2.
  now rewrite (text_findings_of _ _ E1), (text_findings_of _ _ E2).
Qed.

End SameText.

(* ------------------------------------------------------------------ *)
(** * Sentences *)

Section Sentences.
Import Re Bs4 Docx Checker Trace.
Context {U : Unicode} {O : SetOrder}.

(** The number of words read from [s] when [cur] is the word in progress. *)
Definition word_count (cur s : pystr) : nat :=
  length (PyStr.split_from cur s).

Lemma word_count_started s : forall cur1 cur2,
  cur1 <> [] -> cur2 <> [] -> word_count cur1 s = word_count cur2 s.
Proof.
  unfold word_count. induction s as [|c s IH]; intros cur1 cur2 H1 H2; simpl.
  - destruct cur1, cur2; try contradiction; reflexivity.
  - destruct (isspace c).
    + rewrite !length_app. destruct cur1, cur2; try contradiction; reflexivity.
    + apply IH; discriminate.
Qed.

Lemma word_count_fresh s cur : word_count [] s <= word_count cur s.
Proof.
  unfold word_count. destruct s as [|c s]; simpl; [lia|].
  destruct (isspace c).
  - rewrite length_app. simpl. lia.
  - destruct cur as [|d cur]; [lia|].
    fold (word_count [c] s). fold (word_count (c :: d :: cur) s).
    rewrite (word_count_started s [c] (c :: d :: cur)); [lia | |]; discriminate.
Qed.

Lemma word_count_positive s : forall cur,
  cur <> [] -> 1 <= word_count cur s.
Proof.
  unfold word_count. induction s as [|c s IH]; intros cur H; simpl.
  - destruct cur; [contradiction | simpl; lia].
  - destruct (isspace c).
    + rewrite length_app. destruct cur; [contradiction | simpl; lia].
    + apply IH. discriminate.
Qed.

Lemma word_count_prefix a s : word_count [] s <= word_count [] (a ++ s).
Proof.
  induction a as [|c a IH]; [simpl; lia|].
  unfold word_count in *. simpl. destruct (isspace c); simpl; [exact IH|].
  pose proof (word_count_fresh (a ++ s) [c]) as F. unfold word_count in F. lia.
Qed.

Lemma word_count_suffix s b : forall cur,
  word_count cur s <= word_count cur (s ++ b).
Proof.
  unfold word_count. induction s as [|c s IH]; intro cur; simpl.
  - destruct cur as [|d cur]; simpl; [lia|].
    apply (word_count_positive b (d :: cur)). discriminate.
  - destruct (isspace c).
    + rewrite !length_app. specialize (IH []). lia.
    + apply IH.
Qed.

(** A part of a text has no more words than the text. *)
Lemma word_count_substring p s :
  substring p s -> length (PyStr.split p) <= length (PyStr.split s).
Proof.
  intros [a [b ->]]. unfold PyStr.split.
  pose proof (word_count_suffix p b []) as H1.
  pose proof (word_count_prefix a (p ++ b)) as H2.
  unfold word_count in *. lia.
Qed.

(** Every piece that [re.split] returns is a part of the text. *)
Lemma split_from_substring r piece rest : forall skip cur prev,
  skip = 0 \/ cur = [] ->
  In piece (Re.split_from r skip cur prev rest) ->
  substring piece (rev cur ++ rest).
Proof.
  induction rest as [|c rest IH]; intros skip cur prev Inv H.
  - assert (E : piece = rev cur).
    { destruct skip; simpl in H.
      - destruct (match_here r prev []) as [[|? ?]|]; simpl in H;
          destruct H as [H|[]]; now symmetry.
      - destruct H as [H|[]]. now symmetry. }
    subst piece. exists [], []. now rewrite !app_nil_r.
  - assert (Keep : In piece (Re.split_from r 0 (c :: cur) (Some c) rest) ->
                   substring piece (rev cur ++ c :: rest)).
    { intro K. apply IH in K; [|now left]. simpl in K.
      now rewrite <- app_assoc in K. }
    assert (Drop : forall n, In piece (Re.split_from r n [] (Some c) rest) ->
                   substring piece (rev cur ++ c :: rest)).
    { intros n K. apply IH in K; [|now right]. simpl in K.
      destruct K as [a [b ->]]. exists (rev cur ++ c :: a), b.
      now rewrite <- app_assoc. }
    destruct skip as [|n]; simpl in H.
    + destruct (match_here r prev (c :: rest)) as [[|x m']|];
        [now apply Keep | | now apply Keep].
      destruct H as [<-|H]; [|now apply (Drop (length m'))].
      exists [], (c :: rest). reflexivity.
    + destruct Inv as [Inv | ->]; [discriminate|]. now apply (Drop n).
Qed.

Lemma sentence_sieve text fs :
  evaluated text fs ->
  filter (prefixed "LANGUAGE: Long") fs = sentence_out text.
Proof.
  intros [[soup [H ->]]|[doc [H ->]]].
  - apply check_html_val in H. subst fs. rewrite html_out_blocks. now sieve.
  - apply check_docx_val in H. subst fs. rewrite docx_out_blocks. now sieve.
Qed.

(** [len(sentence.split()) > 26] *)
Definition long (sentence : pystr) : bool :=
  26 <? length (PyStr.split sentence).


End Sentences.

(* ------------------------------------------------------------------ *)
(** * Extensions *)

Section Extensions.
Import Checker.
Open Scope Z_scope.

Lemma rfind_from_none c p : forall i best,
  ~ In c p -> rfind_from c p i best = best.
Proof.
  induction p as [|x p IH]; intros i best H; simpl; [reflexivity|].
  rewrite IH by (intro K; apply H; now right).
  destruct (N.eqb_spec x c) as [->|_]; [|reflexivity].
  exfalso. apply H. now left.
Qed.

Lemma rfind_from_last c a b : forall i best,
  ~ In c b ->
  rfind_from c (a ++ c :: b) i best = i + Z.of_nat (length a).
Proof.
  induction a as [|x a IH]; intros i best H.
  - simpl. rewrite N.eqb_refl, rfind_from_none by exact H. lia.
  - simpl app. simpl rfind_from. rewrite IH by exact H.
    rewrite length_cons. lia.
Qed.

Lemma rfind_none c p : ~ In c p -> rfind c p = -1.
Proof. apply rfind_from_none. Qed.

Lemma rfind_last c a b :
  ~ In c b -> rfind c (a ++ c :: b) = Z.of_nat (length a).
Proof. intro H. unfold rfind. now rewrite rfind_from_last. Qed.

(** A string without [c], or the string cut at its last [c]. *)
Lemma last_occurrence c (p : pystr) :
  ~ In c p \/ exists a b, p = a ++ c :: b /\ ~ In c b.
Proof.
  induction p as [|x p [H|[a [b [-> H]]]]].
  - left. intros [].
  - destruct (N.eq_dec x c) as [->|D].
    + right. now exists [], p.
    + left. intros [K|K]; contradiction.
  - right. now exists (x :: a), b.
Qed.

Lemma skipn_app_length {A} (a b : list A) : skipn (length a) (a ++ b) = b.
Proof. induction a; simpl; auto. Qed.

Lemma firstn_app_length {A} (a b : list A) : firstn (length a) (a ++ b) = a.
Proof. induction a; simpl; [reflexivity | now f_equal]. Qed.

Lemma splitext_facts (p : pystr) :
  fst (splitext p) ++ snd (splitext p) = p /\
  (snd (splitext p) = [] \/
   exists e, snd (splitext p) = 46%N :: e /\
             ~ In 46%N e /\ ~ In 47%N e) /\
  (forall dir name e,
      p = dir ++ name ++ 46%N :: e ->
      dir = [] \/ (exists d, dir = d ++ [47%N]) ->
      ~ In 47%N name -> (exists x, In x name /\ x <> 46%N) ->
      ~ In 46%N e -> ~ In 47%N e ->
      splitext p = (dir ++ name, 46%N :: e)) /\
  (forall dir name,
      p = dir ++ name ->
      dir = [] \/ (exists d, dir = d ++ [47%N]) ->
      ~ In 47%N name ->
      ~ In 46%N name \/ (forall x, In x name -> x = 46%N) \/
      (exists e, name = 46%N :: e /\ ~ In 46%N e) ->
      splitext p = (p, [])).
Proof.
  split; [|split; [|split]].
  - unfold splitext.
    destruct (rfind 47 p <? rfind 46 p); [|apply app_nil_r].
    destruct (forallb _ _); [apply app_nil_r | apply firstn_skipn].
  - unfold splitext.
    destruct (Z.ltb_spec (rfind 47 p) (rfind 46 p)) as [L|L]; [|now left].
    destruct (forallb _ _); [now left|]. right. cbn [snd].
    destruct (last_occurrence 46%N p) as [H|[a [b [-> H]]]].
    { rewrite (rfind_none _ _ H) in L.
      assert (-1 <= rfind 47 p).
      { destruct (last_occurrence 47%N p) as [K|[a' [b' [-> K]]]].
        - rewrite (rfind_none _ _ K). lia.
        - rewrite (rfind_last _ _ _ K). lia. }
      lia. }
    rewrite (rfind_last _ _ _ H) in *. rewrite Nat2Z.id, skipn_app_length.
    exists b. split; [reflexivity|]. split; [exact H|].
    intro K. apply in_split in K. destruct K as [b1 [b2 ->]].
    destruct (last_occurrence 47%N b2) as [K|[a' [b' [-> K]]]].
    + replace (a ++ 46%N :: b1 ++ 47%N :: b2)
        with ((a ++ 46%N :: b1) ++ 47%N :: b2) in L
        by (now rewrite <- app_assoc).
      rewrite (rfind_last _ _ _ K) in L.
      rewrite length_app in L. simpl in L. lia.
    + replace (a ++ 46%N :: b1 ++ 47%N :: a' ++ 47%N :: b')
        with ((a ++ 46%N :: b1 ++ 47%N :: a') ++ 47%N :: b') in L
        by (rewrite <- app_assoc; simpl; now rewrite <- app_assoc).
      rewrite (rfind_last _ _ _ K) in L.
      rewrite !length_app in L. simpl in L. rewrite length_app in L. lia.
  - intros dir name e -> Hd Hn [x [Hx Nx]] He1 He2. unfold splitext.
    assert (D : rfind 46 (dir ++ name ++ 46%N :: e)
                = Z.of_nat (length (dir ++ name))).
    { rewrite app_assoc. now apply rfind_last. }
    assert (S : rfind 47 (dir ++ name ++ 46%N :: e)
                = Z.of_nat (length dir) - 1).
    { assert (T : ~ In 47%N (name ++ 46%N :: e)).
      { rewrite in_app_iff. intros [K|[K|K]]; try contradiction.
        discriminate. }
      destruct Hd as [->|[d ->]].
      - simpl. rewrite (rfind_none _ _ T). lia.
      - rewrite <- app_assoc. simpl app at 2.
        rewrite (rfind_last _ _ _ T), length_app. simpl. lia. }
    rewrite D, S, length_app.
    destruct (Z.ltb_spec (Z.of_nat (length dir) - 1)
                (Z.of_nat (length dir + length name))) as [_|L]; [|lia].
    unfold slice.
    replace (Z.to_nat (Z.of_nat (length dir) - 1 + 1)) with (length dir)
      by lia.
    replace (Z.to_nat (Z.of_nat (length dir + length name) -
                       (Z.of_nat (length dir) - 1 + 1)))
      with (length name) by lia.
    rewrite skipn_app_length, firstn_app_length.
    assert (F : forallb (N.eqb 46) name = false).
    { destruct (forallb (N.eqb 46) name) eqn:F; [|reflexivity].
      rewrite forallb_forall in F. specialize (F x Hx).
      apply N.eqb_eq in F. congruence. }
    rewrite F, Nat2Z.id, <- length_app.
    rewrite (app_assoc dir name), firstn_app_length, skipn_app_length.
    reflexivity.
  - intros dir name -> Hd Hn Hdots. unfold splitext.
    assert (S : rfind 47 (dir ++ name) = Z.of_nat (length dir) - 1).
    { destruct Hd as [->|[d ->]].
      - simpl. rewrite (rfind_none _ _ Hn). lia.
      - rewrite <- app_assoc. simpl app at 2.
        rewrite (rfind_last _ _ _ Hn), length_app. simpl. lia. }
    rewrite S.
    destruct (Z.ltb_spec (Z.of_nat (length dir) - 1) (rfind 46 (dir ++ name)))
      as [L|_]; [|reflexivity].
    unfold slice.
    replace (Z.to_nat (Z.of_nat (length dir) - 1 + 1)) with (length dir)
      by lia.
    rewrite skipn_app_length.
    destruct (last_occurrence 46%N name) as [H|[a [b [E H]]]].
    + (* no dot in the name: the last dot is in the directory *)
      exfalso. destruct (last_occurrence 46%N dir) as [K|[a' [b' [-> K]]]].
      * rewrite rfind_none in L; [lia|].
        rewrite in_app_iff. tauto.
      * rewrite <- app_assoc in L. simpl app in L.
        rewrite rfind_last in L
          by (rewrite in_app_iff; tauto).
        rewrite length_app in L. simpl in L. lia.
    + subst name. rewrite app_assoc, (rfind_last _ _ _ H), length_app.
      replace (Z.to_nat (Z.of_nat (length dir + length a) -
                         (Z.of_nat (length dir) - 1 + 1)))
        with (length a) by lia.
      rewrite firstn_app_length.
      assert (F : forallb (N.eqb 46) a = true).
      { destruct Hdots as [No|[All|[e [E N]]]].
        - exfalso. apply No. rewrite in_app_iff. right. now left.
        - apply forallb_forall. intros x Hx. apply N.eqb_eq. symmetry.
          apply All. rewrite in_app_iff. now left.
        - destruct a as [|y a]; [reflexivity|]. exfalso.
          inversion E; subst. apply N. rewrite in_app_iff. right. now left. }
      now rewrite F, <- app_assoc.
Qed.

(** [os.path.splitext] cuts the path in two: root and extension put
    together give the path back; the extension is empty or a dot followed by
    characters that are neither dots nor slashes; and a path whose last
    component is a name with something other than dots in it, a dot, and an
    ending without dot or slash, has that dot and ending as its extension,
    while a last component without a dot, made of dots only, or starting
    with its only dot, has none. *)
Theorem splitext_parts (p : pystr) :
  fst (splitext p) ++ snd (splitext p) = p /\
  (snd (splitext p) = [] \/
   exists e, snd (splitext p) = 46%N :: e /\
             ~ In 46%N e /\ ~ In 47%N e) /\
  (forall dir name e,
      p = dir ++ name ++ 46%N :: e ->
      dir = [] \/ (exists d, dir = d ++ [47%N]) ->
      ~ In 47%N name -> (exists x, In x name /\ x <> 46%N) ->
      ~ In 46%N e -> ~ In 47%N e ->
      splitext p = (dir ++ name, 46%N :: e)) /\
  (forall dir name,
      p = dir ++ name ->
      dir = [] \/ (exists d, dir = d ++ [47%N]) ->
      ~ In 47%N name ->
      ~ In 46%N name \/ (forall x, In x name -> x = 46%N) \/
      (exists e, name = 46%N :: e /\ ~ In 46%N e) ->
      splitext p = (p, [])).
Proof. exact (splitext_facts p). Qed.

End Extensions.

(* ------------------------------------------------------------------ *)
(** * What [main] prints *)

Section Report.
Import Re Bs4 Docx Checker Trace.
Context {U : Unicode} {O : SetOrder}.

Lemma py_inj a b : py a = py b -> a = b.
Proof.
  unfold py. intro H. apply (f_equal (map ascii_of_N)) in H.
  rewrite !map_map in H.
  rewrite (map_ext _ (fun x => x) ascii_N_embedding), map_id in H.
  rewrite (map_ext _ (fun x => x) ascii_N_embedding), map_id in H.
  apply (f_equal string_of_list_ascii) in H.
  now rewrite !string_of_list_ascii_of_string in H.
Qed.

(** The decimal numeral of a count determines the count. *)
Lemma str_of_nat_inj n m : str_of_nat n = str_of_nat m -> n = m.
Proof.
  unfold str_of_nat. intro H. apply py_inj in H.
  apply (f_equal NilEmpty.uint_of_string) in H.
  rewrite !NilEmpty.usu in H. inversion H as [E].
  apply (f_equal Nat.of_uint) in E.
  now rewrite !DecimalNat.Unsigned.of_to in E.
Qed.

(** Called with one path that names a file with one of the three
    extensions, [main] prints nothing at all when the loader or the
    evaluation raises, and ends with that exception; otherwise it prints
    the header, the findings in their order and the total, which determines
    their number.  A markup file with a list item of white space is such a
    failure; a word-processor file that loads is always reported on.  With
    any other number of arguments [main] prints the usage line only. *)
Theorem main_reports (w : World) (prog file_path : pystr) :
  isfile w file_path = true ->
  (lower (snd (splitext file_path)) = py ".htm" \/
   lower (snd (splitext file_path)) = py ".html" ->
   (load_html w file_path = None ->
    main w [prog; file_path] = ([], Some LoadError)) /\
   (forall soup,
       load_html w file_path = Some soup ->
       (forall fs, check_html soup = Val fs ->
                   main w [prog; file_path] =
                   (msg_header :: fs ++ [msg_total (length fs)], None)) /\
       ((exists li, In li (find_all [py "li"] soup) /\
                    get_text [] false li <> [] /\
                    spaces (get_text [] false li)) ->
        main w [prog; file_path] = ([], Some IndexError)))) /\
  (lower (snd (splitext file_path)) = py ".docx" ->
   (load_docx w file_path = None ->
    main w [prog; file_path] = ([], Some LoadError)) /\
   (forall doc,
       load_docx w file_path = Some doc ->
       exists fs, check_docx doc = Val fs /\
                  main w [prog; file_path] =
                  (msg_header :: fs ++ [msg_total (length fs)], None))) /\
  (forall n m, msg_total n = msg_total m -> n = m) /\
  (forall argv, length argv <> 2 -> main w argv = ([msg_usage], None)).
Proof.
  intro F. split; [|split; [|split]].
  - intro E.
    assert (X : existsb (PyStr.eqb (lower (snd (splitext file_path))))
                  [py ".htm"; py ".html"] = true).
    { apply existsb_exists. destruct E as [E|E]; rewrite E.
      - exists (py ".htm"). split; [now left | apply pystr_eqb_refl].
      - exists (py ".html"). split; [right; now left | apply pystr_eqb_refl]. }
    unfold main. cbn [length Nat.eqb negb nth]. rewrite F. cbn [negb].
    rewrite X. split.
    + intros ->. reflexivity.
    + intros soup ->. split.
      * intros fs ->. reflexivity.
      * intros [li [I [Ne Sp]]].
        assert (B : existsb blank (bullet_points soup) = true).
        { apply existsb_exists. exists (get_text [] false li). split.
          - unfold bullet_points. now apply in_map.
          - now apply blank_iff. }
        rewrite check_html_eq, B. reflexivity.
  - intro E.
    assert (X : existsb (PyStr.eqb (lower (snd (splitext file_path))))
                  [py ".htm"; py ".html"] = false).
    { rewrite E. reflexivity. }
    unfold main. cbn [length Nat.eqb negb nth]. rewrite F. cbn [negb].
    rewrite X, E, pystr_eqb_refl. split.
    + intros ->. reflexivity.
    + intros doc ->. rewrite check_docx_eq. eexists. split; reflexivity.
  - intros n m H. unfold msg_total in H.
    apply app_inv_head in H. apply app_inv_head in H.
    now apply str_of_nat_inj.
  - intros argv H. unfold main.
    destruct (Nat.eqb_spec (length argv) 2); [contradiction | reflexivity].
Qed.

End Report.

(* ------------------------------------------------------------------ *)
(** * The upload front end *)

Module App.
Import Re Bs4 Docx Checker.

(** What one run of [govuk_checker_app.py] does that can be seen from
    outside: the page elements it writes, the temporary file it saves and
    the file it removes. *)
Inductive event : Type :=
| Title (s : pystr)          (* st.title *)
| Save (path : pystr)        (* NamedTemporaryFile(delete=False, ...) and write *)
| Subheader (s : pystr)      (* st.subheader *)
| Write (s : pystr)          (* st.write *)
| Remove (path : pystr).     (* os.remove *)

Definition msg_title := py "GOV.UK Style & Content Checker".
Definition msg_findings := py "Findings".
Definition msg_unsupported_upload := py "Unsupported file type.".
Definition msg_no_issues := py "No issues found.".
Definition msg_total_bold (n : nat) := py "**Total findings:** " ++ str_of_nat n.

(** Lines 25-30: the findings and their total, or the one line that there
    are none. *)
Definition report (findings : list pystr) : list event :=
  match findings with
  | [] => [Write msg_no_issues]
  | _ :: _ => map Write findings ++ [Write (msg_total_bold (length findings))]
  end.

Section Run.
Context {U : Unicode} {O : SetOrder}.

(** One run of the script: [uploaded_file] is the name of the uploaded
    file if there is one, [tmpname suffix] the path of the temporary file
    made for a suffix, and the loaders of [w] read the temporary file. *)
Definition run (w : World) (tmpname : pystr -> pystr)
    (uploaded_file : option pystr) : list event * option exn :=
  match uploaded_file with
  | None => ([Title msg_title], None)
  | Some name =>
      let tmp_path := tmpname (snd (splitext name)) in
      let ext := lower (snd (splitext tmp_path)) in
      let checked :=
        if existsb (PyStr.eqb ext) [py ".htm"; py ".html"] then
          match load_html w tmp_path with
          | Some soup => check_html soup
          | None => Exn LoadError
          end
        else if PyStr.eqb ext (py ".docx") then
          match load_docx w tmp_path with
          | Some doc => check_docx doc
          | None => Exn LoadError
          end
        else Val [msg_unsupported_upload] in
      match checked with
      | Exn e => ([Title msg_title; Save tmp_path], Some e)
      | Val findings =>
          ([Title msg_title; Save tmp_path; Subheader msg_findings] ++
           report findings ++ [Remove tmp_path], None)
      end
  end.

End Run.

End App.

Section Upload.
Import Re Bs4 Docx Checker Trace App.
Context {U : Unicode} {O : SetOrder}.

(** A run of the upload front end on an uploaded file either ends with
    an exception, and then it has written the title and saved the temporary
    file and nothing more: the temporary file is not removed; or it
    completes, writes the findings section and removes the temporary file
    it saved as its last step.  A temporary path with none of the three
    extensions is reported as one finding, "Unsupported file type.", with a
    total of 1; a markup file with a list item of white space is a run of
    the first kind. *)
Theorem upload_outcomes (w : World) (tmpname : pystr -> pystr) (name : pystr) :
  let tmp_path := tmpname (snd (splitext name)) in
  let ext := lower (snd (splitext tmp_path)) in
  let r := run w tmpname (Some name) in
  (forall e, snd r = Some e ->
             fst r = [Title msg_title; Save tmp_path] /\
             ~ In (Remove tmp_path) (fst r)) /\
  (snd r = None ->
   exists findings,
     fst r = [Title msg_title; Save tmp_path; Subheader msg_findings] ++
             report findings ++ [Remove tmp_path]) /\
  (ext <> py ".htm" -> ext <> py ".html" -> ext <> py ".docx" ->
   r = ([Title msg_title; Save tmp_path; Subheader msg_findings;
         Write msg_unsupported_upload; Write (msg_total_bold 1);
         Remove tmp_path], None)) /\
  (ext = py ".htm" \/ ext = py ".html" ->
   forall soup, load_html w tmp_path = Some soup ->
     (exists li, In li (find_all [py "li"] soup) /\
                 get_text [] false li <> [] /\
                 spaces (get_text [] false li)) ->
     r = ([Title msg_title; Save tmp_path], Some IndexError)).
Proof.
  intros tmp_path ext r. unfold r, run. fold tmp_path. fold ext.
  split; [|split; [|split]].
  - intros e.
    destruct (if existsb (PyStr.eqb ext) [py ".htm"; py ".html"]
              then _ else _) as [fs|e']; cbn [fst snd]; [discriminate|].
    intros _. split; [reflexivity|].
    intros [H|[H|[]]]; discriminate.
  - destruct (if existsb (PyStr.eqb ext) [py ".htm"; py ".html"]
              then _ else _) as [fs|e']; cbn [fst snd]; [|discriminate].
    intros _. now exists fs.
  - intros H1 H2 H3. cbn [existsb].
    now rewrite (pystr_eqb_neq _ _ H1), (pystr_eqb_neq _ _ H2),
      (pystr_eqb_neq _ _ H3).
  - intros E soup L [li [I [Ne Sp]]].
    assert (X : existsb (PyStr.eqb ext) [py ".htm"; py ".html"] = true).
    { apply existsb_exists. destruct E as [E|E]; rewrite E.
      - exists (py ".htm"). split; [now left | apply pystr_eqb_refl].
      - exists (py ".html"). split; [right; now left | apply pystr_eqb_refl]. }
    rewrite X, L.
    assert (B : existsb blank (bullet_points soup) = true).
    { apply existsb_exists. exists (get_text [] false li). split.
      - unfold bullet_points. now apply in_map.
      - now apply blank_iff. }
    rewrite check_html_eq, B. reflexivity.
Qed.

(** The front end dispatches on the extension of the uploaded file's name:
    when the temporary path is a directory, a name without dot or slash and
    the suffix it was asked for, its extension is that of the uploaded
    name. *)
Theorem upload_keeps_extension (tmpname : pystr -> pystr)
    (dir stem name : pystr) :
  tmpname (snd (splitext name)) = dir ++ stem ++ snd (splitext name) ->
  dir = [] \/ (exists d, dir = d ++ [47%N]) ->
  stem <> [] -> ~ In 46%N stem -> ~ In 47%N stem ->
  snd (splitext (tmpname (snd (splitext name)))) = snd (splitext name).
Proof.
  intros -> Hd Hs N46 N47.
  destruct (splitext_facts name) as [_ [[E|[e [E [Ne1 Ne2]]]] _]]; rewrite E.
  - rewrite app_nil_r.
    destruct (splitext_facts (dir ++ stem)) as [_ [_ [_ P]]].
    rewrite (P dir stem eq_refl Hd N47); [reflexivity | now left].
  - destruct (splitext_facts (dir ++ stem ++ 46%N :: e)) as [_ [_ [P _]]].
    rewrite (P dir stem e eq_refl Hd N47); auto.
    destruct stem as [|x stem]; [contradiction|].
    exists x. split; [now left|]. intros ->. apply N46. now left.
Qed.

End Upload.

(* ------------------------------------------------------------------ *)
(** * Two documents to evaluate *)

Module Survey.
Import Bs4 Docx Samples.

(** A page with headings, a lead-in and its list, a table and emphasis. *)
Definition page : node :=
  Samples.page
    [el "h1" [txt "Read the survey"];
     el "h2" [txt "Background"];
     el "p" [txt "Please see the notes above/below, published 21 September 2025:"];
     el "ul" [el "li" [txt "First item."]; el "li" [txt "second item"];
              el "li" []];
     el "table"
        [el "tr" [el "td" [el "a" [txt "Download the data"]];
                  el "td" [txt " "];
                  el "td" [Tag (py "img") [(py "alt", py "notes")] []]]];
     el "p" [el "b" [el "i" [txt "very"]]; txt " important"]].

Definition outcome (r : Checker.outcome (list pystr)) : list pystr :=
  match r with Checker.Val fs => fs | Checker.Exn _ => [] end.

Definition page_findings : list pystr :=
  Eval vm_compute in
    outcome (Checker.check_html (U:=Tables.basic) (O:=first_order) page).

Definition paragraph_of (style : string) (t : string) (rs : list run)
    : paragraph :=
  {| style_name := py style; Docx.text := py t; runs := rs |}.

Definition run_of (b i : option bool) (t : string) : run :=
  {| bold := b; italic := i; run_text := py t |}.

(** A memo with a heading, two list paragraphs and a body paragraph. *)
Definition memo : document :=
  [paragraph_of "Heading 1" "Quarterly memo" [run_of None None "Quarterly memo"];
   paragraph_of "List Bullet" "first point"
     [run_of (Some true) None " first "; run_of None (Some false) "point"];
   paragraph_of "List Paragraph" "  " [];
   paragraph_of "Normal" "Please read the NHS report, dated 21 September 2025."
     [run_of None (Some true) "Please"; run_of None None " read the NHS report"]].

Definition memo_findings : list pystr :=
  Eval vm_compute in
    outcome (Checker.check_docx (U:=Tables.basic) (O:=first_order) memo).

(** The text of the memo as a page, paragraph by paragraph. *)
Definition memo_page : node :=
  Samples.page
    [el "h1" [txt "Quarterly memo"];
     el "p" [txt "first point"];
     el "p" [txt "  "];
     el "p" [txt "Please read the NHS report, dated 21 September 2025."]].

Definition memo_page_findings : list pystr :=
  Eval vm_compute in
    outcome (Checker.check_html (U:=Tables.basic) (O:=first_order) memo_page).

End Survey.

Lemma survey_page_checked :
  Checker.check_html (U:=Tables.basic) (O:=first_order) Survey.page =
  Checker.Val Survey.page_findings.
Proof. vm_compute. reflexivity. Defined.

Lemma survey_memo_checked :
  Checker.check_docx (U:=Tables.basic) (O:=first_order) Survey.memo =
  Checker.Val Survey.memo_findings.
Proof. vm_compute. reflexivity. Defined.

Lemma survey_page_evaluated :
  evaluated (U:=Tables.basic) (O:=first_order)
    (Bs4.get_text (U:=Tables.basic) nl false Survey.page)
    Survey.page_findings.
Proof. left. exists Survey.page. split; [exact survey_page_checked | reflexivity]. Defined.

Lemma survey_memo_evaluated :
  evaluated (U:=Tables.basic) (O:=first_order)
    (join nl (map Docx.text Survey.memo)) Survey.memo_findings.
Proof.
  right. exists Survey.memo. split; [exact survey_memo_checked | reflexivity].
Defined.

Lemma survey_memo_page_evaluated :
  evaluated (U:=Tables.basic) (O:=first_order)
    (join nl (map Docx.text Survey.memo)) Survey.memo_page_findings.
Proof.
  left. exists Survey.memo_page. split; vm_compute; reflexivity.
Defined.

Lemma has_nonspace {U : Unicode} (t : pystr) :
  existsb (fun c => negb (isspace c)) t = true ->
  exists c, In c t /\ isspace c = false.
Proof.
  intro H. apply existsb_exists in H. destruct H as [c [I H]].
  exists c. split; [exact I | now destruct (isspace c)].
Defined.

Lemma check_html_returns_iff_witness :
  exists fs, Checker.check_html (U:=Tables.basic) (O:=first_order)
               Survey.page = Checker.Val fs.
Proof.
  apply (proj2 (proj1 (check_html_returns_iff (U:=Tables.basic)
                         (O:=first_order) Survey.page))).
  intros li H. vm_compute in H.
  repeat (destruct H as [<-|H];
          [first [left; reflexivity
                 |right; apply has_nonspace; vm_compute; reflexivity]|]).
  destruct H.
Defined.

Lemma html_bullet_findings_witness :
  filter (prefixed "BULLET: Does not") Survey.page_findings =
  flat_map (fun li => Trace.bullet_out (U:=Tables.basic)
                        (strip (U:=Tables.basic)
                           (Bs4.get_text (U:=Tables.basic) [] false li)))
           (Bs4.find_all [py "li"] Survey.page).
Proof.
  apply (html_bullet_findings (U:=Tables.basic) (O:=first_order)
           Survey.page Survey.page_findings).
  exact survey_page_checked.
Defined.

Lemma docx_bullet_findings_witness :
  filter (prefixed "BULLET") Survey.memo_findings =
  flat_map (fun para => Trace.bullet_out (U:=Tables.basic)
                          (strip (U:=Tables.basic) (Docx.text para)))
           (filter (fun para => startswith (Docx.style_name para) (py "List"))
                   Survey.memo).
Proof.
  apply (docx_bullet_findings (U:=Tables.basic) (O:=first_order)
           Survey.memo Survey.memo_findings).
  exact survey_memo_checked.
Defined.

Lemma lead_in_findings_witness :
  filter (prefixed "BULLET: List") Survey.page_findings =
  map (fun _ => Checker.msg_lead_in)
      (filter (fun ul => Checker.no_lead_in (U:=Tables.basic) (snd ul))
              (Trace.uls_with_previous Survey.page)).
Proof.
  apply (lead_in_findings (U:=Tables.basic) (O:=first_order)
           Survey.page Survey.page_findings).
  exact survey_page_checked.
Defined.

Lemma please_finding_witness :
  filter (prefixed "LANGUAGE: Found instance") Survey.page_findings =
  [Checker.msg_please].
Proof.
  refine (proj1 (please_finding (U:=Tables.basic) (O:=first_order) _ _
                   survey_page_evaluated) _).
  apply (search_word (U:=Tables.basic)). vm_compute. reflexivity.
Defined.

Lemma directional_findings_witness :
  In (Checker.msg_word (py "above")) Survey.page_findings <->
  ReSem.has_word (U:=Tables.basic) [py "above"]
    (Bs4.get_text (U:=Tables.basic) nl false Survey.page).
Proof.
  apply (directional_findings (U:=Tables.basic) (O:=first_order) _ _
           survey_page_evaluated).
Defined.

Lemma slash_finding_witness :
  filter (prefixed "STYLE: Slash") Survey.page_findings = [Checker.msg_slash].
Proof.
  refine (proj1 (slash_finding (U:=Tables.basic) (O:=first_order) _ _
                   survey_page_evaluated) _).
  apply contains_char. vm_compute. reflexivity.
Defined.

Lemma date_finding_witness :
  filter (prefixed "STYLE: No date") Survey.page_findings = [].
Proof.
  refine (proj1 (date_finding (U:=Tables.basic) (O:=first_order) _ _
                   survey_page_evaluated) _).
  apply (search_date (U:=Tables.basic)). vm_compute. reflexivity.
Defined.

Lemma cell_findings_witness :
  filter (prefixed "TABLE") Survey.page_findings =
  map (fun _ => Checker.msg_empty_cell)
      (filter (blank_cell (U:=Tables.basic))
              (Bs4.find_all [py "td"] Survey.page)).
Proof.
  apply (cell_findings (U:=Tables.basic) (O:=first_order)
           Survey.page Survey.page_findings).
  exact survey_page_checked.
Defined.

Lemma emphasis_findings_witness :
  filter (prefixed "FORMAT") Survey.page_findings =
  map (fun tag => Checker.msg_format
                    (Bs4.get_text (U:=Tables.basic) [] true tag))
      (Bs4.find_all [py "b"; py "strong"; py "i"; py "em"] Survey.page) /\
  filter (prefixed "FORMAT") Survey.memo_findings =
  map (fun r => Checker.msg_format
                  (strip (U:=Tables.basic) (Docx.run_text r)))
      (filter emphasised (flat_map Docx.runs Survey.memo)).
Proof.
  split.
  - apply (proj1 (emphasis_findings (U:=Tables.basic) (O:=first_order))).
    exact survey_page_checked.
  - apply (proj1 (proj2 (emphasis_findings (U:=Tables.basic)
                           (O:=first_order)))).
    exact survey_memo_checked.
Defined.

Lemma table_link_findings_witness :
  filter (prefixed "STYLE: Link") Survey.page_findings =
  map (fun _ => Checker.msg_table_link)
      (filter has_link (Bs4.find_all [py "table"] Survey.page)).
Proof.
  apply (table_link_findings (U:=Tables.basic) (O:=first_order)
           Survey.page Survey.page_findings).
  exact survey_page_checked.
Defined.

Lemma title_findings_witness :
  filter (prefixed "STYLE: Title") Survey.page_findings =
  map (fun title => Checker.msg_title
                      (Bs4.get_text (U:=Tables.basic) [] true title))
      (filter (passive (U:=Tables.basic))
              (Bs4.find_all [py "h1"; py "h2"; py "h3"] Survey.page)).
Proof.
  apply (title_findings (U:=Tables.basic) (O:=first_order)
           Survey.page Survey.page_findings).
  exact survey_page_checked.
Defined.

Lemma findings_grouped_by_category_witness :
  StronglySorted le (map rank Survey.page_findings) /\
  Forall (fun m => In (rank m) [0; 1; 5; 6; 7]) Survey.memo_findings.
Proof.
  split.
  - apply (proj1 (findings_grouped_by_category (U:=Tables.basic)
                    (O:=first_order)) Survey.page).
    exact survey_page_checked.
  - apply (proj2 (findings_grouped_by_category (U:=Tables.basic)
                    (O:=first_order)) Survey.memo).
    exact survey_memo_checked.
Defined.

Lemma text_findings_agree_witness :
  filter text_finding Survey.memo_findings =
  filter text_finding Survey.memo_page_findings.
Proof.
  exact (text_findings_agree (U:=Tables.basic) (O:=first_order) _ _ _
           survey_memo_evaluated survey_memo_page_evaluated).
Defined.


Lemma splitext_parts_witness :
  Checker.splitext (py "reports/annual.html") =
  (py "reports/annual", py ".html").
Proof.
  apply (proj1 (proj2 (proj2 (splitext_parts (py "reports/annual.html"))))
           (py "reports/") (py "annual") (py "html")).
  - reflexivity.
  - right. now exists (py "reports").
  - vm_compute. intuition discriminate.
  - exists 97%N. split; [now left | discriminate].
  - vm_compute. intuition discriminate.
  - vm_compute. intuition discriminate.
Defined.

Module Desk.
Import Checker.

(** A file system with survey.html and memo.docx, which load as the page
    and the memo of [Survey]. *)
Definition files : World :=
  {| isfile := fun p => PyStr.eqb p (py "survey.html") ||
                        PyStr.eqb p (py "memo.docx");
     load_html := fun _ => Some Survey.page;
     load_docx := fun _ => Some Survey.memo |}.

(** A server on which every temporary file loads as the page with the
    blank list item. *)
Definition server : World :=
  {| isfile := fun _ => true;
     load_html := fun _ => Some Samples.blank_item;
     load_docx := fun _ => None |}.

(** The temporary path made for a suffix. *)
Definition tmpname (suffix : pystr) : pystr := py "/tmp/tmpab12cd34" ++ suffix.

End Desk.

Lemma main_reports_witness :
  Checker.main (U:=Tables.basic) (O:=first_order) Desk.files
    [py "govuk_checker.py"; py "survey.html"] =
  (Checker.msg_header :: Survey.page_findings ++
   [Checker.msg_total (length Survey.page_findings)], None).
Proof.
  refine (proj1 (proj2 (proj1
            (main_reports (U:=Tables.basic) (O:=first_order) Desk.files
               (py "govuk_checker.py") (py "survey.html") _) _)
            Survey.page _) Survey.page_findings _).
  - vm_compute. reflexivity.
  - right. vm_compute. reflexivity.
  - reflexivity.
  - exact survey_page_checked.
Defined.

Lemma upload_outcomes_witness :
  App.run (U:=Tables.basic) (O:=first_order) Desk.server Desk.tmpname
    (Some (py "list.html")) =
  ([App.Title App.msg_title; App.Save (py "/tmp/tmpab12cd34.html")],
   Some Checker.IndexError).
Proof.
  refine (proj2 (proj2 (proj2
            (upload_outcomes (U:=Tables.basic) (O:=first_order) Desk.server
               Desk.tmpname (py "list.html")))) _ Samples.blank_item _ _).
  - right. vm_compute. reflexivity.
  - reflexivity.
  - exists (Samples.el "li" [Samples.txt " "]). split; [|split].
    + vm_compute. now left.
    + vm_compute. discriminate.
    + vm_compute. reflexivity.
Defined.

Lemma upload_keeps_extension_witness :
  snd (Checker.splitext (Desk.tmpname (snd (Checker.splitext (py "list.html")))))
  = snd (Checker.splitext (py "list.html")).
Proof.
  apply (upload_keeps_extension Desk.tmpname (py "/tmp/") (py "tmpab12cd34")).
  - vm_compute. reflexivity.
  - right. now exists (py "/tmp").
  - discriminate.
  - vm_compute. intuition discriminate.
  - vm_compute. intuition discriminate.
Defined.

(* ------------------------------------------------------------------ *)
(** * Alt texts and the text of the page *)

Section Described.
Import Re Bs4 Docx Checker Trace.
Context {U : Unicode} {O : SetOrder}.

(** Every text node of the page is a part of the extracted text. *)
Lemma text_node_in_text soup s :
  In (NavigableString s) (descendants soup) ->
  substring s (get_text nl false soup).
Proof.
  intro H. unfold get_text. apply join_In. unfold all_strings.
  apply in_flat_map. exists (NavigableString s). split; [exact H | now left].
Qed.

Lemma alt_sieve soup text :
  filter (prefixed "IMAGE: Alt") (html_out soup text) =
  filter (prefixed "IMAGE: Alt") (images_out soup text).
Proof. rewrite html_out_blocks. now sieve. Qed.

(** When [check_html] returns, the "not described" findings quote exactly
    the non-empty alt texts of the images of the page that are no part of
    the extracted text; in particular no such finding quotes a text that
    occurs inside one text node of the page. *)
Theorem described_alt_texts (soup : node) (fs : list pystr) :
  check_html soup = Val fs ->
  (forall alt_text,
      In (msg_alt_not_described alt_text) fs <->
      alt_text <> [] /\
      ~ substring alt_text (get_text nl false soup) /\
      exists img, In img (find_all [py "img"] soup) /\
                  get img (py "alt") [] = alt_text) /\
  (forall alt_text s,
      In (NavigableString s) (descendants soup) -> substring alt_text s ->
      ~ In (msg_alt_not_described alt_text) fs).
Proof.
  intro H. apply check_html_val in H. subst fs.
  set (text := get_text nl false soup).
  assert (A : forall alt_text,
      In (msg_alt_not_described alt_text) (html_out soup text) <->
      alt_text <> [] /\ ~ substring alt_text text /\
      exists img, In img (find_all [py "img"] soup) /\
                  get img (py "alt") [] = alt_text).
  { intro a.
    rewrite (In_sieved "IMAGE: Alt" _ (msg_alt_not_described a) eq_refl).
    rewrite alt_sieve.
    rewrite <- (In_sieved "IMAGE: Alt" (images_out soup text)
                  (msg_alt_not_described a) eq_refl).
    unfold images_out. rewrite in_flat_map. unfold image_out. split.
    - intros [img [I M]]. apply in_app_iff in M.
      destruct M as [M|M].
      + destruct (negb _); simpl in M; [|destruct M].
        destruct M as [M|[]].
        apply (f_equal (prefixed "IMAGE: Alt")) in M. discriminate.
      + destruct (truthy (get img (py "alt") [])) eqn:T; simpl in M;
          [|destruct M].
        destruct (contains text (get img (py "alt") [])) eqn:C; simpl in M;
          [destruct M|].
        destruct M as [M|[]]. apply quoted_inj in M. subst a.
        split; [|split].
        * intro Z. rewrite Z in T. discriminate.
        * now apply contains_false.
        * now exists img.
    - intros [Ne [Ns [img [I E]]]]. exists img. split; [exact I|].
      rewrite E. apply contains_false in Ns. rewrite Ns.
      destruct a as [|c r]; [contradiction|]. simpl. now left. }
  split; [exact A|].
  intros a s Hs Sub M. apply A in M. destruct M as [_ [Ns _]].
  apply Ns. apply (substring_trans a s text Sub).
  now apply text_node_in_text.
Qed.

End Described.

Lemma described_alt_texts_witness :
  ~ In (Checker.msg_alt_not_described (py "notes")) Survey.page_findings.
Proof.
  refine (proj2 (described_alt_texts (U:=Tables.basic) (O:=first_order)
                   Survey.page Survey.page_findings survey_page_checked)
            (py "notes")
            (py "Please see the notes above/below, published 21 September 2025:")
            _ _).
  - vm_compute. tauto.
  - exists (py "Please see the "),
      (py " above/below, published 21 September 2025:"). reflexivity.
Defined.
